(** * CookiePot consent SDK: the consent-gated interception layer

    A shallow embedding of the storage blocker (src/lib/storage-blocker.ts),
    the script auto-blocker (src/lib/auto-blocker.ts), the persistence layer
    (src/lib/storage.ts) and the client (src/client.ts), with the properties
    of the specification proved or refuted over it.

    Conventions.
    - JavaScript strings are modelled by [string]; the characters are taken
      to be ASCII, so that [length], [toLowerCase] and the comparison of
      characters are the ones of the platform.
    - Mutable fields become record fields and a method becomes a function
      from the state before the call to the state after it.
    - What the browser does (storage, cookies, the console, the network,
      regular expressions, JSON) is kept apart from what the SDK does: the
      browser is a record of state, the engines are type classes. *)

From Stdlib Require Import Ascii String ZArith Lia.
From stdpp Require Import base option list strings gmap pretty.

Local Open Scope string_scope.
Local Open Scope list_scope.

(** ** JavaScript values shared by the modules *)

Module Js.

Definition empty : string := EmptyString.

(** The empty string is the only falsy string. *)
Definition truthy (s : string) : bool :=
  match s with EmptyString => false | String _ _ => true end.

(** [s.startsWith(p)]. *)
Definition startsWith (s p : string) : bool := String.prefix p s.

(** [s.includes(p)]: [p] occurs in [s] at some position. *)
Fixpoint includes (s p : string) : bool :=
  String.prefix p s ||
  match s with
  | EmptyString => false
  | String _ s' => includes s' p
  end.

Definition is_upper (c : ascii) : bool :=
  (65 <=? nat_of_ascii c)%nat && (nat_of_ascii c <=? 90)%nat.
Definition is_lower (c : ascii) : bool :=
  (97 <=? nat_of_ascii c)%nat && (nat_of_ascii c <=? 122)%nat.

Definition lower_char (c : ascii) : ascii :=
  if is_upper c then ascii_of_nat (nat_of_ascii c + 32) else c.
Definition upper_char (c : ascii) : ascii :=
  if is_lower c then ascii_of_nat (nat_of_ascii c - 32) else c.

(** [s.toLowerCase()]. *)
Fixpoint toLowerCase (s : string) : string :=
  match s with
  | EmptyString => EmptyString
  | String c s' => String (lower_char c) (toLowerCase s')
  end.

Definition dquote : string := String (ascii_of_nat 34) EmptyString.

(** [a ?? b] on an optional property. *)
Definition nullish {A} (a : option A) (b : A) : A :=
  match a with Some x => x | None => b end.

(** The regular expressions of the platform.  A [RegExp] is neither global
    nor sticky, so that [test] has no state. *)
Class RegExpEngine := {
  RegExp : Type;
  (** the object a literal [/src/] evaluates to *)
  regexp_literal : string -> RegExp;
  (** [new RegExp(src, 'i')]; [None] when it throws a SyntaxError *)
  regexp_new_i : string -> option RegExp;
  (** [r.test(s)] *)
  regexp_test : RegExp -> string -> bool;
  (** [r.source] *)
  regexp_source : RegExp -> string
}.

End Js.

(** ** An engine for the patterns without operators

  The patterns of the tables of the SDK and of its tests are sequences of
  characters, [.], [^], [$] and escaped punctuation.  On those the engine
  below computes what ECMAScript does.  It also recognises three kinds of
  SyntaxError: a pattern that begins with a quantifier, a pattern that
  ends in a lone backslash and a character class that is never closed.
  Every other pattern is [Unmodelled]: the theorems of this file hold for
  every engine and none of the examples evaluates an unmodelled one. *)

Module LiteralEngine.
Import Js.

Inductive atom :=
| AChr (c : ascii)
| ADot
| AStart
| AEnd.

Inductive regexp :=
| Atoms (ignoreCase : bool) (atoms : list atom)
| Unmodelled (source : string).

Inductive parse_result :=
| Parsed (atoms : list atom)
| SyntaxError
| OutOfFragment.

Definition char_in (c : ascii) (s : string) : bool :=
  includes s (String c EmptyString).

(** The characters that a backslash turns into themselves. *)
Definition syntax_chars : string := "^$\.*+?()[]{}|/".

Definition then_atom (a : atom) (r : parse_result) : parse_result :=
  match r with
  | Parsed l => Parsed (a :: l)
  | other => other
  end.

Fixpoint parse_atoms (s : string) : parse_result :=
  match s with
  | EmptyString => Parsed []
  | String c rest =>
      if Ascii.eqb c "\" then
        match rest with
        | EmptyString => SyntaxError
        | String d rest' =>
            if char_in d syntax_chars
            then then_atom (AChr d) (parse_atoms rest')
            else OutOfFragment
        end
      else if Ascii.eqb c "^" then then_atom AStart (parse_atoms rest)
      else if Ascii.eqb c "$" then then_atom AEnd (parse_atoms rest)
      else if Ascii.eqb c "." then then_atom ADot (parse_atoms rest)
      else if Ascii.eqb c "[" then
        if char_in "]" rest then OutOfFragment else SyntaxError
      else if char_in c "*+?(){}|]" then OutOfFragment
      else then_atom (AChr c) (parse_atoms rest)
  end.

(** The source of the empty regular expression is [(?:)]. *)
Definition parse (s : string) : parse_result :=
  if String.eqb s "(?:)" then Parsed [] else
  match s with
  | String c _ =>
      if char_in c "*+?" then SyntaxError else parse_atoms s
  | EmptyString => Parsed []
  end.

Definition literal (src : string) : regexp :=
  match parse src with
  | Parsed l => Atoms false l
  | _ => Unmodelled src
  end.

Definition new_i (src : string) : option regexp :=
  match parse src with
  | Parsed l => Some (Atoms true l)
  | SyntaxError => None
  | OutOfFragment => Some (Unmodelled src)
  end.

Definition chr_eq (ignoreCase : bool) (c d : ascii) : bool :=
  if ignoreCase then Ascii.eqb (upper_char c) (upper_char d)
  else Ascii.eqb c d.

Definition line_terminator (c : ascii) : bool :=
  Ascii.eqb c (ascii_of_nat 10) || Ascii.eqb c (ascii_of_nat 13).

(** The atoms match a prefix of [s]; [at_start] tells whether [s] is the
    whole input. *)
Fixpoint match_here (ic : bool) (l : list atom) (at_start : bool)
    (s : string) : bool :=
  match l with
  | [] => true
  | AStart :: l' => at_start && match_here ic l' at_start s
  | AEnd :: l' => negb (truthy s) && match_here ic l' at_start s
  | AChr c :: l' =>
      match s with
      | String d s' => chr_eq ic c d && match_here ic l' false s'
      | EmptyString => false
      end
  | ADot :: l' =>
      match s with
      | String d s' => negb (line_terminator d) && match_here ic l' false s'
      | EmptyString => false
      end
  end.

(** The atoms match at some position of the input. *)
Fixpoint search (ic : bool) (l : list atom) (at_start : bool)
    (s : string) : bool :=
  match_here ic l at_start s ||
  match s with
  | EmptyString => false
  | String _ s' => search ic l false s'
  end.

Definition test (r : regexp) (s : string) : bool :=
  match r with
  | Atoms ic l => search ic l true s
  | Unmodelled _ => false
  end.

Definition atom_source (a : atom) : string :=
  match a with
  | AChr c =>
      if char_in c syntax_chars
      then String "\" (String c EmptyString)
      else String c EmptyString
  | ADot => "."
  | AStart => "^"
  | AEnd => "$"
  end.

Definition source (r : regexp) : string :=
  match r with
  | Atoms _ [] => "(?:)"
  | Atoms _ l => fold_right (fun a acc => atom_source a +:+ acc) EmptyString l
  | Unmodelled src => src
  end.

#[export] Instance engine : RegExpEngine := {
  RegExp := regexp;
  regexp_literal := literal;
  regexp_new_i := new_i;
  regexp_test := test;
  regexp_source := source
}.

End LiteralEngine.

(** ** src/types.ts *)

Module Types.

(** [ConsentCategory = keyof ConsentCategories]. *)
Inductive ConsentCategory := Necessary | Analytics | Marketing | Preferences.

#[export] Instance ConsentCategory_eq_dec : EqDecision ConsentCategory.
Proof. solve_decision. Defined.

(** The type gives [necessary] the literal type [true]; a caller can still
    pass any boolean at run time, so the field is a [bool]. *)
Record ConsentCategories := {
  necessary : bool;
  analytics : bool;
  marketing : bool;
  preferences : bool
}.

#[export] Instance ConsentCategories_eq_dec : EqDecision ConsentCategories.
Proof. solve_decision. Defined.

(** [consent[category]]. *)
Definition get (c : ConsentCategories) (cat : ConsentCategory) : bool :=
  match cat with
  | Necessary => necessary c
  | Analytics => analytics c
  | Marketing => marketing c
  | Preferences => preferences c
  end.

Definition category_name (cat : ConsentCategory) : string :=
  match cat with
  | Necessary => "necessary"
  | Analytics => "analytics"
  | Marketing => "marketing"
  | Preferences => "preferences"
  end.

(** [Partial<ConsentCategories>]: a property that is omitted, [undefined]
    or [null] is [None]; [??] does not tell them apart. *)
Record PartialConsentCategories := {
  p_necessary : option bool;
  p_analytics : option bool;
  p_marketing : option bool;
  p_preferences : option bool
}.

(** [categories[category]] on the partial object. *)
Definition get_partial (p : PartialConsentCategories) (cat : ConsentCategory)
    : option bool :=
  match cat with
  | Necessary => p_necessary p
  | Analytics => p_analytics p
  | Marketing => p_marketing p
  | Preferences => p_preferences p
  end.

Record ConsentState := {
  visitorId : string;
  sessionId : string;
  categories : ConsentCategories;
  timestamp : option string
}.

Definition STORAGE_KEYS_CONSENT : string := "cookiepot_consent".
Definition STORAGE_KEYS_VISITOR_ID : string := "cookiepot_visitor_id".
Definition STORAGE_KEYS_SESSION_ID : string := "cookiepot_session_id".

Definition defaultConsent : ConsentCategories :=
  {| necessary := true; analytics := false; marketing := false;
     preferences := false |}.

End Types.

(** ** The part of the browser that the storage blocker touches *)

Module Browser.

Inductive StorageType := LocalStorage | SessionStorage.

#[export] Instance StorageType_eq_dec : EqDecision StorageType.
Proof. solve_decision. Defined.

Definition storage_name (t : StorageType) : string :=
  match t with
  | LocalStorage => "localStorage"
  | SessionStorage => "sessionStorage"
  end.

(** A call of one of the native methods of a [Storage] object. *)
Inductive NativeCall :=
| NativeSetItem (key value : string)
| NativeRemoveItem (key : string)
| NativeClear.

#[export] Instance NativeCall_eq_dec : EqDecision NativeCall.
Proof. solve_decision. Defined.

(** The two storage areas, the calls of their native methods in the order
    in which they were made, and the console.  The native methods are total:
    a quota or a security error of the platform is not modelled. *)
Record t := {
  hasWindow : bool;
  localStorage : gmap string string;
  sessionStorage : gmap string string;
  native_calls : list (StorageType * NativeCall);
  console : list string
}.

Definition area (ty : StorageType) (w : t) : gmap string string :=
  match ty with
  | LocalStorage => localStorage w
  | SessionStorage => sessionStorage w
  end.

Definition apply_call (c : NativeCall) (m : gmap string string)
    : gmap string string :=
  match c with
  | NativeSetItem k v => <[k := v]> m
  | NativeRemoveItem k => delete k m
  | NativeClear => ∅
  end.

(** The native method of the area [ty] runs and is recorded. *)
Definition native (ty : StorageType) (c : NativeCall) (w : t) : t :=
  {| hasWindow := hasWindow w;
     localStorage :=
       match ty with
       | LocalStorage => apply_call c (localStorage w)
       | SessionStorage => localStorage w
       end;
     sessionStorage :=
       match ty with
       | LocalStorage => sessionStorage w
       | SessionStorage => apply_call c (sessionStorage w)
       end;
     native_calls := native_calls w ++ [(ty, c)];
     console := console w |}.

(** [console.log(msg)]. *)
Definition log (msg : string) (w : t) : t :=
  {| hasWindow := hasWindow w;
     localStorage := localStorage w;
     sessionStorage := sessionStorage w;
     native_calls := native_calls w;
     console := console w ++ [msg] |}.

End Browser.

(** ** src/lib/storage-blocker.ts *)

Module StorageBlocker.
Import Js Types Browser.

Section WithEngine.
Context `{E : RegExpEngine}.

Inductive Pattern :=
| PString (s : string)
| PRegExp (r : RegExp).

Record StoragePattern := {
  pattern : Pattern;
  category : ConsentCategory;
  description : option string
}.

Record StorageBlockingConfig := {
  enabled : bool;
  patterns : option (list StoragePattern);
  allowedKeys : option (list Pattern);
  queueOperations : option bool;
  (** a JavaScript number; whole numbers are modelled *)
  maxQueueSize : option Z;
  debug : option bool
}.

Inductive OperationType := SetItem | RemoveItem | Clear.

Record QueuedStorageOperation := {
  type : OperationType;
  storageType : StorageType;
  key : option string;
  value : option string;
  op_category : ConsentCategory;
  timestamp : Z
}.

Definition rx (src : string) (cat : ConsentCategory) (descr : string)
    : StoragePattern :=
  {| pattern := PRegExp (regexp_literal src); category := cat;
     description := Some descr |}.

Definition defaultStoragePatterns : list StoragePattern :=
  [ rx "^_ga" Analytics "Google Analytics";
    rx "^_gid" Analytics "Google Analytics";
    rx "^amplitude" Analytics "Amplitude";
    rx "^mixpanel" Analytics "Mixpanel";
    rx "^mp_" Analytics "Mixpanel";
    rx "^ajs_" Analytics "Segment";
    rx "^heap" Analytics "Heap Analytics";
    rx "^ph_" Analytics "PostHog";
    rx "^plausible" Analytics "Plausible";
    rx "^_fbp" Marketing "Facebook Pixel";
    rx "^_fbc" Marketing "Facebook Click ID";
    rx "^hubspot" Marketing "HubSpot";
    rx "^intercom" Marketing "Intercom";
    rx "^drift" Marketing "Drift";
    rx "^_gcl" Marketing "Google Ads";
    rx "^_ttp" Marketing "TikTok Pixel";
    rx "^theme" Preferences "Theme preference";
    rx "^lang" Preferences "Language preference";
    rx "^i18n" Preferences "Internationalization" ].

(** The original methods of one storage area, bound to that area. *)
Record SavedMethods := { bound : StorageType }.

Definition saved_setItem (m : SavedMethods) (k v : string) : Browser.t -> Browser.t :=
  native (bound m) (NativeSetItem k v).
Definition saved_removeItem (m : SavedMethods) (k : string) : Browser.t -> Browser.t :=
  native (bound m) (NativeRemoveItem k).
Definition saved_clear (m : SavedMethods) : Browser.t -> Browser.t :=
  native (bound m) NativeClear.

(** The fields of the class.  [b_patterns] and [b_allowedKeys] are the
    tables that the constructor builds. *)
Record t := {
  queue : list QueuedStorageOperation;
  b_patterns : list StoragePattern;
  b_allowedKeys : list Pattern;
  consent : ConsentCategories;
  config : StorageBlockingConfig;
  active : bool;
  origLocal : option SavedMethods;
  origSession : option SavedMethods
}.

Definition constructor (cfg : StorageBlockingConfig)
    (initialConsent : ConsentCategories) : t :=
  {| queue := [];
     b_patterns := defaultStoragePatterns ++ nullish (patterns cfg) [];
     b_allowedKeys :=
       PRegExp (regexp_literal "^cookiepot_") :: nullish (allowedKeys cfg) [];
     consent := initialConsent;
     config := cfg;
     active := false;
     origLocal := None;
     origSession := None |}.

Definition set_queue (q : list QueuedStorageOperation) (b : t) : t :=
  {| queue := q; b_patterns := b_patterns b; b_allowedKeys := b_allowedKeys b;
     consent := consent b; config := config b; active := active b;
     origLocal := origLocal b; origSession := origSession b |}.

Definition set_consent (c : ConsentCategories) (b : t) : t :=
  {| queue := queue b; b_patterns := b_patterns b;
     b_allowedKeys := b_allowedKeys b;
     consent := c; config := config b; active := active b;
     origLocal := origLocal b; origSession := origSession b |}.

Definition set_wrapping (a : bool) (l s : option SavedMethods) (b : t) : t :=
  {| queue := queue b; b_patterns := b_patterns b;
     b_allowedKeys := b_allowedKeys b;
     consent := consent b; config := config b; active := a;
     origLocal := l; origSession := s |}.

Definition debugging (b : t) : bool :=
  match debug (config b) with Some true => true | _ => false end.

(** [this.config.queueOperations !== false]. *)
Definition queueing (b : t) : bool :=
  match queueOperations (config b) with Some false => false | _ => true end.

Definition debug_log (b : t) (msg : string) (w : Browser.t) : Browser.t :=
  if debugging b then log msg w else w.

(** [isAllowed]: a string of the allow-list matches by equality only. *)
Definition isAllowed (b : t) (k : string) : bool :=
  existsb (fun p =>
             match p with
             | PString s => String.eqb k s
             | PRegExp r => regexp_test r k
             end) (b_allowedKeys b).

Definition pattern_matches (p : Pattern) (k : string) : bool :=
  match p with
  | PString s => String.eqb k s || startsWith k s
  | PRegExp r => regexp_test r k
  end.

Fixpoint categorize (table : list StoragePattern) (k : string)
    : ConsentCategory :=
  match table with
  | [] => Marketing
  | p :: rest =>
      if pattern_matches (pattern p) k then category p
      else categorize rest k
  end.

Definition categorizeKey (b : t) (k : string) : ConsentCategory :=
  categorize (b_patterns b) k.

Definition granted (c : ConsentCategories) (cat : ConsentCategory) : bool :=
  match cat with
  | Necessary => true
  | _ => get c cat
  end.

Definition hasConsent (b : t) (cat : ConsentCategory) : bool :=
  granted (consent b) cat.

(** [queueOperation] on the array: [shift] when full, then [push]. *)
Definition enqueue (maxSize : Z) (q : list QueuedStorageOperation)
    (op : QueuedStorageOperation) : list QueuedStorageOperation :=
  (if (maxSize <=? Z.of_nat (length q))%Z then tail q else q) ++ [op].

Definition queueOperation (op : QueuedStorageOperation) (b : t) : t :=
  let maxSize := nullish (maxQueueSize (config b)) 100%Z in
  set_queue (enqueue maxSize (queue b) op) b.

Definition executeOperation (b : t) (op : QueuedStorageOperation)
    (w : Browser.t) : Browser.t :=
  let saved :=
    match storageType op with
    | LocalStorage => origLocal b
    | SessionStorage => origSession b
    end in
  match saved with
  | None => w
  | Some m =>
      match type op with
      | SetItem =>
          match key op, value op with
          | Some k, Some v => saved_setItem m k v w
          | _, _ => w
          end
      | RemoveItem =>
          match key op with
          | Some k => saved_removeItem m k w
          | None => w
          end
      | Clear => saved_clear m w
      end
  end.

(** The loop of [processQueue]: the operations that are kept, in order, and
    the browser after the others have run. *)
Fixpoint replay (b : t) (q remaining : list QueuedStorageOperation)
    (w : Browser.t) : list QueuedStorageOperation * Browser.t :=
  match q with
  | [] => (remaining, w)
  | op :: q' =>
      if hasConsent b (op_category op)
      then replay b q' remaining (executeOperation b op w)
      else replay b q' (remaining ++ [op]) w
  end.

(** The message is guarded by a comparison with [this.queue], which has
    been assigned [remaining] by then. *)
Definition processQueue (b : t) (w : Browser.t) : t * Browser.t :=
  let '(remaining, w1) := replay b (queue b) [] w in
  let b1 := set_queue remaining b in
  let w2 :=
    if debugging b1 && (length remaining <? length (queue b1))%nat
    then log ("[CookiePot] Processed "
                +:+ pretty (length (queue b1) - length remaining)%nat
                +:+ " queued storage operations") w1
    else w1 in
  (b1, w2).

Definition updateConsent (c : ConsentCategories) (b : t) (w : Browser.t)
    : t * Browser.t :=
  processQueue (set_consent c b) w.

Definition getQueue (b : t) : list QueuedStorageOperation := queue b.

Definition isActive (b : t) : bool := active b.

(** [wrapStorage] returns the bound originals; the three functions that it
    installs are [wrapped_setItem], [wrapped_removeItem], [wrapped_clear]. *)
Definition wrapStorage (ty : StorageType) : SavedMethods := {| bound := ty |}.

Definition blocked_message (ty : StorageType) (call : string)
    (cat : ConsentCategory) : string :=
  "[CookiePot] Blocked " +:+ storage_name ty +:+ "." +:+ call
    +:+ " - requires " +:+ category_name cat +:+ " consent".

Definition wrapped_setItem (ty : StorageType) (k v : string) (now : Z)
    (b : t) (w : Browser.t) : t * Browser.t :=
  if isAllowed b k then (b, native ty (NativeSetItem k v) w) else
  let cat := categorizeKey b k in
  if hasConsent b cat then (b, native ty (NativeSetItem k v) w) else
  let b1 :=
    if queueing b
    then queueOperation
           {| type := SetItem; storageType := ty; key := Some k;
              value := Some v; op_category := cat; timestamp := now |} b
    else b in
  (b1, debug_log b
         (blocked_message ty
            ("setItem(" +:+ dquote +:+ k +:+ dquote +:+ ")") cat) w).

Definition wrapped_removeItem (ty : StorageType) (k : string) (now : Z)
    (b : t) (w : Browser.t) : t * Browser.t :=
  if isAllowed b k then (b, native ty (NativeRemoveItem k) w) else
  let cat := categorizeKey b k in
  if hasConsent b cat then (b, native ty (NativeRemoveItem k) w) else
  let b1 :=
    if queueing b
    then queueOperation
           {| type := RemoveItem; storageType := ty; key := Some k;
              value := None; op_category := cat; timestamp := now |} b
    else b in
  (b1, debug_log b
         (blocked_message ty
            ("removeItem(" +:+ dquote +:+ k +:+ dquote +:+ ")") cat) w).

Definition clear_operation (ty : StorageType) (now : Z)
    : QueuedStorageOperation :=
  {| type := Clear; storageType := ty; key := None; value := None;
     op_category := Marketing; timestamp := now |}.

Definition wrapped_clear (ty : StorageType) (now : Z)
    (b : t) (w : Browser.t) : t * Browser.t :=
  if hasConsent b Marketing then (b, native ty NativeClear w) else
  let b1 := if queueing b then queueOperation (clear_operation ty now) b
            else b in
  (b1, debug_log b (blocked_message ty "clear()" Marketing) w).

Definition start (b : t) (w : Browser.t) : t * Browser.t :=
  if active b || negb (hasWindow w) then (b, w) else
  let b1 := set_wrapping true (Some (wrapStorage LocalStorage))
              (Some (wrapStorage SessionStorage)) b in
  (b1, debug_log b1 "[CookiePot] Storage blocker started" w).

Definition stop (b : t) (w : Browser.t) : t * Browser.t :=
  if negb (active b) then (b, w) else
  let b1 := set_wrapping false None None b in
  (b1, debug_log b1 "[CookiePot] Storage blocker stopped" w).

(** What the page reaches when it calls a method of a storage area: the
    function installed by [start] while the blocker is active, the native
    method otherwise.  [now] is the reading of the clock. *)
Definition Storage_setItem (ty : StorageType) (k v : string) (now : Z)
    (b : t) (w : Browser.t) : t * Browser.t :=
  if active b then wrapped_setItem ty k v now b w
  else (b, native ty (NativeSetItem k v) w).

Definition Storage_removeItem (ty : StorageType) (k : string) (now : Z)
    (b : t) (w : Browser.t) : t * Browser.t :=
  if active b then wrapped_removeItem ty k now b w
  else (b, native ty (NativeRemoveItem k) w).

Definition Storage_clear (ty : StorageType) (now : Z)
    (b : t) (w : Browser.t) : t * Browser.t :=
  if active b then wrapped_clear ty now b w
  else (b, native ty NativeClear w).

(** *** [scan] *)

Record StorageItem := {
  i_key : string;
  i_size : nat;
  i_category : ConsentCategory;
  i_description : option string
}.

Record StorageScanResult := {
  scan_localStorage : list StorageItem;
  scan_sessionStorage : list StorageItem;
  scannedAt : string
}.

(** [storage.key(i)] for [i] from [0] to [storage.length - 1]: the keys of
    the area, each once, in an order that the user agent chooses; here, the
    order of the map. *)
Definition storage_keys (m : gmap string string) : list string :=
  fst <$> map_to_list m.

(** [new Blob([value]).size]: the length of the text in UTF-8, where a
    character from 128 on takes two bytes. *)
Fixpoint blob_size (s : string) : nat :=
  match s with
  | EmptyString => 0
  | String c s' =>
      (if (nat_of_ascii c <? 128)%nat then 1 else 2) + blob_size s'
  end.

(** [scanStorage]; the reading methods of an area are never wrapped. *)
Definition scanStorage (b : t) (storage : gmap string string)
    : list StorageItem :=
  map (fun k =>
         let v := default EmptyString (storage !! k) in
         let cat := if isAllowed b k then Necessary else categorizeKey b k in
         let patternMatch :=
           List.find (fun p => pattern_matches (pattern p) k)
             (b_patterns b) in
         {| i_key := k; i_size := blob_size v; i_category := cat;
            i_description := patternMatch ≫= description |})
    (storage_keys storage).

(** [scan]; [now] is what [new Date().toISOString()] returns. *)
Definition scan (b : t) (now : string) (w : Browser.t) : StorageScanResult :=
  {| scan_localStorage := scanStorage b (localStorage w);
     scan_sessionStorage := scanStorage b (sessionStorage w);
     scannedAt := now |}.

(** *** Vocabulary of the properties *)

(** The native call that a queued operation stands for; an operation that
    lacks its key or its value stands for none. *)
Definition call_of (op : QueuedStorageOperation)
    : option (StorageType * NativeCall) :=
  match type op, key op, value op with
  | SetItem, Some k, Some v => Some (storageType op, NativeSetItem k v)
  | RemoveItem, Some k, _ => Some (storageType op, NativeRemoveItem k)
  | Clear, _, _ => Some (storageType op, NativeClear)
  | _, _, _ => None
  end.

Definition perform (w : Browser.t) (c : StorageType * NativeCall)
    : Browser.t :=
  native (fst c) (snd c) w.

(** The operation has what its kind needs: a key, and a value to set. *)
Definition callable (op : QueuedStorageOperation) : Prop :=
  is_Some (call_of op).

(** The blocker has been started: the page reaches the wrappers and the
    originals of both areas are saved. *)
Definition started (b : t) : Prop :=
  active b = true
  ∧ origLocal b = Some (wrapStorage LocalStorage)
  ∧ origSession b = Some (wrapStorage SessionStorage).

Definition capacity (b : t) : Z :=
  nullish (maxQueueSize (config b)) 100%Z.

Definition queueOperations_all
    (ops : list QueuedStorageOperation) (b : t)
    : t :=
  fold_left (fun b op => queueOperation op b) ops b.

(** The originals are saved exactly while the blocker is active, and the
    operations of the queue are callable. *)
Definition consistent (b : t) : Prop :=
  (if active b then started b
   else origLocal b = None ∧ origSession b = None)
  ∧ Forall callable (queue b).

(** One call on the blocker or, by the page, on a storage area. *)
Inductive step : t * Browser.t -> t * Browser.t -> Prop :=
| step_start b w : step (b, w) (start b w)
| step_stop b w : step (b, w) (stop b w)
| step_updateConsent c b w : step (b, w) (updateConsent c b w)
| step_setItem ty k v now b w : step (b, w) (Storage_setItem ty k v now b w)
| step_removeItem ty k now b w :
    step (b, w) (Storage_removeItem ty k now b w)
| step_clear ty now b w : step (b, w) (Storage_clear ty now b w).

(** The blockers that a program can see: a new one, and the ones that
    calls lead to. *)
Inductive reachable : t * Browser.t -> Prop :=
| reachable_new cfg c w : reachable (constructor cfg c, w)
| reachable_step s s' : reachable s -> step s s' -> reachable s'.

End WithEngine.

Arguments Pattern {E}.
Arguments StoragePattern {E}.
Arguments StorageBlockingConfig {E}.
Arguments t {E}.

End StorageBlocker.

(** ** The page as the client and its components see it *)

Module Page.

(** A global of the platform: missing ([typeof x === 'undefined']), present
    but every access throws (a SecurityError), or present. *)
Inductive Access (A : Type) :=
| Undefined
| Denied
| Available (content : A).
Arguments Undefined {A}.
Arguments Denied {A}.
Arguments Available {A} content.

(** An element of the document.  An element is known by its identity, a
    number, and [nodes] below gives the state of each.  The attributes are
    a map from names to values; [type] and [src] reflect the attributes of
    the same name, and the value of [src] is taken to be an absolute URL
    already. *)
Record Node := {
  nodeName : string;
  attributes : gmap string string;
  textContent : string;
  innerHTML : string;
  parentNode : option nat;
  childNodes : list nat
}.

(** [window.gtag]: missing, a function that throws, or the usual function
    that records its arguments. *)
Inductive GtagFunction := NoGtag | GtagThrows | GtagRecords.

Inductive GtagValue := GStr (s : string) | GNum (n : Z).

(** The arguments of one call of [gtag]: two strings and an object. *)
Definition GtagCall : Type := string * string * list (string * GtagValue).

(** The request of [APIClient.submitConsent]. *)
Record SubmitConsentRequest := {
  r_visitorId : string;
  r_sessionId : string;
  r_categories : Types.ConsentCategories;
  r_bannerVersion : string;
  r_interactionType : string;
  r_language : string
}.

(** What the SDK does to the world outside it, in the order in which it
    does it. *)
Inductive Event :=
| Console (msg : string)
| CookieAssigned (assignment : string)
| LocalStorageCalled (call : Browser.NativeCall)
| GtagCalled (call : GtagCall)
| HandlerCalled (event : string) (handler : nat)
    (data : option Types.ConsentCategories)
| ConsentSubmitted (request : SubmitConsentRequest).

Record t := {
  hasWindow : bool;
  hasDocument : bool;
  hasMutationObserver : bool;
  (** the cookies of the document, name and encoded value, oldest first;
      the browser accepts every cookie that is assigned *)
  cookies : list (string * string);
  localStorage : Access (gmap string string);
  nodes : gmap nat Node;
  gtag : GtagFunction;
  trace : list Event
}.

Definition with_cookies (c : list (string * string)) (w : t) : t :=
  {| hasWindow := hasWindow w; hasDocument := hasDocument w;
     hasMutationObserver := hasMutationObserver w;
     cookies := c; localStorage := localStorage w; nodes := nodes w;
     gtag := gtag w; trace := trace w |}.

Definition with_localStorage (l : Access (gmap string string)) (w : t) : t :=
  {| hasWindow := hasWindow w; hasDocument := hasDocument w;
     hasMutationObserver := hasMutationObserver w;
     cookies := cookies w; localStorage := l; nodes := nodes w;
     gtag := gtag w; trace := trace w |}.

Definition with_nodes (n : gmap nat Node) (w : t) : t :=
  {| hasWindow := hasWindow w; hasDocument := hasDocument w;
     hasMutationObserver := hasMutationObserver w;
     cookies := cookies w; localStorage := localStorage w; nodes := n;
     gtag := gtag w; trace := trace w |}.

Definition record (e : Event) (w : t) : t :=
  {| hasWindow := hasWindow w; hasDocument := hasDocument w;
     hasMutationObserver := hasMutationObserver w;
     cookies := cookies w; localStorage := localStorage w; nodes := nodes w;
     gtag := gtag w; trace := trace w ++ [e] |}.

(** [console.log], [console.warn] and [console.error]. *)
Definition log (msg : string) (w : t) : t := record (Console msg) w.

Definition record_all (events : list Event) (w : t) : t :=
  fold_left (fun w e => record e w) events w.

Definition is_console (e : Event) : Prop :=
  match e with Console _ => True | _ => False end.

(** The effects that stay on the page: all but the request to the API. *)
Definition is_local_effect (e : Event) : Prop :=
  match e with ConsentSubmitted _ => False | _ => True end.

(** [window.dataLayer] as the usual [gtag] fills it. *)
Definition dataLayer (w : t) : list GtagCall :=
  omap (fun e => match e with GtagCalled c => Some c | _ => None end)
    (trace w).

Definition console (w : t) : list string :=
  omap (fun e => match e with Console m => Some m | _ => None end)
    (trace w).

(** *** Elements *)

Definition getAttribute (n : Node) (name : string) : option string :=
  attributes n !! name.

Definition hasAttribute (n : Node) (name : string) : bool :=
  bool_decide (is_Some (attributes n !! name)).

Definition with_attributes (a : gmap string string) (n : Node) : Node :=
  {| nodeName := nodeName n; attributes := a; textContent := textContent n;
     innerHTML := innerHTML n; parentNode := parentNode n;
     childNodes := childNodes n |}.

Definition setAttribute (name value : string) (n : Node) : Node :=
  with_attributes (<[name := value]> (attributes n)) n.

Definition removeAttribute (name : string) (n : Node) : Node :=
  with_attributes (delete name (attributes n)) n.

(** [script.src]: the empty string without the attribute. *)
Definition src (n : Node) : string :=
  default EmptyString (attributes n !! "src").

(** Assigning [textContent] of a script replaces its text, which is also
    what [innerHTML] serialises. *)
Definition set_textContent (s : string) (n : Node) : Node :=
  {| nodeName := nodeName n; attributes := attributes n; textContent := s;
     innerHTML := s; parentNode := parentNode n; childNodes := childNodes n |}.

Definition set_parentNode (p : option nat) (n : Node) : Node :=
  {| nodeName := nodeName n; attributes := attributes n;
     textContent := textContent n; innerHTML := innerHTML n;
     parentNode := p; childNodes := childNodes n |}.

Definition set_childNodes (c : list nat) (n : Node) : Node :=
  {| nodeName := nodeName n; attributes := attributes n;
     textContent := textContent n; innerHTML := innerHTML n;
     parentNode := parentNode n; childNodes := c |}.

(** [document.createElement('script')]: a new element, not in the tree. *)
Definition new_script : Node :=
  {| nodeName := "SCRIPT"; attributes := ∅; textContent := EmptyString;
     innerHTML := EmptyString; parentNode := None; childNodes := [] |}.

Definition createElement_script (w : t) : nat * t :=
  let id := fresh (dom (nodes w)) in
  (id, with_nodes (<[id := new_script]> (nodes w)) w).

(** The element [id] is replaced by [f] of it. *)
Definition update_node (id : nat) (f : Node -> Node) (w : t) : t :=
  with_nodes (alter f id (nodes w)) w.

(** [parent.replaceChild(newChild, oldChild)], for a [newChild] that is
    not in the tree and an [oldChild] whose parent is [parent]. *)
Definition replaceChild (parent newChild oldChild : nat) (w : t) : t :=
  let swap := fun c => if decide (c = oldChild) then newChild else c in
  update_node parent (fun p => set_childNodes (swap <$> childNodes p) p)
    (update_node newChild (set_parentNode (Some parent))
       (update_node oldChild (set_parentNode None) w)).

End Page.

(** ** src/lib/auto-blocker.ts *)

Module ScriptAutoBlocker.
Import Js Types Page.

Section WithEngine.
Context `{E : RegExpEngine}.

Inductive Pattern :=
| PString (s : string)
| PRegExp (r : RegExp).

Record ScriptPattern := {
  pattern : Pattern;
  category : ConsentCategory
}.

Record BlockedScript := {
  element : nat;
  b_category : ConsentCategory;
  b_src : option string;
  b_content : option string
}.

(** The fields of the class.  An object of consent is never assigned to
    after it has been built, so the reference that [consent] holds is
    modelled by the value of the object. *)
Record t := {
  patterns : list ScriptPattern;
  blockedScripts : list BlockedScript;
  observer : bool;
  consent : ConsentCategories;
  enabled : bool
}.

Definition constructor (pats : list ScriptPattern)
    (initialConsent : ConsentCategories) (en : bool) : t :=
  {| patterns := pats; blockedScripts := []; observer := false;
     consent := initialConsent; enabled := en |}.

Definition set_blockedScripts (l : list BlockedScript) (b : t) : t :=
  {| patterns := patterns b; blockedScripts := l; observer := observer b;
     consent := consent b; enabled := enabled b |}.

Definition set_observer (o : bool) (b : t) : t :=
  {| patterns := patterns b; blockedScripts := blockedScripts b;
     observer := o; consent := consent b; enabled := enabled b |}.

Definition set_consent (c : ConsentCategories) (b : t) : t :=
  {| patterns := patterns b; blockedScripts := blockedScripts b;
     observer := observer b; consent := c; enabled := enabled b |}.

Definition set_enabled (e : bool) (b : t) : t :=
  {| patterns := patterns b; blockedScripts := blockedScripts b;
     observer := observer b; consent := consent b; enabled := e |}.

(** [matchesPattern]: the pattern is compiled without regard to case; when
    it does not compile, the lowered text is searched for the lowered
    pattern. *)
Definition matchesPattern (text pat : string) : bool :=
  match regexp_new_i pat with
  | Some regex => regexp_test regex text
  | None => includes (toLowerCase text) (toLowerCase pat)
  end.

Definition matcher (p : Pattern) : string :=
  match p with
  | PString s => s
  | PRegExp r => regexp_source r
  end.

Definition pattern_matches (p : ScriptPattern) (source content : string)
    : bool :=
  (truthy source && matchesPattern source (matcher (pattern p)))
  || (truthy content && matchesPattern content (matcher (pattern p))).

Fixpoint matchPatterns (table : list ScriptPattern) (source content : string)
    : option ConsentCategory :=
  match table with
  | [] => None
  | p :: rest =>
      if pattern_matches p source content then Some (category p)
      else matchPatterns rest source content
  end.

(** [script.textContent || script.innerHTML]. *)
Definition content_of (script : Node) : string :=
  if truthy (textContent script) then textContent script
  else innerHTML script.

Definition matchScriptToCategory (b : t) (script : Node)
    : option ConsentCategory :=
  matchPatterns (patterns b) (src script) (content_of script).

Definition hasConsent (b : t) (cat : ConsentCategory) : bool :=
  get (consent b) cat.

Definition or_undefined (s : string) : option string :=
  if truthy s then Some s else None.

Definition blockScript (id : nat) (script : Node) (cat : ConsentCategory)
    (b : t) (w : Page.t) : t * Page.t :=
  let blockedScript :=
    {| element := id; b_category := cat;
       b_src := or_undefined (src script);
       b_content := or_undefined (textContent script) |} in
  let b1 := set_blockedScripts (blockedScripts b ++ [blockedScript]) b in
  let s1 := setAttribute "type" "text/plain" script in
  let s2 := setAttribute "data-cookiepot-blocked" (category_name cat) s1 in
  let s3 := if truthy (src s2) then removeAttribute "src" s2 else s2 in
  (b1, log ("[CookiePot] Blocked " +:+ category_name cat +:+ " script: "
              +:+ default "inline" (b_src blockedScript))
         (with_nodes (<[id := s3]> (nodes w)) w)).

(** [handleScriptTag] on the element [id] of the document. *)
Definition handleScriptTag (id : nat) (b : t) (w : Page.t) : t * Page.t :=
  match nodes w !! id with
  | None => (b, w)
  | Some script =>
      if hasAttribute script "data-cookiepot-processed" then (b, w) else
      let '(b1, w1) :=
        match matchScriptToCategory b script with
        | Some cat =>
            if negb (hasConsent b cat) then blockScript id script cat b w
            else (b, w)
        | None => (b, w)
        end in
      (b1, update_node id (setAttribute "data-cookiepot-processed" "true") w1)
  end.

(** The callback of the observer for the nodes added by one batch of
    mutations of the child lists. *)
Fixpoint observed (added : list nat) (b : t) (w : Page.t) : t * Page.t :=
  match added with
  | [] => (b, w)
  | id :: rest =>
      let '(b1, w1) :=
        match nodes w !! id with
        | Some n =>
            if String.eqb (nodeName n) "SCRIPT" then handleScriptTag id b w
            else (b, w)
        | None => (b, w)
        end in
      observed rest b1 w1
  end.

Definition stop (b : t) (w : Page.t) : t * Page.t :=
  if observer b
  then (set_observer false b, log "[CookiePot] Script auto-blocker stopped" w)
  else (b, w).

Definition start (b : t) (w : Page.t) : t * Page.t :=
  if negb (enabled b) || negb (hasWindow w) || negb (hasMutationObserver w)
  then (b, w)
  else
    let '(b1, w1) := stop b w in
    (set_observer true b1, log "[CookiePot] Script auto-blocker started" w1).

Definition executeBlockedScript (bs : BlockedScript) (w : Page.t) : Page.t :=
  let '(newScript, w1) := createElement_script w in
  let old_attributes :=
    match nodes w !! element bs with
    | Some old => attributes old
    | None => ∅
    end in
  let copied := delete "data-cookiepot-blocked" old_attributes in
  let restore_source :=
    match b_src bs, b_content bs with
    | Some s, _ => setAttribute "src" s
    | None, Some c => set_textContent c
    | None, None => fun n => n
    end in
  let w2 :=
    update_node newScript
      (fun n =>
         setAttribute "data-cookiepot-unblocked" "true"
           (setAttribute "data-cookiepot-processed" "true"
              (restore_source
                 (setAttribute "type" "text/javascript"
                    (with_attributes (copied ∪ attributes n) n))))) w1 in
  match nodes w !! element bs ≫= parentNode with
  | Some parent => replaceChild parent newScript (element bs) w2
  | None => w2
  end.

Definition category_in (cats : list ConsentCategory) (bs : BlockedScript)
    : bool :=
  bool_decide (b_category bs ∈ cats).

Definition join_names (cats : list ConsentCategory) : string :=
  fold_right (fun c acc => category_name c +:+ " " +:+ acc) EmptyString cats.

Definition unblockScripts (cats : list ConsentCategory) (b : t) (w : Page.t)
    : t * Page.t :=
  let scriptsToUnblock := List.filter (category_in cats) (blockedScripts b) in
  let w1 := fold_left (fun w bs => executeBlockedScript bs w)
              scriptsToUnblock w in
  (set_blockedScripts
     (List.filter (fun bs => negb (category_in cats bs)) (blockedScripts b)) b,
   log ("[CookiePot] Unblocked " +:+ pretty (length scriptsToUnblock)
          +:+ " scripts for: " +:+ join_names cats) w1).

Definition updateConsent (newConsent : ConsentCategories) (b : t)
    (w : Page.t) : t * Page.t :=
  let previousConsent := consent b in
  let b1 := set_consent newConsent b in
  let changedCategories :=
    List.filter
      (fun cat => negb (get previousConsent cat) && get newConsent cat)
      [Analytics; Marketing; Preferences] in
  match changedCategories with
  | [] => (b1, w)
  | _ :: _ => unblockScripts changedCategories b1 w
  end.

Definition getBlockedScripts (b : t)
    : list (option string * ConsentCategory) :=
  map (fun bs => (b_src bs, b_category bs)) (blockedScripts b).

Definition enable (b : t) (w : Page.t) : t * Page.t :=
  start (set_enabled true b) w.

Definition disable (b : t) (w : Page.t) : t * Page.t :=
  stop (set_enabled false b) w.

Definition isEnabled (b : t) : bool := enabled b.

(** *** Vocabulary of the properties *)

(** One call on the blocker, one batch of insertions that its observer
    reports while it observes, or whatever else happens to the page. *)
Inductive step : t * Page.t -> t * Page.t -> Prop :=
| step_start b w : step (b, w) (start b w)
| step_stop b w : step (b, w) (stop b w)
| step_enable b w : step (b, w) (enable b w)
| step_disable b w : step (b, w) (disable b w)
| step_updateConsent c b w : step (b, w) (updateConsent c b w)
| step_observed added b w :
    observer b = true -> step (b, w) (observed added b w)
| step_page b w w' : step (b, w) (b, w').

(** The blockers that a program can see. *)
Inductive reachable : t * Page.t -> Prop :=
| reachable_new pats c en w : reachable (constructor pats c en, w)
| reachable_step s s' : reachable s -> step s s' -> reachable s'.

(** The record that [blockScript] keeps of the element [id]. *)
Definition record_of (id : nat) (script : Node) (cat : ConsentCategory)
    : BlockedScript :=
  {| element := id; b_category := cat;
     b_src := or_undefined (src script);
     b_content := or_undefined (textContent script) |}.

End WithEngine.

Arguments Pattern {E}.
Arguments ScriptPattern {E}.
Arguments t {E}.

End ScriptAutoBlocker.

(** ** Statements that change a state and may throw *)

Module Eff.

Inductive result (A : Type) :=
| Return (a : A)
| Throw (error : string).
Arguments Return {A} a.
Arguments Throw {A} error.

(** A computation over a state [S]: what it returns or throws, and the
    state that it leaves.  What was done before a [throw] stays done. *)
Definition M (S A : Type) : Type := S -> result A * S.

Definition ret {S A} (a : A) : M S A := fun s => (Return a, s).

Definition throw {S A} (e : string) : M S A := fun s => (Throw e, s).

Definition bind {S A B} (c : M S A) (k : A -> M S B) : M S B :=
  fun s =>
    match c s with
    | (Return a, s1) => k a s1
    | (Throw e, s1) => (Throw e, s1)
    end.

(** [try { body } catch (error) { handler }]. *)
Definition try_catch {S A} (body : M S A) (handler : string -> M S A)
    : M S A :=
  fun s =>
    match body s with
    | (Return a, s1) => (Return a, s1)
    | (Throw e, s1) => handler e s1
    end.

Definition read {S} : M S S := fun s => (Return s, s).

Definition modify {S} (f : S -> S) : M S unit := fun s => (Return tt, f s).

(** A statement about the second component of the state. *)
Definition on_snd {S1 S2 A} (c : M S2 A) : M (S1 * S2) A :=
  fun s =>
    match c (snd s) with
    | (r, s2) => (r, (fst s, s2))
    end.

(** [if (cond) { body }]. *)
Definition when {S} (cond : bool) (body : M S unit) : M S unit :=
  if cond then body else ret tt.

Declare Scope eff_scope.
Delimit Scope eff_scope with eff.
Notation "x <- c ;; k" := (bind c (fun x => k))
  (at level 20, c at level 99, k at level 200, only parsing) : eff_scope.
Notation "c ;; k" := (bind c (fun _ => k))
  (at level 100, k at level 200, right associativity, only parsing)
  : eff_scope.

End Eff.

(** ** JSON and the encoding of URI components *)

Module Json.
Import Js.

#[warnings="-register-all"]
Inductive value :=
| JNull
| JBool (b : bool)
| JNumber (n : Z)
| JString (s : string)
| JArray (items : list value)
| JObject (members : list (string * value)).

(** [object[key]] for an object built by [JSON.parse]: of two members with
    the same name the later one stays. *)
Fixpoint member (members : list (string * value)) (k : string)
    : option value :=
  match members with
  | [] => None
  | (k', v) :: rest =>
      match member rest k with
      | Some later => Some later
      | None => if String.eqb k k' then Some v else None
      end
  end.

(** What the platform decodes.  [None] stands for the exception: a
    SyntaxError of [JSON.parse], a URIError of [decodeURIComponent]. *)
Class Codec := {
  JSON_parse : string -> option value;
  decodeURIComponent : string -> option string
}.

Definition hex_digit (upper : bool) (n : nat) : ascii :=
  if (n <? 10)%nat then ascii_of_nat (48 + n)
  else ascii_of_nat ((if upper then 55 else 87) + n).

Definition hex2 (upper : bool) (c : ascii) : string :=
  String (hex_digit upper (nat_of_ascii c / 16))
    (String (hex_digit upper (nat_of_ascii c mod 16)) EmptyString).

(** One character inside a string of [JSON.stringify]. *)
Definition quote_char (c : ascii) : string :=
  let n := nat_of_ascii c in
  if (n =? 34)%nat then "\" +:+ dquote
  else if (n =? 92)%nat then "\\"
  else if (n =? 8)%nat then "\b"
  else if (n =? 12)%nat then "\f"
  else if (n =? 10)%nat then "\n"
  else if (n =? 13)%nat then "\r"
  else if (n =? 9)%nat then "\t"
  else if (n <? 32)%nat then "\u00" +:+ hex2 false c
  else String c EmptyString.

Fixpoint quote_chars (s : string) : string :=
  match s with
  | EmptyString => EmptyString
  | String c s' => quote_char c +:+ quote_chars s'
  end.

Definition quote (s : string) : string := dquote +:+ quote_chars s +:+ dquote.

Definition join (sep : string) (l : list string) : string :=
  match l with
  | [] => EmptyString
  | x :: rest => fold_left (fun acc y => acc +:+ sep +:+ y) rest x
  end.

(** [JSON.stringify(v)] without indentation. *)
Fixpoint stringify (v : value) : string :=
  match v with
  | JNull => "null"
  | JBool true => "true"
  | JBool false => "false"
  | JNumber n => pretty n
  | JString s => quote s
  | JArray items => "[" +:+ join "," (map stringify items) +:+ "]"
  | JObject members =>
      "{" +:+ join ","
                (map (fun kv => quote (fst kv) +:+ ":" +:+ stringify (snd kv))
                   members)
          +:+ "}"
  end.

(** The characters that [encodeURIComponent] leaves as they are. *)
Definition unreserved (c : ascii) : bool :=
  let n := nat_of_ascii c in
  is_upper c || is_lower c || ((48 <=? n)%nat && (n <=? 57)%nat)
  || LiteralEngine.char_in c "-_.!~*'()".

Fixpoint encodeURIComponent (s : string) : string :=
  match s with
  | EmptyString => EmptyString
  | String c s' =>
      (if unreserved c then String c EmptyString
       else "%" +:+ hex2 true c) +:+ encodeURIComponent s'
  end.

End Json.

(** ** The schemas of src/types.ts *)

Module Schema.
Import Types Json.

(** [z.string().min(lo).max(hi)]. *)
Definition z_string (lo hi : nat) (v : value) : option string :=
  match v with
  | JString s =>
      if (lo <=? String.length s)%nat && (String.length s <=? hi)%nat
      then Some s else None
  | _ => None
  end.

(** [z.boolean()]. *)
Definition z_boolean (v : value) : option bool :=
  match v with JBool b => Some b | _ => None end.

(** [z.literal(true)]. *)
Definition z_literal_true (v : value) : option bool :=
  match v with JBool true => Some true | _ => None end.

(** [z.string().optional()] on a property: a missing property is valid. *)
Definition z_optional_string (v : option value) : option (option string) :=
  match v with
  | None => Some None
  | Some (JString s) => Some (Some s)
  | Some _ => None
  end.

(** A required property with the schema [f]. *)
Definition required {A} (f : value -> option A)
    (members : list (string * value)) (k : string) : option A :=
  member members k ≫= f.

(** [ConsentCategoriesSchema.safeParse(v)]: the data, or [None] on failure.
    The properties that the schema does not name are dropped. *)
Definition ConsentCategoriesSchema (v : value) : option ConsentCategories :=
  match v with
  | JObject m =>
      n ← required z_literal_true m "necessary";
      a ← required z_boolean m "analytics";
      k ← required z_boolean m "marketing";
      p ← required z_boolean m "preferences";
      Some {| necessary := n; analytics := a; marketing := k;
              preferences := p |}
  | _ => None
  end.

(** [ConsentStateSchema.safeParse(v)]. *)
Definition ConsentStateSchema (v : value) : option ConsentState :=
  match v with
  | JObject m =>
      vid ← required (z_string 1 128) m "visitorId";
      sid ← required (z_string 1 128) m "sessionId";
      cats ← required ConsentCategoriesSchema m "categories";
      ts ← z_optional_string (member m "timestamp");
      Some {| visitorId := vid; sessionId := sid; categories := cats;
              timestamp := ts |}
  | _ => None
  end.

(** The object that [JSON.stringify] sees for a [ConsentCategories]. *)
Definition categories_json (c : ConsentCategories) : value :=
  JObject [ ("necessary", JBool (necessary c));
            ("analytics", JBool (analytics c));
            ("marketing", JBool (marketing c));
            ("preferences", JBool (preferences c)) ].

(** The object that [JSON.stringify] sees for a [ConsentState]: a property
    that is undefined is left out. *)
Definition state_json (st : ConsentState) : value :=
  JObject ([ ("visitorId", JString (visitorId st));
             ("sessionId", JString (sessionId st));
             ("categories", categories_json (categories st)) ]
           ++ match timestamp st with
              | Some ts => [("timestamp", JString ts)]
              | None => []
              end).

End Schema.

(** ** src/lib/storage.ts *)

Module Persistence.
Import Js Types Page Eff Json Schema.
Local Open Scope eff_scope.

Section WithCodec.
Context `{C : Codec}.

Record CookieOptions := {
  domain : option string;
  maxAge : option Z;
  sameSite : option string;
  secure : option bool
}.

Definition no_options : CookieOptions :=
  {| domain := None; maxAge := None; sameSite := None; secure := None |}.

(** [s.split(sep)] for a separator of one character. *)
Fixpoint split (sep : ascii) (s : string) : list string :=
  match s with
  | EmptyString => [EmptyString]
  | String c s' =>
      if Ascii.eqb c sep then EmptyString :: split sep s'
      else match split sep s' with
           | x :: rest => String c x :: rest
           | [] => [String c EmptyString]
           end
  end.

(** [while (cookie.charAt(0) === ' ') cookie = cookie.substring(1)]. *)
Fixpoint strip_spaces (s : string) : string :=
  match s with
  | String c s' => if Ascii.eqb c " " then strip_spaces s' else s
  | EmptyString => EmptyString
  end.

(** [s.substring(n)]. *)
Fixpoint substring_from (n : nat) (s : string) : string :=
  match n, s with
  | O, _ => s
  | S n', String _ s' => substring_from n' s'
  | S _, EmptyString => EmptyString
  end.

(** The value of [document.cookie] when it is read. *)
Definition document_cookie (w : Page.t) : string :=
  join "; " (map (fun kv => fst kv +:+ "=" +:+ snd kv) (cookies w)).

Fixpoint getCookie_loop (nameEQ : string) (parts : list string)
    : M Page.t (option string) :=
  match parts with
  | [] => ret None
  | part :: rest =>
      if negb (truthy part) then getCookie_loop nameEQ rest else
      let cookie := strip_spaces part in
      if startsWith cookie nameEQ then
        match decodeURIComponent (substring_from (String.length nameEQ) cookie) with
        | Some v => ret (Some v)
        | None => throw "URIError"
        end
      else getCookie_loop nameEQ rest
  end.

Definition getCookie (name : string) : M Page.t (option string) :=
  w <- read ;;
  if negb (hasDocument w) then ret None
  else getCookie_loop (name +:+ "=") (split ";"%char (document_cookie w)).

(** What the browser does with a cookie that is assigned: it stores the
    cookie under its name, or drops the cookie of that name when the age
    is not positive. *)
Definition jar_assign (name encoded : string) (age : option Z)
    (jar : list (string * string)) : list (string * string) :=
  let others := List.filter (fun kv => negb (String.eqb (fst kv) name)) jar in
  let expired := match age with Some a => (a <=? 0)%Z | None => false end in
  if expired then others else others ++ [(name, encoded)].

(** The assignment to [document.cookie]. *)
Definition assign_cookie (assignment name encoded : string)
    (age : option Z) : M Page.t unit :=
  modify (fun w =>
    record (CookieAssigned assignment)
      (with_cookies (jar_assign name encoded age (cookies w)) w)).

Definition setCookie (name value : string) (options : CookieOptions)
    : M Page.t unit :=
  w <- read ;;
  if negb (hasDocument w) then ret tt else
  let cookie := name +:+ "=" +:+ encodeURIComponent value in
  let cookie := match maxAge options with
                | Some a => cookie +:+ "; Max-Age=" +:+ pretty a
                | None => cookie
                end in
  let cookie := match domain options with
                | Some d => if truthy d then cookie +:+ "; Domain=" +:+ d
                            else cookie
                | None => cookie
                end in
  let cookie := cookie +:+ "; Path=/" in
  let cookie := match sameSite options with
                | Some s => if truthy s then cookie +:+ "; SameSite=" +:+ s
                            else cookie
                | None => cookie
                end in
  let cookie := match secure options with
                | Some true => cookie +:+ "; Secure"
                | _ => cookie
                end in
  assign_cookie cookie name (encodeURIComponent value) (maxAge options).

(** [typeof localStorage !== 'undefined'], which throws when the access to
    the storage is denied. *)
Definition localStorage_defined : M Page.t bool :=
  w <- read ;;
  match localStorage w with
  | Undefined => ret false
  | Denied => throw "SecurityError"
  | Available _ => ret true
  end.

Definition localStorage_getItem (k : string) : M Page.t (option string) :=
  w <- read ;;
  match localStorage w with
  | Available m => ret (m !! k)
  | Denied => throw "SecurityError"
  | Undefined => throw "ReferenceError"
  end.

Definition localStorage_call (c : Browser.NativeCall) : M Page.t unit :=
  w <- read ;;
  match localStorage w with
  | Available m =>
      modify (fun w => record (LocalStorageCalled c)
                         (with_localStorage
                            (Available (Browser.apply_call c m)) w))
  | Denied => throw "SecurityError"
  | Undefined => throw "ReferenceError"
  end.

(** [JSON.parse(text)] followed by [ConsentStateSchema.safeParse]. *)
Definition parse_and_validate (text : string)
    : M Page.t (option ConsentState) :=
  match JSON_parse text with
  | Some parsed => ret (ConsentStateSchema parsed)
  | None => throw "SyntaxError"
  end.

(** The block of [getConsentFromStorage] under [try]; [None] when it falls
    through to the [return null] after the block. *)
Definition getConsentFromStorage_body : M Page.t (option ConsentState) :=
  cookieValue <- getCookie STORAGE_KEYS_CONSENT ;;
  fromCookie <-
    match cookieValue with
    | Some text => if truthy text then parse_and_validate text else ret None
    | None => ret None
    end ;;
  match fromCookie with
  | Some data => ret (Some data)
  | None =>
      defined <- localStorage_defined ;;
      if defined then
        localValue <- localStorage_getItem STORAGE_KEYS_CONSENT ;;
        match localValue with
        | Some text => if truthy text then parse_and_validate text else ret None
        | None => ret None
        end
      else ret None
  end.

Definition getConsentFromStorage : M Page.t (option ConsentState) :=
  try_catch getConsentFromStorage_body
    (fun error =>
       modify (log ("[CookiePot] Error reading consent from storage: "
                      +:+ error)) ;;
       ret None).

Definition saveConsentToStorage (consent : ConsentState)
    (options : CookieOptions) : M Page.t unit :=
  try_catch
    (let value := stringify (state_json consent) in
     setCookie STORAGE_KEYS_CONSENT value
       {| domain := domain options;
          maxAge := Some (nullish (maxAge options) (365 * 24 * 60 * 60)%Z);
          sameSite := Some (nullish (sameSite options) "Lax");
          secure := Some (nullish (secure options) true) |} ;;
     defined <- localStorage_defined ;;
     when defined
       (localStorage_call (Browser.NativeSetItem STORAGE_KEYS_CONSENT value)))
    (fun error =>
       modify (log ("[CookiePot] Error saving consent to storage: "
                      +:+ error))).

Definition clearConsentFromStorage (cookieDomain : option string)
    : M Page.t unit :=
  try_catch
    (setCookie STORAGE_KEYS_CONSENT EmptyString
       {| domain := cookieDomain; maxAge := Some (-1)%Z; sameSite := None;
          secure := None |} ;;
     defined <- localStorage_defined ;;
     when defined
       (localStorage_call (Browser.NativeRemoveItem STORAGE_KEYS_CONSENT)))
    (fun error =>
       modify (log ("[CookiePot] Error clearing consent from storage: "
                      +:+ error))).

(** *** Vocabulary of the properties *)

(** The text that the cookie store holds for the record; [Throw] when the
    value cannot be decoded. *)
Definition cookie_text (w : Page.t) : result (option string) :=
  fst (getCookie STORAGE_KEYS_CONSENT w).

(** The text that the local store holds for the record; [Throw] when the
    access to the store is denied. *)
Definition local_text (w : Page.t) : result (option string) :=
  match localStorage w with
  | Available m => Return (m !! STORAGE_KEYS_CONSENT)
  | Undefined => Return None
  | Denied => Throw "SecurityError"
  end.

(** What a stored text is worth. *)
Inductive reading :=
| Absent
| Unparseable
| Invalid
| Valid (record : ConsentState).

Definition read_record (text : option string) : reading :=
  match text with
  | None => Absent
  | Some t =>
      if truthy t then
        match JSON_parse t with
        | None => Unparseable
        | Some parsed =>
            match ConsentStateSchema parsed with
            | Some record => Valid record
            | None => Invalid
            end
        end
      else Absent
  end.

(** The store holds data that is absent, unreadable, unparseable or fails
    the validation. *)
Definition holds_no_valid_record (stored : result (option string)) : Prop :=
  match stored with
  | Return text => ∀ record, read_record text ≠ Valid record
  | Throw _ => True
  end.

(** What a store contributes to [load]: the record, nothing, or the
    exception that ends the search. *)
Definition consult (stored : result (option string))
    : result (option ConsentState) :=
  match stored with
  | Throw e => Throw e
  | Return text =>
      match read_record text with
      | Valid record => Return (Some record)
      | Unparseable => Throw "SyntaxError"
      | Absent | Invalid => Return None
      end
  end.

(** The cookie store first, the local store when the cookie store has
    contributed nothing. *)
Definition cookie_then_local (w : Page.t) : result (option ConsentState) :=
  match consult (cookie_text w) with
  | Return None => consult (local_text w)
  | found_or_thrown => found_or_thrown
  end.

(** What [save] and [clear] leave in the trace: the assignment of the
    cookie, then the call on the local store or the report of its
    failure. *)
Definition store_events (assignment : string) (call : Browser.NativeCall)
    (error : string) (w : Page.t) : list Event :=
  (if hasDocument w then [CookieAssigned assignment] else [])
  ++ match localStorage w with
     | Undefined => []
     | Denied => [Console (error +:+ "SecurityError")]
     | Available _ => [LocalStorageCalled call]
     end.

(** The page after the cookie [name] has been assigned and [call] has been
    made on the local store, each where the store exists. *)
Definition write_both (name encoded : string) (age : option Z)
    (assignment : string) (call : Browser.NativeCall) (error : string)
    (w : Page.t) : Page.t :=
  record_all (store_events assignment call error w)
    (with_localStorage
       match localStorage w with
       | Available m => Available (Browser.apply_call call m)
       | other => other
       end
       (with_cookies
          (if hasDocument w then jar_assign name encoded age (cookies w)
           else cookies w) w)).

(** The cookies that the document has, if there is a document. *)
Definition cookie_jar (w : Page.t) : list (string * string) :=
  if hasDocument w then cookies w else [].

(** The character [c] occurs in [s]. *)
Fixpoint occurs (c : ascii) (s : string) : bool :=
  match s with
  | EmptyString => false
  | String d s' => Ascii.eqb d c || occurs c s'
  end.

(** What a browser guarantees of the name of a cookie that it lists in
    [document.cookie]: no [;], no [=] and no space in front. *)
Definition cookie_name_ok (name : string) : Prop :=
  occurs ";" name = false ∧ occurs "=" name = false
  ∧ startsWith name " " = false.

(** And of what it lists for a cookie: the value has no [;]. *)
Definition cookie_ok (kv : string * string) : Prop :=
  cookie_name_ok (fst kv) ∧ occurs ";" (snd kv) = false.

Definition jar_ok (jar : list (string * string)) : Prop :=
  Forall cookie_ok jar.

(** The encoded value of the first cookie of the jar with the name. *)
Definition jar_lookup (name : string) (jar : list (string * string))
    : option string :=
  snd <$> List.find (fun kv => String.eqb (fst kv) name) jar.

(** What [getCookie] makes of the encoded value that the jar holds. *)
Definition decoded (encoded : option string) : result (option string) :=
  match encoded with
  | None => Return None
  | Some e =>
      match decodeURIComponent e with
      | Some v => Return (Some v)
      | None => Throw "URIError"
      end
  end.

(** The record passes [ConsentStateSchema]: each identifier has from 1 to
    128 characters and [necessary] is [true]. *)
Definition valid_record (st : ConsentState) : Prop :=
  (1 ≤ String.length (Types.visitorId st) ≤ 128)%nat
  ∧ (1 ≤ String.length (Types.sessionId st) ≤ 128)%nat
  ∧ necessary (categories st) = true.

End WithCodec.

End Persistence.

(** ** src/lib/google-consent-mode.ts *)

Module GoogleConsentModeManager.
Import Js Types Page Eff.
Local Open Scope eff_scope.

Record t := { enabled : bool }.

Definition constructor (en : bool) : t := {| enabled := en |}.

Definition isGtagAvailable (w : Page.t) : bool :=
  hasWindow w &&
  match gtag w with NoGtag => false | _ => true end.

(** [window.gtag(...)]. *)
Definition call_gtag (call : GtagCall) : M Page.t unit :=
  w <- read ;;
  match gtag w with
  | GtagRecords => modify (record (GtagCalled call))
  | GtagThrows => throw "Error"
  | NoGtag => throw "TypeError"
  end.

Definition consent_value (b : bool) : GtagValue :=
  GStr (if b then "granted" else "denied").

Definition mapConsentToGoogle (c : ConsentCategories)
    : list (string * GtagValue) :=
  [ ("ad_storage", consent_value (marketing c));
    ("ad_user_data", consent_value (marketing c));
    ("ad_personalization", consent_value (marketing c));
    ("analytics_storage", consent_value (analytics c));
    ("functionality_storage", consent_value (preferences c));
    ("personalization_storage", consent_value (preferences c));
    ("security_storage", GStr "granted") ].

Definition initializeDefaults (g : t) : M Page.t unit :=
  w <- read ;;
  if negb (enabled g) || negb (isGtagAvailable w) then ret tt else
  try_catch
    (call_gtag ("consent", "default",
                [ ("ad_storage", GStr "denied");
                  ("ad_user_data", GStr "denied");
                  ("ad_personalization", GStr "denied");
                  ("analytics_storage", GStr "denied");
                  ("functionality_storage", GStr "denied");
                  ("personalization_storage", GStr "denied");
                  ("security_storage", GStr "granted");
                  ("wait_for_update", GNum 500) ]) ;;
     modify (log "[CookiePot] Google Consent Mode v2 defaults set"))
    (fun error =>
       modify (log ("[CookiePot] Error initializing Google Consent Mode: "
                      +:+ error))).

Definition updateConsent (g : t) (c : ConsentCategories) : M Page.t unit :=
  w <- read ;;
  if negb (enabled g) || negb (isGtagAvailable w) then ret tt else
  try_catch
    (let googleConsent := mapConsentToGoogle c in
     call_gtag ("consent", "update", googleConsent) ;;
     modify (log "[CookiePot] Google Consent Mode v2 updated:"))
    (fun error =>
       modify (log ("[CookiePot] Error updating Google Consent Mode: "
                      +:+ error))).

Definition enable (g : t) : t * (M Page.t unit) :=
  ({| enabled := true |},
   modify (log "[CookiePot] Google Consent Mode v2 enabled")).

Definition disable (g : t) : t * (M Page.t unit) :=
  ({| enabled := false |},
   modify (log "[CookiePot] Google Consent Mode v2 disabled")).

Definition isActive (g : t) (w : Page.t) : bool :=
  enabled g && isGtagAvailable w.

(** *** Vocabulary of the properties *)

(** What [updateConsent] leaves in the trace. *)
Definition update_events (g : t) (c : ConsentCategories) (w : Page.t)
    : list Event :=
  if negb (enabled g) || negb (isGtagAvailable w) then []
  else match gtag w with
       | GtagRecords =>
           [ GtagCalled ("consent", "update", mapConsentToGoogle c);
             Console "[CookiePot] Google Consent Mode v2 updated:" ]
       | GtagThrows =>
           [ Console "[CookiePot] Error updating Google Consent Mode: Error" ]
       | NoGtag =>
           [ Console
               "[CookiePot] Error updating Google Consent Mode: TypeError" ]
       end.

End GoogleConsentModeManager.

(** ** src/lib/event-emitter.ts *)

Module EventEmitter.
Import Js Types Page Eff.
Local Open Scope eff_scope.

(** A handler is a function of the caller.  The model keeps its identity
    and whether it throws; what else it does is outside the SDK. *)
Record Handler := { h_id : nat; h_throws : bool }.

#[export] Instance Handler_eq_dec : EqDecision Handler.
Proof. solve_decision. Defined.

(** [Map<string, Set<EventHandler>>], each set in the order of insertion. *)
Definition t : Type := gmap string (list Handler).

Definition constructor : t := ∅.

Definition on (event : string) (h : Handler) (e : t) : t :=
  let handlers := default [] (e !! event) in
  <[event := if decide (h ∈ handlers) then handlers else handlers ++ [h]]> e.

Definition off (event : string) (h : Handler) (e : t) : t :=
  match e !! event with
  | Some handlers =>
      let handlers' := List.filter (fun h' => negb (bool_decide (h' = h)))
                         handlers in
      match handlers' with
      | [] => delete event e
      | _ :: _ => <[event := handlers']> e
      end
  | None => e
  end.

(** One handler is called; what it throws is caught and reported. *)
Definition call_handler (event : string) (data : option ConsentCategories)
    (h : Handler) : M Page.t unit :=
  try_catch
    (modify (record (HandlerCalled event (h_id h) data)) ;;
     if h_throws h then throw "Error" else ret tt)
    (fun error =>
       modify (log ("[CookiePot] Error in event handler for " +:+ dquote
                      +:+ event +:+ dquote +:+ ": " +:+ error))).

Fixpoint call_handlers (event : string) (data : option ConsentCategories)
    (handlers : list Handler) : M Page.t unit :=
  match handlers with
  | [] => ret tt
  | h :: rest =>
      call_handler event data h ;; call_handlers event data rest
  end.

Definition emit (e : t) (event : string) (data : option ConsentCategories)
    : M Page.t unit :=
  match e !! event with
  | Some handlers => call_handlers event data handlers
  | None => ret tt
  end.

(** *** Vocabulary of the properties *)

(** What the call of one handler leaves in the trace. *)
Definition handler_events (event : string)
    (data : option ConsentCategories) (h : Handler) : list Event :=
  HandlerCalled event (h_id h) data
  :: if h_throws h
     then [Console ("[CookiePot] Error in event handler for " +:+ dquote
                      +:+ event +:+ dquote +:+ ": Error")]
     else [].

Definition emitted (e : t) (event : string)
    (data : option ConsentCategories) : list Event :=
  flat_map (handler_events event data) (default [] (e !! event)).

(** [clear(event?)]: without an event, and also with the empty string,
    which is falsy, every event is cleared. *)
Definition clear (event : option string) (e : t) : t :=
  match event with
  | Some ev => if truthy ev then delete ev e else ∅
  | None => ∅
  end.

Definition hasHandlers (event : string) (e : t) : bool :=
  match e !! event with
  | Some handlers => (0 <? length handlers)%nat
  | None => false
  end.

(** The handlers that have been called on the page, in the order of the
    calls, each with the event and the data. *)
Definition handler_calls (w : Page.t)
    : list (string * nat * option ConsentCategories) :=
  omap (fun ev => match ev with
                  | HandlerCalled event h data => Some (event, h, data)
                  | _ => None
                  end) (trace w).

(** The handlers of an event, in the order of their registration. *)
Definition handlers_of (event : string) (e : t) : list Handler :=
  default [] (e !! event).

(** One call of [on], [off] or [clear]. *)
Inductive step : t -> t -> Prop :=
| step_on event h e : step e (on event h e)
| step_off event h e : step e (off event h e)
| step_clear event e : step e (clear event e).

(** The registries that a program can see. *)
Inductive reachable : t -> Prop :=
| reachable_new : reachable constructor
| reachable_step e e' : reachable e -> step e e' -> reachable e'.

End EventEmitter.

(** ** src/client.ts *)

Module CookiePot.
Import Js Types Page Eff Json.
Local Open Scope eff_scope.

Section WithPlatform.
Context `{E : RegExpEngine} `{C : Codec}.

(** The part of the validated configuration that the methods below read. *)
Record Config := {
  cookieDomain : option string;
  cookieMaxAge : Z;
  language : string
}.

(** The fields of the class; the banner and the preferences modal are not
    touched by the methods below. *)
Record t := {
  config : Config;
  eventEmitter : EventEmitter.t;
  visitorId : string;
  sessionId : string;
  consentState : ConsentCategories;
  initialized : bool;
  googleConsentMode : option GoogleConsentModeManager.t;
  scriptAutoBlocker : option (ScriptAutoBlocker.t (E := E))
}.

Definition set_consentState (c : ConsentCategories) (k : t) : t :=
  {| config := config k; eventEmitter := eventEmitter k;
     visitorId := visitorId k; sessionId := sessionId k;
     consentState := c; initialized := initialized k;
     googleConsentMode := googleConsentMode k;
     scriptAutoBlocker := scriptAutoBlocker k |}.

Definition set_scriptAutoBlocker (b : option (ScriptAutoBlocker.t (E := E)))
    (k : t) : t :=
  {| config := config k; eventEmitter := eventEmitter k;
     visitorId := visitorId k; sessionId := sessionId k;
     consentState := consentState k; initialized := initialized k;
     googleConsentMode := googleConsentMode k;
     scriptAutoBlocker := b |}.

Definition set_eventEmitter (e : EventEmitter.t) (k : t) : t :=
  {| config := config k; eventEmitter := e;
     visitorId := visitorId k; sessionId := sessionId k;
     consentState := consentState k; initialized := initialized k;
     googleConsentMode := googleConsentMode k;
     scriptAutoBlocker := scriptAutoBlocker k |}.

(** The state of a method: the object and the page. *)
Definition Method (A : Type) : Type := M (t * Page.t) A.

Definition this : Method t := s <- read ;; ret (fst s).

Definition assign (f : t -> t) : Method unit :=
  modify (fun s => (f (fst s), snd s)).

Inductive InteractionType :=
| accept_all | reject_all | accept_selected | save_preferences.

Definition interaction_name (i : InteractionType) : string :=
  match i with
  | accept_all => "accept_all"
  | reject_all => "reject_all"
  | accept_selected => "accept_selected"
  | save_preferences => "save_preferences"
  end.

(** How the promise of [apiClient.submitConsent] settles. *)
Inductive ApiOutcome :=
| Resolved
| Rejected (message : string).

(** [await this.apiClient.submitConsent(request)]. *)
Definition submitConsent (request : SubmitConsentRequest)
    (outcome : ApiOutcome) : Method unit :=
  on_snd (modify (record (ConsentSubmitted request))) ;;
  match outcome with
  | Resolved => ret tt
  | Rejected message => throw message
  end.

Definition getConsent (k : t) : ConsentCategories := consentState k.

Definition hasConsent (k : t) (cat : ConsentCategory) : bool :=
  get (consentState k) cat.

Definition emit (event : string) (data : option ConsentCategories)
    : Method unit :=
  k <- this ;;
  on_snd (EventEmitter.emit (eventEmitter k) event data).

Definition on (event : string) (h : EventEmitter.Handler) (k : t) : t :=
  set_eventEmitter (EventEmitter.on event h (eventEmitter k)) k.

Definition off (event : string) (h : EventEmitter.Handler) (k : t) : t :=
  set_eventEmitter (EventEmitter.off event h (eventEmitter k)) k.

(** The object that [setConsent] assigns to [this.consentState]. *)
Definition merged (categories : PartialConsentCategories)
    (current : ConsentCategories) : ConsentCategories :=
  {| necessary := true;
     analytics := nullish (p_analytics categories) (analytics current);
     marketing := nullish (p_marketing categories) (marketing current);
     preferences := nullish (p_preferences categories) (preferences current) |}.

(** [setConsent(categories, interactionType)].  [now] is what
    [new Date().toISOString()] returns and [outcome] is how the request
    settles. *)
Definition setConsent (categories : PartialConsentCategories)
    (interactionType : InteractionType) (now : string)
    (outcome : ApiOutcome) : Method unit :=
  assign (fun k => set_consentState (merged categories (consentState k)) k) ;;
  k <- this ;;
  let state :=
    {| Types.visitorId := visitorId k; Types.sessionId := sessionId k;
       categories := consentState k; timestamp := Some now |} in
  on_snd (Persistence.saveConsentToStorage state
            {| Persistence.domain := cookieDomain (config k);
               Persistence.maxAge := Some (cookieMaxAge (config k));
               Persistence.sameSite := None;
               Persistence.secure := None |}) ;;
  match googleConsentMode k with
  | Some g => on_snd (GoogleConsentModeManager.updateConsent g (consentState k))
  | None => ret tt
  end ;;
  match scriptAutoBlocker k with
  | Some b =>
      modify (fun s =>
        let '(b1, w1) := ScriptAutoBlocker.updateConsent (consentState k) b
                           (snd s) in
        (set_scriptAutoBlocker (Some b1) (fst s), w1))
  | None => ret tt
  end ;;
  emit "consent:change" (Some (consentState k)) ;;
  try_catch
    (submitConsent
       {| r_visitorId := visitorId k; r_sessionId := sessionId k;
          r_categories := consentState k; r_bannerVersion := "1.0.0";
          r_interactionType := interaction_name interactionType;
          r_language := language (config k) |} outcome)
    (fun error =>
       on_snd (modify (log ("[CookiePot] Failed to sync consent to backend: "
                              +:+ error)))).

Definition all (b : bool) : PartialConsentCategories :=
  {| p_necessary := None; p_analytics := Some b; p_marketing := Some b;
     p_preferences := Some b |}.

Definition acceptAll (now : string) (outcome : ApiOutcome) : Method unit :=
  setConsent (all true) accept_all now outcome ;;
  k <- this ;;
  emit "banner:accept_all" (Some (consentState k)).

Definition rejectAll (now : string) (outcome : ApiOutcome) : Method unit :=
  setConsent (all false) reject_all now outcome ;;
  k <- this ;;
  emit "banner:reject_all" (Some (consentState k)).

Definition resetConsent : Method unit :=
  k <- this ;;
  on_snd (Persistence.clearConsentFromStorage (cookieDomain (config k))) ;;
  assign (set_consentState defaultConsent) ;;
  k <- this ;;
  emit "consent:change" (Some (consentState k)).

Definition getVisitorId (k : t) : string := visitorId k.

Definition getSessionId (k : t) : string := sessionId k.

Definition isInitialized (k : t) : bool := initialized k.

(** *** Vocabulary of the properties *)

(** The record that [setConsent] persists. *)
Definition record_for (k : t) (c : ConsentCategories) (now : string)
    : ConsentState :=
  {| Types.visitorId := visitorId k; Types.sessionId := sessionId k;
     categories := c; timestamp := Some now |}.

(** The request that [setConsent] submits. *)
Definition request_for (k : t) (c : ConsentCategories)
    (i : InteractionType) : SubmitConsentRequest :=
  {| r_visitorId := visitorId k; r_sessionId := sessionId k;
     r_categories := c; r_bannerVersion := "1.0.0";
     r_interactionType := interaction_name i;
     r_language := language (config k) |}.

(** What the [catch] of [setConsent] does when the request has failed. *)
Definition report_settled (outcome : ApiOutcome) (w : Page.t) : Page.t :=
  match outcome with
  | Resolved => w
  | Rejected message =>
      log ("[CookiePot] Failed to sync consent to backend: " +:+ message) w
  end.

(** What the Google adapter of the client, if there is one, leaves in the
    trace when it is given the consent [c]. *)
Definition google_events (k : t) (c : ConsentCategories) (w : Page.t)
    : list Event :=
  match googleConsentMode k with
  | Some g => GoogleConsentModeManager.update_events g c w
  | None => []
  end.

(** The consent that the script auto-blocker holds, if there is one. *)
Definition blocker_consent (k : t) : option ConsentCategories :=
  ScriptAutoBlocker.consent <$> scriptAutoBlocker k.

(** The statement leaves the document, if there is one, in its place. *)
Definition keeps_document {A} (c : Method A) : Prop :=
  forall s, hasDocument (snd (snd (c s))) = hasDocument (snd s).

(** What [acceptAll] grants. *)
Definition allGranted : ConsentCategories :=
  {| necessary := true; analytics := true; marketing := true;
     preferences := true |}.

End WithPlatform.

Arguments t {E}.

End CookiePot.

(** ** src/lib/visitor-id.ts

    [getOrCreateSessionId] works on the session storage, which the page
    above does not have, and is not modelled. *)

Module VisitorId.
Import Js Types Page Eff Json Persistence.
Local Open Scope eff_scope.

(** Where the identifiers come from, for one call of [generateVisitorId]. *)
Record Random := {
  (** what [crypto.randomUUID()] returns; [None] without [crypto] or
      without the method *)
  randomUUID : option string;
  (** what [(Math.random() * 16) | 0] gives at the first call, at the
      second call and so on: numbers from 0 to 15 *)
  draws : nat -> nat
}.

(** [template.replace(/[xy]/g, c => ...)]: the characters [x] and [y] are
    replaced from left to right, each with its own draw. *)
Fixpoint replace_xy (template : string) (r : nat -> nat) (i : nat) : string :=
  match template with
  | EmptyString => EmptyString
  | String c rest =>
      if Ascii.eqb c "x"
      then String (hex_digit false (r i)) (replace_xy rest r (S i))
      else if Ascii.eqb c "y"
      then String (hex_digit false (Nat.lor (Nat.land (r i) 3) 8))
             (replace_xy rest r (S i))
      else String c (replace_xy rest r i)
  end.

Definition generateVisitorId (r : Random) : string :=
  match randomUUID r with
  | Some id => id
  | None => replace_xy "xxxxxxxx-xxxx-4xxx-yxxx-xxxxxxxxxxxx" (draws r) 0
  end.

(** The classes of the regular expression of [isValidUUID]. *)
Inductive uuid_atom := Hex | Dash | Four | Variant.

(** One character against one class, without regard to case. *)
Definition atom_matches (a : uuid_atom) (c : ascii) : bool :=
  let n := nat_of_ascii (lower_char c) in
  match a with
  | Hex => ((48 <=? n)%nat && (n <=? 57)%nat)
           || ((97 <=? n)%nat && (n <=? 102)%nat)
  | Dash => Ascii.eqb c "-"
  | Four => Ascii.eqb c "4"
  | Variant => LiteralEngine.char_in (lower_char c) "89ab"
  end.

(** [/^[0-9a-f]{8}-[0-9a-f]{4}-4[0-9a-f]{3}-[89ab][0-9a-f]{3}-[0-9a-f]{12}$/i] *)
Definition uuid_pattern : list uuid_atom :=
  repeat Hex 8 ++ [Dash] ++ repeat Hex 4 ++ [Dash; Four] ++ repeat Hex 3
  ++ [Dash; Variant] ++ repeat Hex 3 ++ [Dash] ++ repeat Hex 12.

(** The whole text against the classes, one character for each. *)
Fixpoint matches (p : list uuid_atom) (s : string) : bool :=
  match p, s with
  | [], EmptyString => true
  | a :: p', String c s' => atom_matches a c && matches p' s'
  | _, _ => false
  end.

Definition isValidUUID (uuid : string) : bool := matches uuid_pattern uuid.

Section WithCodec.
Context `{C : Codec}.

(** [saveToCookie]. *)
Definition saveToCookie (visitorId : string) : M Page.t unit :=
  w <- read ;;
  if negb (hasDocument w) then ret tt else
  let maxAge := (365 * 24 * 60 * 60)%Z in
  let cookie := STORAGE_KEYS_VISITOR_ID +:+ "="
                +:+ encodeURIComponent visitorId +:+ "; Max-Age="
                +:+ pretty maxAge +:+ "; Path=/; SameSite=Lax; Secure" in
  assign_cookie cookie STORAGE_KEYS_VISITOR_ID
    (encodeURIComponent visitorId) (Some maxAge).

(** [if (typeof localStorage !== 'undefined')
       localStorage.setItem(STORAGE_KEYS.VISITOR_ID, id)]. *)
Definition saveToLocalStorage (id : string) : M Page.t unit :=
  defined <- localStorage_defined ;;
  when defined
    (localStorage_call (Browser.NativeSetItem STORAGE_KEYS_VISITOR_ID id)).

(** The end of the block under [try]: a new identifier. *)
Definition create (r : Random) : M Page.t string :=
  let newId := generateVisitorId r in
  saveToLocalStorage newId ;;
  saveToCookie newId ;;
  ret newId.

(** The middle of the block: the cookie.  The file has its own copy of
    [getCookie], which is the one of the storage. *)
Definition from_cookie (r : Random) : M Page.t string :=
  cookieValue <- getCookie STORAGE_KEYS_VISITOR_ID ;;
  match cookieValue with
  | Some v =>
      if truthy v && isValidUUID v
      then saveToLocalStorage v ;; ret v
      else create r
  | None => create r
  end.

(** [getOrCreateVisitorId]; [r] serves the call of [generateVisitorId]
    under [try] and [r'] the one under [catch]. *)
Definition getOrCreateVisitorId (r r' : Random) : M Page.t string :=
  try_catch
    (defined <- localStorage_defined ;;
     stored <- (if defined
                then localStorage_getItem STORAGE_KEYS_VISITOR_ID
                else ret None) ;;
     match stored with
     | Some s =>
         if truthy s && isValidUUID s
         then saveToCookie s ;; ret s
         else from_cookie r
     | None => from_cookie r
     end)
    (fun error =>
       modify (log ("[CookiePot] Error getting/creating visitor ID: "
                      +:+ error)) ;;
       ret (generateVisitorId r')).

End WithCodec.

End VisitorId.

(** ** A codec for ASCII texts

    A parser of JSON texts and a decoder of URI components for the examples.
    The parser reads objects, arrays, strings with the short escapes, whole
    numbers and the three literals; the decoder reads escapes below [%80].
    On such texts they compute what the platform does; a text with a
    [\u] escape, a fraction, an exponent or an escape from [%80] on is
    outside of what they model and is reported as an error.  The theorems
    hold for every codec. *)

Module AsciiCodec.
Import Js Json.

Inductive token :=
| TLBrace | TRBrace | TLBracket | TRBracket | TColon | TComma
| TStr (s : string)
| TNum (n : Z)
| TTrue | TFalse | TNull.

(** What the lexer is reading. *)
Inductive mode :=
| Top
| InString (acc : string) (escaped : bool)
| InNumber (negative : bool) (digits : string)
| InWord (acc : string).

Definition is_digit (c : ascii) : bool :=
  (48 <=? nat_of_ascii c)%nat && (nat_of_ascii c <=? 57)%nat.

Definition is_space (c : ascii) : bool :=
  LiteralEngine.char_in c (String " " (String (ascii_of_nat 9)
    (String (ascii_of_nat 10) (String (ascii_of_nat 13) EmptyString)))).

Definition snoc (s : string) (c : ascii) : string :=
  s +:+ String c EmptyString.

Fixpoint digits_value (acc : Z) (s : string) : Z :=
  match s with
  | EmptyString => acc
  | String c s' => digits_value (10 * acc + Z.of_nat (nat_of_ascii c - 48)) s'
  end.

(** A whole number of JSON: no sign but [-], no leading zero. *)
Definition number_token (negative : bool) (digits : string) : option token :=
  match digits with
  | EmptyString => None
  | String c rest =>
      if Ascii.eqb c "0" && truthy rest then None
      else Some (TNum (if negative then - digits_value 0 digits
                       else digits_value 0 digits))
  end.

Definition word_token (w : string) : option token :=
  if String.eqb w "true" then Some TTrue
  else if String.eqb w "false" then Some TFalse
  else if String.eqb w "null" then Some TNull
  else None.

Definition punctuation (c : ascii) : option token :=
  if Ascii.eqb c "{" then Some TLBrace
  else if Ascii.eqb c "}" then Some TRBrace
  else if Ascii.eqb c "[" then Some TLBracket
  else if Ascii.eqb c "]" then Some TRBracket
  else if Ascii.eqb c ":" then Some TColon
  else if Ascii.eqb c "," then Some TComma
  else None.

Definition unescape (c : ascii) : option ascii :=
  if Ascii.eqb c (ascii_of_nat 34) then Some c
  else if Ascii.eqb c "\" then Some c
  else if Ascii.eqb c "/" then Some c
  else if Ascii.eqb c "b" then Some (ascii_of_nat 8)
  else if Ascii.eqb c "f" then Some (ascii_of_nat 12)
  else if Ascii.eqb c "n" then Some (ascii_of_nat 10)
  else if Ascii.eqb c "r" then Some (ascii_of_nat 13)
  else if Ascii.eqb c "t" then Some (ascii_of_nat 9)
  else None.

(** The token that ends when the text ends or a delimiter comes. *)
Definition close (m : mode) : option (list token) :=
  match m with
  | Top => Some []
  | InString _ _ => None
  | InNumber neg ds => t ← number_token neg ds; Some [t]
  | InWord w => t ← word_token w; Some [t]
  end.

Fixpoint lex (m : mode) (s : string) : option (list token) :=
  match s with
  | EmptyString => close m
  | String c s' =>
      match m with
      | InString acc true =>
          d ← unescape c; lex (InString (snoc acc d) false) s'
      | InString acc false =>
          if Ascii.eqb c (ascii_of_nat 34)
          then ts ← lex Top s'; Some (TStr acc :: ts)
          else if Ascii.eqb c "\" then lex (InString acc true) s'
          else if (nat_of_ascii c <? 32)%nat then None
          else lex (InString (snoc acc c) false) s'
      | InNumber neg ds =>
          if is_digit c then lex (InNumber neg (snoc ds c)) s'
          else if is_space c
          then done ← close m; ts ← lex Top s'; Some (done ++ ts)
          else p ← punctuation c; done ← close m; ts ← lex Top s';
               Some (done ++ p :: ts)
      | InWord w =>
          if is_lower c then lex (InWord (snoc w c)) s'
          else if is_space c
          then done ← close m; ts ← lex Top s'; Some (done ++ ts)
          else p ← punctuation c; done ← close m; ts ← lex Top s';
               Some (done ++ p :: ts)
      | Top =>
          if is_space c then lex Top s'
          else if Ascii.eqb c (ascii_of_nat 34)
          then lex (InString EmptyString false) s'
          else if Ascii.eqb c "-" then lex (InNumber true EmptyString) s'
          else if is_digit c
          then lex (InNumber false (String c EmptyString)) s'
          else if is_lower c then lex (InWord (String c EmptyString)) s'
          else p ← punctuation c; ts ← lex Top s'; Some (p :: ts)
      end
  end.

Fixpoint parse_value (fuel : nat) (ts : list token)
    : option (value * list token) :=
  match fuel with
  | O => None
  | S f =>
      match ts with
      | TStr s :: r => Some (JString s, r)
      | TNum n :: r => Some (JNumber n, r)
      | TTrue :: r => Some (JBool true, r)
      | TFalse :: r => Some (JBool false, r)
      | TNull :: r => Some (JNull, r)
      | TLBracket :: TRBracket :: r => Some (JArray [], r)
      | TLBracket :: r => parse_items f r []
      | TLBrace :: TRBrace :: r => Some (JObject [], r)
      | TLBrace :: r => parse_members f r []
      | _ => None
      end
  end
with parse_items (fuel : nat) (ts : list token) (acc : list value)
    : option (value * list token) :=
  match fuel with
  | O => None
  | S f =>
      match parse_value f ts with
      | Some (v, TComma :: r) => parse_items f r (acc ++ [v])
      | Some (v, TRBracket :: r) => Some (JArray (acc ++ [v]), r)
      | _ => None
      end
  end
with parse_members (fuel : nat) (ts : list token)
    (acc : list (string * value)) : option (value * list token) :=
  match fuel with
  | O => None
  | S f =>
      match ts with
      | TStr k :: TColon :: r =>
          match parse_value f r with
          | Some (v, TComma :: r') => parse_members f r' (acc ++ [(k, v)])
          | Some (v, TRBrace :: r') => Some (JObject (acc ++ [(k, v)]), r')
          | _ => None
          end
      | _ => None
      end
  end.

Definition parse (text : string) : option value :=
  ts ← lex Top text;
  match parse_value (2 * length ts + 2) ts with
  | Some (v, []) => Some v
  | _ => None
  end.

Definition hex_value (c : ascii) : option nat :=
  let n := nat_of_ascii c in
  if is_digit c then Some (n - 48)
  else if (65 <=? n)%nat && (n <=? 70)%nat then Some (n - 55)
  else if (97 <=? n)%nat && (n <=? 102)%nat then Some (n - 87)
  else None.

Fixpoint decode (s : string) : option string :=
  match s with
  | EmptyString => Some EmptyString
  | String c rest =>
      if Ascii.eqb c "%" then
        match rest with
        | String h (String l rest') =>
            a ← hex_value h; b ← hex_value l;
            if (16 * a + b <? 128)%nat
            then r ← decode rest'; Some (String (ascii_of_nat (16 * a + b)) r)
            else None
        | _ => None
        end
      else r ← decode rest; Some (String c r)
  end.

#[export] Instance codec : Codec := {
  JSON_parse := parse;
  decodeURIComponent := decode
}.

End AsciiCodec.

(** ** Scenarios

    The values on which the properties are tried; they follow the tests
    of the repository. *)

Module Scenario.
Import Js Types Browser StorageBlocker LiteralEngine.

Definition defaultConfig : StorageBlockingConfig :=
  {| enabled := true; patterns := None; allowedKeys := None;
     queueOperations := None; maxQueueSize := None; debug := None |}.

Definition config_with_maxQueueSize (n : Z) : StorageBlockingConfig :=
  {| enabled := true; patterns := None; allowedKeys := None;
     queueOperations := None; maxQueueSize := Some n; debug := None |}.

Definition analyticsGranted : ConsentCategories :=
  {| necessary := true; analytics := true; marketing := false;
     preferences := false |}.

Definition empty_browser : Browser.t :=
  {| Browser.hasWindow := true; Browser.localStorage := ∅;
     Browser.sessionStorage := ∅; native_calls := []; Browser.console := [] |}.

(** [new StorageBlocker(defaultConfig, defaultConsent)], then [start()]. *)
Definition started_blocker : StorageBlocker.t * Browser.t :=
  start (constructor defaultConfig defaultConsent) empty_browser.

(** Then [localStorage.setItem('_ga_deferred', 'deferred_value')] and
    [localStorage.setItem('_fbp_test', 'value')], both blocked. *)
Definition blocker_with_queue : StorageBlocker.t * Browser.t :=
  let '(b0, w0) := started_blocker in
  let '(b1, w1) :=
    Storage_setItem LocalStorage "_ga_deferred" "deferred_value" 1 b0 w0 in
  Storage_setItem LocalStorage "_fbp_test" "value" 2 b1 w1.

(** Then [stop()]. *)
Definition stopped_with_queue : StorageBlocker.t * Browser.t :=
  let '(b, w) := blocker_with_queue in stop b w.

Definition ga_operation (n : Z) : QueuedStorageOperation :=
  {| type := SetItem; storageType := LocalStorage;
     key := Some ("_ga_" +:+ pretty n); value := Some ("v" +:+ pretty n);
     op_category := Analytics; timestamp := n |}.

(** A document whose only element is the script [n], under a parent that
    is not modelled further. *)
Definition page_with_script (n : Page.Node) : Page.t :=
  {| Page.hasWindow := true; Page.hasDocument := true;
     Page.hasMutationObserver := true; Page.cookies := [];
     Page.localStorage := Page.Available ∅;
     Page.nodes := {[ 0%nat := n ]};
     Page.gtag := Page.GtagRecords; Page.trace := [] |}.

(** [script.src = url] on a new script. *)
Definition script_with_src (url : string) : Page.Node :=
  Page.setAttribute "src" url Page.new_script.

Definition analytics_patterns : list ScriptAutoBlocker.ScriptPattern :=
  [ {| ScriptAutoBlocker.pattern :=
         ScriptAutoBlocker.PString "google-analytics.com";
       ScriptAutoBlocker.category := Analytics |} ].

(** A page whose two stores hold the given texts for the record. *)
Definition page_with_stores (cookie local : option string) : Page.t :=
  {| Page.hasWindow := true; Page.hasDocument := true;
     Page.hasMutationObserver := true;
     Page.cookies :=
       [("theme", "dark")]
       ++ match cookie with
          | Some text =>
              [(STORAGE_KEYS_CONSENT, Json.encodeURIComponent text)]
          | None => []
          end;
     Page.localStorage :=
       Page.Available
         match local with
         | Some text => {[ STORAGE_KEYS_CONSENT := text ]}
         | None => ∅
         end;
     Page.nodes := ∅;
     Page.gtag := Page.GtagRecords; Page.trace := [] |}.

(** The record of the tests of the storage. *)
Definition mockConsent : ConsentState :=
  {| visitorId := "test-visitor-id"; sessionId := "test-session-id";
     categories := {| necessary := true; analytics := true;
                      marketing := false; preferences := true |};
     Types.timestamp := Some "2026-01-27T12:00:00Z" |}.

(** [JSON.stringify({ visitorId: 'test' })]: required properties miss. *)
Definition invalidConsent : string :=
  Json.stringify (Json.JObject [("visitorId", Json.JString "test")]).

(** [new ScriptAutoBlocker(patterns, defaultConsent, true)]. *)
Definition script_blocker : ScriptAutoBlocker.t :=
  ScriptAutoBlocker.constructor analytics_patterns defaultConsent true.

(** The head of a document with the script of Google Analytics in it,
    and what the observer makes of the insertion. *)
Definition page_with_analytics_script : Page.t :=
  let script :=
    Page.set_parentNode (Some 1%nat)
      (script_with_src "https://www.google-analytics.com/analytics.js") in
  let head :=
    {| Page.nodeName := "HEAD"; Page.attributes := ∅;
       Page.textContent := EmptyString; Page.innerHTML := EmptyString;
       Page.parentNode := None; Page.childNodes := [0%nat] |} in
  Page.with_nodes (<[1%nat := head]> {[ 0%nat := script ]})
    (page_with_script script).

Definition after_insertion : ScriptAutoBlocker.t * Page.t :=
  ScriptAutoBlocker.observed [0%nat] script_blocker
    page_with_analytics_script.

(** A client with one listener, the Google adapter and the script
    auto-blocker, after analytics has been granted. *)
Definition client : CookiePot.t :=
  {| CookiePot.config :=
       {| CookiePot.cookieDomain := None;
          CookiePot.cookieMaxAge := 365 * 24 * 60 * 60;
          CookiePot.language := "en" |};
     CookiePot.eventEmitter :=
       EventEmitter.on "consent:change"
         {| EventEmitter.h_id := 1; EventEmitter.h_throws := false |}
         EventEmitter.constructor;
     CookiePot.visitorId := "test-visitor-id";
     CookiePot.sessionId := "test-session-id";
     CookiePot.consentState := analyticsGranted;
     CookiePot.initialized := true;
     CookiePot.googleConsentMode :=
       Some (GoogleConsentModeManager.constructor true);
     CookiePot.scriptAutoBlocker :=
       Some (ScriptAutoBlocker.constructor analytics_patterns
               analyticsGranted true) |}.

(** [{ marketing: true, necessary: false }]. *)
Definition marketing_only : PartialConsentCategories :=
  {| p_necessary := Some false; p_analytics := None;
     p_marketing := Some true; p_preferences := None |}.

(** [{ enabled: true, allowedKeys: ['my_app_key', /^safe_/] }]. *)
Definition config_with_allowedKeys : StorageBlockingConfig :=
  {| enabled := true; patterns := None;
     allowedKeys := Some [PString "my_app_key";
                          PRegExp (regexp_literal "^safe_")];
     queueOperations := None; maxQueueSize := None; debug := None |}.

(** The configuration of the test of the scan with a string pattern. *)
Definition config_with_patterns : StorageBlockingConfig :=
  {| enabled := true;
     patterns := Some [ {| pattern := PString "myapp_track";
                           category := Analytics;
                           description := Some "MyApp Tracker" |} ];
     allowedKeys := None; queueOperations := None; maxQueueSize := None;
     debug := None |}.

(** A configuration that declares the keys of Google Analytics to be
    necessary. *)
Definition config_overriding_ga : StorageBlockingConfig :=
  {| enabled := true;
     patterns := Some [ {| pattern := PString "_ga";
                           category := Necessary;
                           description := None |} ];
     allowedKeys := None; queueOperations := None; maxQueueSize := None;
     debug := None |}.

(** The areas of the test of the scan. *)
Definition browser_to_scan : Browser.t :=
  {| Browser.hasWindow := true;
     Browser.localStorage :=
       <["_ga_test" := "ga_value"]>
         (<["_fbp_test" := "fb_value"]>
            {[ "cookiepot_consent" := "cp_value" ]});
     Browser.sessionStorage := {[ "amplitude_session" := "amp_value" ]};
     native_calls := []; Browser.console := [] |}.

(** The script of [page_with_analytics_script], and the blocker after
    [start()] and the insertion of the script. *)
Definition analytics_script : Page.Node :=
  Page.set_parentNode (Some 1%nat)
    (script_with_src "https://www.google-analytics.com/analytics.js").

Definition observing_blocker : ScriptAutoBlocker.t * Page.t :=
  ScriptAutoBlocker.start script_blocker page_with_analytics_script.

Definition after_observed_insertion : ScriptAutoBlocker.t * Page.t :=
  ScriptAutoBlocker.observed [0%nat] (fst observing_blocker)
    (snd observing_blocker).

End Scenario.

(** * Properties *)

(** ** The storage blocker *)

Module StorageBlockerFacts.
Import Js Types Browser StorageBlocker.

Section WithEngine.
Context `{E : RegExpEngine}.

Implicit Types (b : StorageBlocker.t) (w : Browser.t)
  (op : QueuedStorageOperation) (q : list QueuedStorageOperation).

(** *** The queue *)

Lemma queueOperation_queue op b :
  queue (queueOperation op b) = enqueue (capacity b) (queue b) op.
Proof. reflexivity. Qed.

Lemma queueOperation_config op b :
  config (queueOperation op b) = config b.
Proof. reflexivity. Qed.

Lemma queueOperations_all_config ops b :
  config (queueOperations_all ops b) = config b.
Proof.
  revert b. induction ops as [|op ops IH]; intros b; [done|].
  simpl. rewrite IH. apply queueOperation_config.
Qed.

Lemma queueOperations_all_snoc ops op b :
  queueOperations_all (ops ++ [op]) b
  = queueOperation op (queueOperations_all ops b).
Proof. unfold queueOperations_all. by rewrite fold_left_app. Qed.

Lemma tail_drop {A} (l : list A) n : tail (drop n l) = drop (S n) l.
Proof.
  revert n. induction l as [|x l IH]; intros [|n]; simpl; done.
Qed.

(** With room for one operation at least, the queue holds the last
    operations that were enqueued, as many as fit. *)
Lemma queue_is_suffix ops b :
  (1 ≤ capacity b)%Z → queue b = [] →
  queue (queueOperations_all ops b)
  = drop (length ops - Z.to_nat (capacity b)) ops.
Proof.
  intros Hcap Hq. induction ops as [|op ops IH] using rev_ind.
  - simpl. by rewrite Hq.
  - rewrite queueOperations_all_snoc, queueOperation_queue.
    unfold capacity in *. rewrite queueOperations_all_config, IH.
    set (N := nullish (maxQueueSize (config b)) 100%Z) in *.
    unfold enqueue. rewrite length_drop, length_app. simpl.
    destruct (Z.leb_spec N (Z.of_nat (length ops - (length ops - Z.to_nat N))))
      as [Hfull|Hroom].
    + rewrite tail_drop.
      rewrite drop_app_le by lia.
      f_equal. f_equal. lia.
    + replace (length ops - Z.to_nat N) with 0 by lia.
      replace (length ops + 1 - Z.to_nat N) with 0 by lia.
      by rewrite !drop_0.
Qed.

Lemma enqueue_length_bound N q op :
  (1 ≤ N)%Z → (Z.of_nat (length q) ≤ N)%Z →
  (Z.of_nat (length (enqueue N q op)) ≤ N)%Z.
Proof.
  intros HN Hq. unfold enqueue.
  destruct (Z.leb_spec N (Z.of_nat (length q))); rewrite length_app; simpl.
  - destruct q; simpl in *; lia.
  - lia.
Qed.

(** C3, as the code has it: for a capacity [N] of one or more, the queue
    built from the empty queue holds the last [N] operations enqueued in
    their order, its length never exceeds [N], and after [N + 1]
    operations exactly the oldest one is gone. *)
Theorem queue_drops_oldest ops b :
  (1 ≤ capacity b)%Z → queue b = [] →
  let b' := queueOperations_all ops b in
  queue b' = drop (length ops - Z.to_nat (capacity b)) ops
  ∧ (Z.of_nat (length (queue b')) ≤ capacity b)%Z
  ∧ (length ops = S (Z.to_nat (capacity b)) → queue b' = tail ops).
Proof.
  intros Hcap Hq b'. subst b'.
  rewrite (queue_is_suffix ops b Hcap Hq). split; [done|]. split.
  - rewrite length_drop. lia.
  - intros Hlen. rewrite Hlen.
    replace (S (Z.to_nat (capacity b)) - Z.to_nat (capacity b)) with 1 by lia.
    by destruct ops.
Qed.

(** *** The replay *)

Lemma replay_spec b q remaining w :
  replay b q remaining w
  = (remaining ++ List.filter (fun op => negb (hasConsent b (op_category op))) q,
     fold_left (fun w op => executeOperation b op w)
       (List.filter (fun op => hasConsent b (op_category op)) q) w).
Proof.
  revert remaining w. induction q as [|op q IH]; intros remaining w; simpl.
  - by rewrite app_nil_r.
  - destruct (hasConsent b (op_category op)); simpl; rewrite IH.
    + done.
    + by rewrite <- app_assoc.
Qed.

Lemma executeOperation_started b op w :
  origLocal b = Some (wrapStorage LocalStorage) →
  origSession b = Some (wrapStorage SessionStorage) →
  executeOperation b op w
  = match call_of op with Some c => perform w c | None => w end.
Proof.
  intros Hl Hs. unfold executeOperation, call_of, perform.
  rewrite Hl, Hs.
  destruct op as [ty st k v cat ts]; simpl.
  destruct st, ty, k, v; reflexivity.
Qed.

Lemma executeOperation_stopped b op w :
  origLocal b = None → origSession b = None →
  executeOperation b op w = w.
Proof.
  intros Hl Hs. unfold executeOperation. rewrite Hl, Hs.
  by destruct (storageType op).
Qed.

Lemma fold_perform b q w :
  origLocal b = Some (wrapStorage LocalStorage) →
  origSession b = Some (wrapStorage SessionStorage) →
  fold_left (fun w op => executeOperation b op w) q w
  = fold_left perform (omap call_of q) w.
Proof.
  intros Hl Hs. revert w. induction q as [|op q IH]; intros w; [done|].
  simpl. rewrite executeOperation_started by done.
  destruct (call_of op); simpl; apply IH.
Qed.

Lemma fold_stopped b q w :
  origLocal b = None → origSession b = None →
  fold_left (fun w op => executeOperation b op w) q w = w.
Proof.
  intros Hl Hs. revert w. induction q as [|op q IH]; intros w; [done|].
  simpl. by rewrite executeOperation_stopped, IH.
Qed.

(** The message of [processQueue] is never written. *)
Lemma processQueue_spec b w :
  processQueue b w
  = (set_queue (fst (replay b (queue b) [] w)) b,
     snd (replay b (queue b) [] w)).
Proof.
  unfold processQueue. destruct (replay b (queue b) [] w) as [remaining w1].
  simpl. by rewrite Nat.ltb_irrefl, andb_false_r.
Qed.

Lemma native_calls_fold calls w :
  native_calls (fold_left perform calls w) = native_calls w ++ calls.
Proof.
  revert w. induction calls as [|[ty c] calls IH]; intros w; simpl.
  - by rewrite app_nil_r.
  - rewrite IH. simpl. by rewrite <- app_assoc.
Qed.

Lemma console_fold calls w :
  console (fold_left perform calls w) = console w.
Proof.
  revert w. induction calls as [|[ty c] calls IH]; intros w; [done|].
  simpl. by rewrite IH.
Qed.

(** C2, as the code has it: once the blocker is started, [updateConsent]
    replaces the consent and replays the queue in the order of enqueuing;
    the operations whose category is now granted, or is necessary, run
    through the saved original methods and leave the queue, the others stay
    in their order. *)
Theorem updateConsent_replays_queue (c : ConsentCategories) b w :
  started b →
  let run := fun op => granted c (op_category op) in
  let b' := fst (updateConsent c b w) in
  let w' := snd (updateConsent c b w) in
  consent b' = c
  ∧ queue b' = List.filter (fun op => negb (run op)) (queue b)
  ∧ w' = fold_left perform (omap call_of (List.filter run (queue b))) w
  ∧ native_calls w'
    = native_calls w ++ omap call_of (List.filter run (queue b))
  ∧ (∀ op call,
       op ∈ queue b → run op = true → call_of op = Some call →
       call ∈ omap call_of (List.filter run (queue b))).
Proof.
  intros (_ & Hl & Hs) run b' w'. subst b' w'.
  unfold updateConsent. rewrite processQueue_spec, replay_spec. simpl.
  rewrite fold_perform by done.
  split; [done|]. split; [done|]. split; [done|].
  split; [apply native_calls_fold|].
  intros op call Hop Hrun Hcall. apply list_elem_of_omap.
  exists op. split; [|done].
  apply list_elem_of_In, filter_In. split; [by apply list_elem_of_In|done].
Qed.

(** *** The operations that the wrappers enqueue *)

Lemma enqueue_callable N q op :
  Forall callable q → callable op → Forall callable (enqueue N q op).
Proof.
  intros Hq Hop. unfold enqueue. apply Forall_app_2; [|by constructor].
  destruct (_ <=? _)%Z; [|done]. destruct Hq; [constructor|done].
Qed.

(** Whatever the page calls on a storage area, the operations in the
    queue are callable: each that is replayed reaches a native method. *)
Lemma intercepted_operations_callable b w :
  Forall callable (queue b) →
  (∀ ty k v now,
     Forall callable (queue (fst (Storage_setItem ty k v now b w))))
  ∧ (∀ ty k now,
       Forall callable (queue (fst (Storage_removeItem ty k now b w))))
  ∧ (∀ ty now, Forall callable (queue (fst (Storage_clear ty now b w)))).
Proof.
  intros Hq. split; [|split]; intros;
    unfold Storage_setItem, Storage_removeItem, Storage_clear,
      wrapped_setItem, wrapped_removeItem, wrapped_clear;
    destruct (active b); simpl; try done;
    repeat match goal with
           | |- context [if ?c then _ else _] => destruct c; simpl; try done
           end;
    apply enqueue_callable; try done; by eexists.
Qed.

Lemma start_started b w :
  active b = false → hasWindow w = true → started (fst (start b w)).
Proof. intros Ha Hw. unfold start. rewrite Ha, Hw. by repeat split. Qed.

(** *** What holds of every blocker that a program can see *)

Lemma filter_callable (P : QueuedStorageOperation → bool) q :
  Forall callable q → Forall callable (List.filter P q).
Proof.
  intros Hq. induction Hq as [|op q Hop _ IH]; simpl; [constructor|].
  destruct (P op); [by constructor | done].
Qed.

Lemma step_consistent s s' :
  step s s' → consistent (fst s) → consistent (fst s').
Proof.
  intros Hstep [Horig Hq].
  destruct Hstep as [b w|b w|c b w|ty k v now b w|ty k now b w|ty now b w];
    simpl in *.
  - unfold start. destruct (active b) eqn:Ha; simpl.
    + split; [by rewrite Ha | done].
    + destruct (hasWindow w); simpl; [|split; [by rewrite Ha | done]].
      split; [by repeat split | done].
  - unfold stop. destruct (active b) eqn:Ha; simpl.
    + split; [done | done].
    + split; [by rewrite Ha | done].
  - unfold updateConsent. rewrite processQueue_spec, replay_spec. simpl.
    split; [exact Horig|]. by apply filter_callable.
  - destruct (intercepted_operations_callable b w Hq) as (Hset & _ & _).
    split; [|apply Hset].
    unfold Storage_setItem, wrapped_setItem.
    destruct (active b) eqn:Ha; simpl; [|by rewrite Ha].
    destruct (isAllowed b k); simpl; [by rewrite Ha|].
    destruct (hasConsent b _); simpl; [by rewrite Ha|].
    destruct (queueing b); simpl; by rewrite Ha.
  - destruct (intercepted_operations_callable b w Hq) as (_ & Hrem & _).
    split; [|apply Hrem].
    unfold Storage_removeItem, wrapped_removeItem.
    destruct (active b) eqn:Ha; simpl; [|by rewrite Ha].
    destruct (isAllowed b k); simpl; [by rewrite Ha|].
    destruct (hasConsent b _); simpl; [by rewrite Ha|].
    destruct (queueing b); simpl; by rewrite Ha.
  - destruct (intercepted_operations_callable b w Hq) as (_ & _ & Hclr).
    split; [|apply Hclr].
    unfold Storage_clear, wrapped_clear.
    destruct (active b) eqn:Ha; simpl; [|by rewrite Ha].
    unfold hasConsent, granted. simpl.
    destruct (marketing (consent b)); simpl; [by rewrite Ha|].
    destruct (queueing b); simpl; by rewrite Ha.
Qed.

Lemma reachable_consistent s : reachable s → consistent (fst s).
Proof.
  induction 1 as [cfg c w|s s' _ IH Hstep].
  - split; [done | constructor].
  - by eapply step_consistent.
Qed.

(** An active blocker that a program can see is a started one. *)
Lemma reachable_active_started b w :
  reachable (b, w) → active b = true → started b.
Proof.
  intros Hr Ha. destruct (reachable_consistent _ Hr) as [Horig _].
  simpl in Horig. by rewrite Ha in Horig.
Qed.

Lemma step_capacity s s' :
  step s s' → capacity (fst s') = capacity (fst s).
Proof.
  destruct 1 as [b w|b w|c b w|ty k v now b w|ty k now b w|ty now b w];
    simpl;
    unfold start, stop, updateConsent, Storage_setItem, wrapped_setItem,
      Storage_removeItem, wrapped_removeItem, Storage_clear, wrapped_clear;
    rewrite ?processQueue_spec;
    repeat match goal with
           | |- context [if ?c then _ else _] => destruct c; simpl
           end; done.
Qed.

Lemma filter_length_le (P : QueuedStorageOperation → bool) q :
  (length (List.filter P q) ≤ length q)%nat.
Proof.
  induction q as [|op q IH]; simpl; [done|]. destruct (P op); simpl; lia.
Qed.

(** With a capacity of one or more, no blocker that a program can see has
    a queue longer than its capacity. *)
Lemma reachable_queue_bounded s :
  reachable s → (1 ≤ capacity (fst s))%Z →
  (Z.of_nat (length (queue (fst s))) ≤ capacity (fst s))%Z.
Proof.
  induction 1 as [cfg c w|s s' Hr IH Hstep]; intros Hcap.
  - unfold capacity in *. simpl in *. lia.
  - rewrite (step_capacity _ _ Hstep) in *. specialize (IH Hcap).
    destruct Hstep
      as [b w|b w|c b w|ty k v now b w|ty k now b w|ty now b w];
      simpl in *;
      unfold start, stop, updateConsent, Storage_setItem, wrapped_setItem,
        Storage_removeItem, wrapped_removeItem, Storage_clear, wrapped_clear;
      rewrite ?processQueue_spec, ?replay_spec;
      repeat match goal with
             | |- context [if ?c then _ else _] => destruct c; simpl
             end;
      try done;
      try (by apply enqueue_length_bound).
    simpl.
    pose proof (filter_length_le
                  (fun op => negb (hasConsent (set_consent c b)
                                     (op_category op))) (queue b)).
    lia.
Qed.

(** *** [clear] *)

(** C6: while the blocker is active, [clear] on a storage area reaches the
    native [clear] only if marketing is granted, whatever the table of
    patterns is; without that consent nothing is stored, removed or called,
    and unless queueing is disabled an operation of kind [Clear] with the
    category [Marketing] is enqueued. *)
Theorem clear_requires_marketing (ty : StorageType) (now : Z) b w :
  active b = true →
  let b' := fst (Storage_clear ty now b w) in
  let w' := snd (Storage_clear ty now b w) in
  native_calls w'
  = native_calls w
    ++ (if marketing (consent b) then [(ty, NativeClear)] else [])
  ∧ (marketing (consent b) = false →
     localStorage w' = localStorage w
     ∧ sessionStorage w' = sessionStorage w
     ∧ (queueing b = true →
        queue b' = enqueue (capacity b) (queue b) (clear_operation ty now)
        ∧ last (queue b') = Some (clear_operation ty now)
        ∧ op_category (clear_operation ty now) = Marketing)
     ∧ (queueing b = false → queue b' = queue b)).
Proof.
  intros Hactive b' w'. subst b' w'.
  unfold Storage_clear, wrapped_clear, hasConsent, granted. rewrite Hactive.
  simpl. destruct (marketing (consent b)) eqn:Hm; simpl.
  - split; [done|]. intros; congruence.
  - split.
    + unfold debug_log. destruct (debugging b); simpl; by rewrite app_nil_r.
    + intros _.
      split; [unfold debug_log; by destruct (debugging b)|].
      split; [unfold debug_log; by destruct (debugging b)|].
      split; intros Hq; rewrite Hq; [|done].
      split; [done|]. split; [|done].
      simpl. unfold enqueue. by rewrite last_snoc.
Qed.

(** *** [stop], then [updateConsent] *)

(** C9: after [stop] the saved methods are gone; an [updateConsent] that
    grants the category of a queued operation takes the operation out of
    the queue and runs nothing: both storage areas and the list of native
    calls are as before, and nothing is written to the console. *)
Theorem stopped_replay_discards (c : ConsentCategories) b w :
  active b = true →
  let b1 := fst (stop b w) in
  let w1 := snd (stop b w) in
  let b2 := fst (updateConsent c b1 w1) in
  let w2 := snd (updateConsent c b1 w1) in
  origLocal b1 = None ∧ origSession b1 = None
  ∧ queue b2
    = List.filter (fun op => negb (granted c (op_category op))) (queue b)
  ∧ localStorage w2 = localStorage w
  ∧ sessionStorage w2 = sessionStorage w
  ∧ native_calls w2 = native_calls w
  ∧ console w2 = console w1.
Proof.
  intros Hactive b1 w1 b2 w2. subst b1 w1 b2 w2.
  unfold stop. rewrite Hactive. simpl.
  unfold updateConsent. rewrite processQueue_spec, replay_spec. simpl.
  rewrite fold_stopped by done.
  repeat split; try done; unfold debug_log;
    by destruct (debugging _).
Qed.

End WithEngine.

Import Scenario.

Lemma queue_drops_oldest_witness :
  let b := constructor (config_with_maxQueueSize 2) defaultConsent in
  let ops := [ga_operation 1; ga_operation 2; ga_operation 3] in
  (1 ≤ capacity b)%Z ∧ queue b = []
  ∧ queue (queueOperations_all ops b) = [ga_operation 2; ga_operation 3].
Proof.
  intros b ops.
  assert (Hcap : (1 ≤ capacity b)%Z) by (vm_compute; congruence).
  assert (Hq : queue b = []) by reflexivity.
  split; [exact Hcap|]. split; [exact Hq|].
  destruct (queue_drops_oldest ops b Hcap Hq) as (_ & _ & Htail).
  exact (Htail eq_refl).
Defined.

(** C3 as it is written fails for the capacity 0: the operation is kept,
    and the queue is longer than its bound. *)
Lemma queue_capacity_zero_exceeded :
  let b := constructor (config_with_maxQueueSize 0) defaultConsent in
  let b' := queueOperations_all [ga_operation 1] b in
  capacity b = 0%Z
  ∧ queue b' = [ga_operation 1]
  ∧ ¬ (Z.of_nat (length (queue b')) ≤ capacity b)%Z.
Proof.
  intros b b'. split; [reflexivity|]. split; [reflexivity|].
  vm_compute. intros H. apply H. reflexivity.
Defined.

Lemma updateConsent_replays_queue_witness :
  let b := fst blocker_with_queue in
  let w := snd blocker_with_queue in
  let b' := fst (updateConsent analyticsGranted b w) in
  let w' := snd (updateConsent analyticsGranted b w) in
  started b
  ∧ map key (queue b) = [Some "_ga_deferred"; Some "_fbp_test"]
  ∧ map key (queue b') = [Some "_fbp_test"]
  ∧ native_calls w'
    = [(LocalStorage, NativeSetItem "_ga_deferred" "deferred_value")].
Proof.
  intros b w b' w'.
  assert (Hs : started b) by (repeat split).
  split; [exact Hs|]. split; [reflexivity|].
  destruct (updateConsent_replays_queue analyticsGranted b w Hs)
    as (_ & Hq & _ & Hc & _).
  split.
  - subst b'. rewrite Hq. reflexivity.
  - subst w'. rewrite Hc. reflexivity.
Defined.

(** C2 as it is written fails on a blocker that has been stopped: the
    operation on [_ga_deferred] is granted by the new consent and leaves
    the queue, and no native method is called for it. *)
Lemma updateConsent_after_stop_runs_nothing :
  let b := fst stopped_with_queue in
  let w := snd stopped_with_queue in
  let b' := fst (updateConsent analyticsGranted b w) in
  let w' := snd (updateConsent analyticsGranted b w) in
  map (fun op => (key op, granted analyticsGranted (op_category op)))
    (queue b)
  = [(Some "_ga_deferred", true); (Some "_fbp_test", false)]
  ∧ map key (queue b') = [Some "_fbp_test"]
  ∧ native_calls w' = []
  ∧ Browser.localStorage w' !! "_ga_deferred" = None.
Proof.
  intros b w b' w'. repeat split.
Defined.

(** The tests of [categorizeKey]. *)
Example categorizeKey_tests :
  let b := constructor defaultConfig defaultConsent in
  map (categorizeKey b)
    ["_ga"; "_ga_ABC123"; "_gid"; "_fbp"; "theme_dark"; "lang";
     "random_unknown_key"]
  = [Analytics; Analytics; Analytics; Marketing; Preferences; Preferences;
     Marketing].
Proof. reflexivity. Qed.

(** The test of [maxQueueSize]: three blocked writes against a bound of
    two. *)
Example maxQueueSize_test :
  let '(b0, w0) :=
    start (constructor (config_with_maxQueueSize 2) defaultConsent)
      empty_browser in
  let '(b1, w1) := Storage_setItem LocalStorage "_ga_1" "v1" 1 b0 w0 in
  let '(b2, w2) := Storage_setItem LocalStorage "_ga_2" "v2" 2 b1 w1 in
  let '(b3, w3) := Storage_setItem LocalStorage "_ga_3" "v3" 3 b2 w2 in
  map key (getQueue b3) = [Some "_ga_2"; Some "_ga_3"]
  ∧ native_calls w3 = [].
Proof. split; reflexivity. Qed.

(** A key of the SDK is written at once. *)
Example cookiepot_keys_are_allowed :
  let '(b0, w0) := started_blocker in
  let '(b1, w1) := Storage_setItem LocalStorage "cookiepot_consent" "data" 1
                     b0 w0 in
  Browser.localStorage w1 !! "cookiepot_consent" = Some "data"
  ∧ getQueue b1 = [].
Proof. split; reflexivity. Qed.

Lemma clear_requires_marketing_witness :
  let b := fst started_blocker in
  let w := native LocalStorage (NativeSetItem "test_key" "value")
             (snd started_blocker) in
  let b' := fst (Storage_clear LocalStorage 7 b w) in
  let w' := snd (Storage_clear LocalStorage 7 b w) in
  active b = true
  ∧ native_calls w' = native_calls w
  ∧ Browser.localStorage w' = Browser.localStorage w
  ∧ queue b' = [clear_operation LocalStorage 7].
Proof.
  intros b w b' w'.
  assert (Ha : active b = true) by reflexivity.
  split; [exact Ha|].
  destruct (clear_requires_marketing LocalStorage 7 b w Ha)
    as (Hcalls & Hblocked).
  destruct (Hblocked eq_refl) as (Hl & _ & Hq & _).
  destruct (Hq eq_refl) as (Hq' & _).
  split; [|split].
  - subst w'. rewrite Hcalls. apply app_nil_r.
  - exact Hl.
  - subst b'. rewrite Hq'. reflexivity.
Defined.

Lemma stopped_replay_discards_witness :
  let b := fst blocker_with_queue in
  let w := snd blocker_with_queue in
  let b1 := fst (stop b w) in
  let w1 := snd (stop b w) in
  let b2 := fst (updateConsent analyticsGranted b1 w1) in
  let w2 := snd (updateConsent analyticsGranted b1 w1) in
  active b = true
  ∧ map key (queue b2) = [Some "_fbp_test"]
  ∧ Browser.localStorage w2 = Browser.localStorage w
  ∧ native_calls w2 = native_calls w.
Proof.
  intros b w b1 w1 b2 w2.
  assert (Ha : active b = true) by reflexivity.
  split; [exact Ha|].
  destruct (stopped_replay_discards analyticsGranted b w Ha)
    as (_ & _ & Hq & Hl & _ & Hc & _).
  split; [|split].
  - subst b2 b1 w1. rewrite Hq. reflexivity.
  - exact Hl.
  - exact Hc.
Defined.

End StorageBlockerFacts.

(** ** The two classifiers *)

Module ClassifierFacts.
Import Js Types Page.

(** *** Strings *)

Lemma append_cons c (p rest : string) :
  String c p +:+ rest = String c (p +:+ rest).
Proof. reflexivity. Qed.

Lemma append_nil (s : string) : EmptyString +:+ s = s.
Proof. reflexivity. Qed.

Lemma prefix_iff (p s : string) :
  String.prefix p s = true ↔ ∃ rest, s = p +:+ rest.
Proof.
  revert s. induction p as [|c p IH]; intros s.
  - split; [intros _; by exists s | intros _; by destruct s].
  - destruct s as [|d s]; simpl.
    + split; [done | intros [rest Hrest]; discriminate].
    + destruct (Ascii.ascii_dec c d) as [->|Hne].
      * rewrite IH. split; intros [rest Hrest]; exists rest.
        -- by rewrite append_cons, Hrest.
        -- rewrite append_cons in Hrest. by injection Hrest.
      * split; [done | intros [rest Hrest]].
        rewrite append_cons in Hrest. congruence.
Qed.

Lemma includes_nil (p : string) :
  includes EmptyString p = String.prefix p EmptyString || false.
Proof. reflexivity. Qed.

Lemma includes_cons c (s p : string) :
  includes (String c s) p = String.prefix p (String c s) || includes s p.
Proof. reflexivity. Qed.

Lemma includes_iff (s p : string) :
  includes s p = true ↔ ∃ before after, s = before +:+ p +:+ after.
Proof.
  induction s as [|c s IH].
  - rewrite includes_nil, orb_false_r, prefix_iff. split.
    + intros [rest Hrest]. by exists EmptyString, rest.
    + intros (before & after & H). destruct before; [by exists after|done].
  - rewrite includes_cons, orb_true_iff, prefix_iff, IH. split.
    + intros [[rest Hrest] | (before & after & H)].
      * by exists EmptyString, rest.
      * exists (String c before), after. by rewrite append_cons, H.
    + intros (before & after & H). destruct before as [|d before].
      * left. by exists after.
      * right. exists before, after. rewrite append_cons in H.
        by injection H.
Qed.

Lemma startsWith_iff (s p : string) :
  startsWith s p = true ↔ ∃ rest, s = p +:+ rest.
Proof. apply prefix_iff. Qed.

Section WithEngine.
Context `{E : RegExpEngine}.

(** *** The storage keys *)

Lemma storage_string_pattern (s k : string) :
  StorageBlocker.pattern_matches (StorageBlocker.PString s) k = true
  ↔ k = s ∨ ∃ rest, k = s +:+ rest.
Proof.
  simpl. rewrite orb_true_iff, String.eqb_eq, startsWith_iff. done.
Qed.

Lemma categorize_find (table : list StorageBlocker.StoragePattern) k :
  StorageBlocker.categorize table k
  = match List.find (fun p => StorageBlocker.pattern_matches
                                (StorageBlocker.pattern p) k) table with
    | Some p => StorageBlocker.category p
    | None => Marketing
    end.
Proof.
  induction table as [|p table IH]; simpl; [done|].
  by destruct (StorageBlocker.pattern_matches _ k).
Qed.

Lemma categorize_unmatched (table : list StorageBlocker.StoragePattern) k :
  (∀ p, p ∈ table →
        StorageBlocker.pattern_matches (StorageBlocker.pattern p) k = false) →
  StorageBlocker.categorize table k = Marketing.
Proof.
  induction table as [|p table IH]; intros Hno; simpl; [done|].
  rewrite Hno by left. apply IH. intros q Hq. apply Hno. by right.
Qed.

(** *** The scripts *)

Lemma matchPatterns_find (table : list ScriptAutoBlocker.ScriptPattern)
    source content :
  ScriptAutoBlocker.matchPatterns table source content
  = ScriptAutoBlocker.category
      <$> List.find (fun p => ScriptAutoBlocker.pattern_matches p source content)
            table.
Proof.
  induction table as [|p table IH]; simpl; [done|].
  by destruct (ScriptAutoBlocker.pattern_matches p source content).
Qed.

Lemma matchPatterns_unmatched (table : list ScriptAutoBlocker.ScriptPattern)
    source content :
  (∀ p, p ∈ table →
        ScriptAutoBlocker.matchesPattern source
          (ScriptAutoBlocker.matcher (ScriptAutoBlocker.pattern p)) = false
        ∧ ScriptAutoBlocker.matchesPattern content
            (ScriptAutoBlocker.matcher (ScriptAutoBlocker.pattern p)) = false) →
  ScriptAutoBlocker.matchPatterns table source content = None.
Proof.
  induction table as [|p table IH]; intros Hno; simpl; [done|].
  unfold ScriptAutoBlocker.pattern_matches.
  destruct (Hno p) as [-> ->]; [by left|].
  rewrite !andb_false_r. simpl. apply IH. intros q Hq. apply Hno. by right.
Qed.

(** C4, as the code has it.  For the keys of the storage a string pattern
    matches the keys that are equal to it or start with it, and a regular
    expression matches by its own [test].  For the scripts every pattern,
    a string or the source of a regular expression, is compiled without
    regard to case and tested against the address and against the
    content, and when it does not compile the lowered text is searched
    for the lowered pattern.  In both tables the first pattern that
    matches decides. *)
Theorem classifiers_match_in_order :
  (∀ (s k : string),
     StorageBlocker.pattern_matches (StorageBlocker.PString s) k = true
     ↔ k = s ∨ ∃ rest, k = s +:+ rest)
  ∧ (∀ (r : RegExp) (k : string),
       StorageBlocker.pattern_matches (StorageBlocker.PRegExp r) k
       = regexp_test r k)
  ∧ (∀ (table : list StorageBlocker.StoragePattern) (k : string),
       StorageBlocker.categorize table k
       = match List.find (fun p => StorageBlocker.pattern_matches
                                     (StorageBlocker.pattern p) k) table with
         | Some p => StorageBlocker.category p
         | None => Marketing
         end)
  ∧ (∀ (p : ScriptAutoBlocker.ScriptPattern) (source content : string),
       ScriptAutoBlocker.pattern_matches p source content = true
       ↔ ∃ text, (text = source ∨ text = content) ∧ text ≠ EmptyString
           ∧ match regexp_new_i
                     (ScriptAutoBlocker.matcher (ScriptAutoBlocker.pattern p))
             with
             | Some regex => regexp_test regex text = true
             | None =>
                 ∃ before after,
                   toLowerCase text
                   = before
                     +:+ toLowerCase
                           (ScriptAutoBlocker.matcher
                              (ScriptAutoBlocker.pattern p))
                     +:+ after
             end)
  ∧ (∀ (table : list ScriptAutoBlocker.ScriptPattern)
       (source content : string),
       ScriptAutoBlocker.matchPatterns table source content
       = ScriptAutoBlocker.category
           <$> List.find
                 (fun p => ScriptAutoBlocker.pattern_matches p source content)
                 table).
Proof.
  split; [apply storage_string_pattern|].
  split; [done|].
  split; [apply categorize_find|].
  split; [|apply matchPatterns_find].
  intros p source content.
  unfold ScriptAutoBlocker.pattern_matches, ScriptAutoBlocker.matchesPattern.
  set (pat := ScriptAutoBlocker.matcher (ScriptAutoBlocker.pattern p)).
  assert (Hone : ∀ text,
    truthy text
    && match regexp_new_i pat with
       | Some regex => regexp_test regex text
       | None => includes (toLowerCase text) (toLowerCase pat)
       end = true
    ↔ text ≠ EmptyString
      ∧ match regexp_new_i pat with
        | Some regex => regexp_test regex text = true
        | None => ∃ before after,
                    toLowerCase text = before +:+ toLowerCase pat +:+ after
        end).
  { intros text. rewrite andb_true_iff.
    assert (truthy text = true ↔ text ≠ EmptyString) as ->
      by (destruct text; simpl; split; congruence).
    destruct (regexp_new_i pat); [done|]. by rewrite includes_iff. }
  rewrite orb_true_iff, !Hone. split.
  - intros [H|H]; [exists source | exists content]; (split; [tauto|done]).
  - intros (text & [->| ->] & H); [left | right]; done.
Qed.

Lemma update_node_insert (id : nat) (f : Node → Node) (n : Node)
    (w : Page.t) :
  nodes w !! id = Some n →
  update_node id f w = with_nodes (<[id := f n]> (nodes w)) w.
Proof.
  intros Hn. unfold update_node. f_equal. apply map_eq. intros j.
  rewrite lookup_alter, lookup_insert.
  case_decide; [subst; by rewrite Hn | done].
Qed.

Lemma with_nodes_same (n : Node) (id : nat) (w : Page.t) :
  nodes w !! id = Some n → with_nodes (<[id := n]> (nodes w)) w = w.
Proof. intros Hn. rewrite insert_id by done. by destruct w. Qed.

(** C5: a key of the storage that no pattern of the table matches is put
    in the category [Marketing]; a script of which neither the address nor
    the content matches a pattern of the table gets no category, and
    [handleScriptTag] changes nothing but the mark on that element: no
    script is recorded as blocked, no other element changes, nothing is
    written. *)
Theorem unmatched_key_is_marketing_unmatched_script_is_left
    (sb : StorageBlocker.t) (k : string)
    (b : ScriptAutoBlocker.t) (w : Page.t) (id : nat) (script : Node) :
  (∀ p, p ∈ StorageBlocker.b_patterns sb →
        StorageBlocker.pattern_matches (StorageBlocker.pattern p) k = false) →
  nodes w !! id = Some script →
  (∀ p, p ∈ ScriptAutoBlocker.patterns b →
        ScriptAutoBlocker.matchesPattern (src script)
          (ScriptAutoBlocker.matcher (ScriptAutoBlocker.pattern p)) = false
        ∧ ScriptAutoBlocker.matchesPattern
            (ScriptAutoBlocker.content_of script)
            (ScriptAutoBlocker.matcher (ScriptAutoBlocker.pattern p)) = false) →
  StorageBlocker.categorizeKey sb k = Marketing
  ∧ ScriptAutoBlocker.matchScriptToCategory b script = None
  ∧ fst (ScriptAutoBlocker.handleScriptTag id b w) = b
  ∧ snd (ScriptAutoBlocker.handleScriptTag id b w)
    = with_nodes
        (<[id := if hasAttribute script "data-cookiepot-processed"
                 then script
                 else setAttribute "data-cookiepot-processed" "true" script]>
           (nodes w)) w.
Proof.
  intros Hkey Hnode Hscript.
  split; [by apply categorize_unmatched|].
  assert (Hnone : ScriptAutoBlocker.matchScriptToCategory b script = None)
    by (by apply matchPatterns_unmatched).
  split; [exact Hnone|].
  unfold ScriptAutoBlocker.handleScriptTag. rewrite Hnode.
  destruct (hasAttribute script "data-cookiepot-processed"); simpl.
  - split; [done|]. by rewrite with_nodes_same.
  - rewrite Hnone. simpl. split; [done|]. by apply update_node_insert.
Qed.

End WithEngine.

Import Scenario LiteralEngine.

(** C4 as it is written fails for the scripts: the string pattern of the
    tests matches an address that is not equal to it and does not start
    with it. *)
Lemma script_string_pattern_matches_inside :
  let url := "https://www.google-analytics.com/analytics.js" in
  let pat := "google-analytics.com" in
  ScriptAutoBlocker.matchPatterns analytics_patterns url EmptyString
  = Some Analytics
  ∧ ¬ (url = pat ∨ ∃ rest, url = pat +:+ rest).
Proof.
  intros url pat. split; [reflexivity|].
  intros [H|H]; [discriminate|].
  apply startsWith_iff in H. discriminate.
Defined.

(** The test of the blocking: the script of Google Analytics, inserted
    without consent, gets the type [text/plain] and the mark of its
    category, and loses its address. *)
Example analytics_script_is_blocked :
  let '(b, w) := after_insertion in
  (attributes <$> nodes w !! 0%nat)
  = Some (list_to_map
            [ ("type", "text/plain");
              ("data-cookiepot-blocked", "analytics");
              ("data-cookiepot-processed", "true") ])
  ∧ ScriptAutoBlocker.getBlockedScripts b
    = [(Some "https://www.google-analytics.com/analytics.js", Analytics)].
Proof. split; vm_compute; reflexivity. Qed.

(** The test of the unblocking: when analytics is granted a new script
    with the address takes the place of the blocked one in the head. *)
Example analytics_script_is_run_again :
  let '(b, w) := after_insertion in
  let '(b', w') := ScriptAutoBlocker.updateConsent analyticsGranted b w in
  (childNodes <$> nodes w' !! 1%nat) = Some [2%nat]
  ∧ (attributes <$> nodes w' !! 2%nat)
    = Some (list_to_map
              [ ("src", "https://www.google-analytics.com/analytics.js");
                ("type", "text/javascript");
                ("data-cookiepot-processed", "true");
                ("data-cookiepot-unblocked", "true") ])
  ∧ ScriptAutoBlocker.getBlockedScripts b' = [].
Proof. repeat split; vm_compute; reflexivity. Qed.

(** The test of the pattern that does not compile: the text is searched
    for it. *)
Example invalid_pattern_falls_back :
  regexp_new_i "[invalid(regex" = None
  ∧ ScriptAutoBlocker.matchesPattern
      ("console.log(" +:+ dquote +:+ "[invalid(regex" +:+ dquote +:+ ")")
      "[invalid(regex" = true.
Proof. split; reflexivity. Qed.

(** The test of the case: [ANALYTICS] matches [analytics.js]. *)
Example pattern_ignores_case :
  ScriptAutoBlocker.matchesPattern "https://example.com/analytics.js"
    "ANALYTICS" = true.
Proof. reflexivity. Qed.

Lemma unmatched_key_is_marketing_unmatched_script_is_left_witness :
  let sb := StorageBlocker.constructor defaultConfig defaultConsent in
  let script := script_with_src "https://example.com/app.js" in
  let w := page_with_script script in
  StorageBlocker.categorizeKey sb "random_unknown_key" = Marketing
  ∧ ScriptAutoBlocker.matchScriptToCategory script_blocker script = None
  ∧ fst (ScriptAutoBlocker.handleScriptTag 0 script_blocker w)
    = script_blocker
  ∧ nodes (snd (ScriptAutoBlocker.handleScriptTag 0 script_blocker w))
    = {[ 0%nat := setAttribute "data-cookiepot-processed" "true" script ]}.
Proof.
  intros sb script w.
  assert (Hkey : ∀ p, p ∈ StorageBlocker.b_patterns sb →
            StorageBlocker.pattern_matches (StorageBlocker.pattern p)
              "random_unknown_key" = false).
  { intros p Hp. simpl in Hp.
    repeat (apply elem_of_cons in Hp as [->|Hp]; [reflexivity|]).
    by apply elem_of_nil in Hp. }
  assert (Hnode : nodes w !! 0%nat = Some script) by reflexivity.
  assert (Hscript : ∀ p, p ∈ ScriptAutoBlocker.patterns script_blocker →
            ScriptAutoBlocker.matchesPattern (src script)
              (ScriptAutoBlocker.matcher (ScriptAutoBlocker.pattern p))
            = false
            ∧ ScriptAutoBlocker.matchesPattern
                (ScriptAutoBlocker.content_of script)
                (ScriptAutoBlocker.matcher (ScriptAutoBlocker.pattern p))
              = false).
  { intros p Hp. simpl in Hp.
    repeat (apply elem_of_cons in Hp as [->|Hp]; [split; reflexivity|]).
    by apply elem_of_nil in Hp. }
  destruct (unmatched_key_is_marketing_unmatched_script_is_left
              sb "random_unknown_key" script_blocker w 0%nat script
              Hkey Hnode Hscript) as (H1 & H2 & H3 & H4).
  split; [exact H1|]. split; [exact H2|]. split; [exact H3|].
  rewrite H4. reflexivity.
Defined.

End ClassifierFacts.

(** ** Statements *)

Module EffFacts.
Import Eff.

Lemma bind_return {S A B} (c : M S A) (k : A → M S B) s a s1 :
  c s = (Return a, s1) → bind c k s = k a s1.
Proof. intros H. unfold bind. by rewrite H. Qed.

Lemma bind_throw {S A B} (c : M S A) (k : A → M S B) s e s1 :
  c s = (Throw e, s1) → bind c k s = (Throw e, s1).
Proof. intros H. unfold bind. by rewrite H. Qed.

Lemma on_snd_return {S1 S2 A} (c : M S2 A) (s1 : S1) s2 a s2' :
  c s2 = (Return a, s2') → on_snd c (s1, s2) = (Return a, (s1, s2')).
Proof. intros H. unfold on_snd. simpl. by rewrite H. Qed.

(** A statement that always returns, whatever the state. *)
Definition total {S A} (c : M S A) : Prop :=
  ∀ s, ∃ a, fst (c s) = Return a.

Lemma total_eq {S} (c : M S unit) s :
  total c → c s = (Return tt, snd (c s)).
Proof.
  intros H. destruct (H s) as [[] Ha]. destruct (c s) as [r s']. simpl in *.
  by subst.
Qed.

Lemma try_catch_total {S A} (body : M S A) (handler : string → M S A) :
  (∀ e, total (handler e)) → total (try_catch body handler).
Proof.
  intros Hh s. unfold try_catch. destruct (body s) as [[a|e] s1].
  - by exists a.
  - apply Hh.
Qed.

Lemma modify_total {S} (f : S → S) : total (modify f).
Proof. intros s. by exists tt. Qed.

End EffFacts.

(** ** The trace of the page *)

Module PageFacts.
Import Types Page.

Lemma record_all_app evs1 evs2 w :
  record_all (evs1 ++ evs2) w = record_all evs2 (record_all evs1 w).
Proof. unfold record_all. apply fold_left_app. Qed.

Lemma trace_record_all evs w : trace (record_all evs w) = trace w ++ evs.
Proof.
  revert w. induction evs as [|e evs IH]; intros w; simpl.
  - by rewrite app_nil_r.
  - rewrite IH. simpl. by rewrite <- app_assoc.
Qed.

Lemma record_all_frame evs w :
  hasWindow (record_all evs w) = hasWindow w
  ∧ hasDocument (record_all evs w) = hasDocument w
  ∧ cookies (record_all evs w) = cookies w
  ∧ localStorage (record_all evs w) = localStorage w
  ∧ nodes (record_all evs w) = nodes w
  ∧ gtag (record_all evs w) = gtag w.
Proof.
  revert w. induction evs as [|e evs IH]; intros w; simpl; [done|].
  destruct (IH (record e w)) as (-> & -> & -> & -> & -> & ->). done.
Qed.

Lemma record_all_with_nodes evs n w :
  record_all evs (with_nodes n w) = with_nodes n (record_all evs w).
Proof.
  revert w. induction evs as [|e evs IH]; intros w; simpl; [done|].
  by rewrite <- IH.
Qed.

Lemma log_is_record_all msg w : log msg w = record_all [Console msg] w.
Proof. reflexivity. Qed.

Lemma dataLayer_app w evs :
  Forall (fun e => match e with GtagCalled _ => False | _ => True end) evs →
  omap (fun e => match e with GtagCalled c => Some c | _ => None end)
    (trace w ++ evs)
  = dataLayer w.
Proof.
  intros Hevs. unfold dataLayer. rewrite omap_app.
  assert (omap (fun e => match e with GtagCalled c => Some c | _ => None end)
            evs = []) as ->.
  { induction Hevs as [|e evs He _ IH]; simpl; [done|].
    destruct e; try done. }
  apply app_nil_r.
Qed.

End PageFacts.

(** ** The persistence layer *)

Module PersistenceFacts.
Import Js Types Page Eff Json Schema Persistence EffFacts.

Section WithCodec.
Context `{C : Codec}.

Lemma getCookie_loop_state nameEQ parts w :
  snd (getCookie_loop nameEQ parts w) = w.
Proof.
  induction parts as [|part parts IH]; simpl; [done|].
  destruct (truthy part); simpl; [|done].
  destruct (startsWith _ _); [|done].
  by destruct (decodeURIComponent _).
Qed.

Lemma getCookie_state name w : snd (getCookie name w) = w.
Proof.
  unfold getCookie, bind, read. destruct (hasDocument w); simpl; [|done].
  apply getCookie_loop_state.
Qed.

Lemma getCookie_eq w :
  getCookie STORAGE_KEYS_CONSENT w = (cookie_text w, w).
Proof.
  unfold cookie_text. rewrite <- (getCookie_state STORAGE_KEYS_CONSENT w) at 3.
  by destruct (getCookie _ w).
Qed.

(** [load] searches the stores in the order of [cookie_then_local] and
    leaves the page as it is. *)
Lemma body_spec w :
  getConsentFromStorage_body w = (cookie_then_local w, w).
Proof.
  unfold getConsentFromStorage_body, cookie_then_local.
  unfold bind at 1. rewrite getCookie_eq.
  destruct (cookie_text w) as [text|e]; simpl; [|done].
  assert (Hlocal :
    (defined <- localStorage_defined ;;
     if defined
     then localValue <- localStorage_getItem STORAGE_KEYS_CONSENT ;;
          match localValue with
          | Some text =>
              if truthy text then parse_and_validate text else ret None
          | None => ret None
          end
     else ret None)%eff w = (consult (local_text w), w)).
  { cbv [bind localStorage_defined localStorage_getItem local_text read ret
         throw].
    destruct (localStorage w) as [| |m] eqn:Hls; simpl; try done.
    rewrite Hls. unfold read_record, parse_and_validate.
    destruct (m !! STORAGE_KEYS_CONSENT) as [t|]; simpl; [|done].
    destruct (truthy t); simpl; [|done].
    destruct (JSON_parse t) as [parsed|]; simpl; [|done].
    by destruct (ConsentStateSchema parsed). }
  unfold bind at 1. unfold read_record, parse_and_validate.
  destruct text as [t|]; simpl; [|exact Hlocal].
  destruct (truthy t); simpl; [|exact Hlocal].
  destruct (JSON_parse t) as [parsed|]; simpl; [|done].
  destruct (ConsentStateSchema parsed); simpl; [done|exact Hlocal].
Qed.

Lemma getConsentFromStorage_spec w :
  getConsentFromStorage w
  = match cookie_then_local w with
    | Return found => (Return found, w)
    | Throw e =>
        (Return None,
         log ("[CookiePot] Error reading consent from storage: " +:+ e) w)
    end.
Proof.
  unfold getConsentFromStorage, try_catch. rewrite body_spec.
  by destruct (cookie_then_local w).
Qed.

Lemma consult_no_valid stored :
  holds_no_valid_record stored →
  consult stored = Return None ∨ ∃ e, consult stored = Throw e.
Proof.
  destruct stored as [text|e]; simpl; [|by right; exists e].
  intros Hno. destruct (read_record text) as [| | |record] eqn:Hr.
  - by left.
  - right. by eexists.
  - by left.
  - by destruct (Hno record).
Qed.

Lemma consult_found stored record :
  consult stored = Return (Some record) ↔
  ∃ text, stored = Return text ∧ read_record text = Valid record.
Proof.
  destruct stored as [text|e]; simpl.
  - destruct (read_record text) eqn:Hr; split; try done.
    + intros (t & Ht & Hv). congruence.
    + intros (t & Ht & Hv). congruence.
    + intros (t & Ht & Hv). congruence.
    + intros [= ->]. by exists text.
    + intros (t & [= <-] & Hv). congruence.
  - split; [done|]. by intros (t & Ht & _).
Qed.

(** *** [save] and [clear] *)

Lemma setCookie_spec name value o w :
  ∃ assignment,
    setCookie name value o w
    = (Return tt,
       if hasDocument w
       then record (CookieAssigned assignment)
              (with_cookies
                 (jar_assign name (encodeURIComponent value) (maxAge o)
                    (cookies w)) w)
       else w).
Proof.
  unfold setCookie. cbv [bind read]. destruct (hasDocument w); simpl.
  - eexists. reflexivity.
  - by exists EmptyString.
Qed.

Lemma write_local_spec call w :
  (defined <- localStorage_defined ;; when defined (localStorage_call call))%eff
    w
  = match localStorage w with
    | Undefined => (Return tt, w)
    | Denied => (Throw "SecurityError", w)
    | Available m =>
        (Return tt,
         record (LocalStorageCalled call)
           (with_localStorage (Available (Browser.apply_call call m)) w))
    end.
Proof.
  cbv [bind localStorage_defined localStorage_call read ret throw when modify].
  destruct (localStorage w) as [| |m] eqn:Hls; simpl; try done.
  by rewrite Hls.
Qed.

Lemma write_both_spec name value o call error w :
  ∃ assignment,
    try_catch
      (setCookie name value o ;;
       defined <- localStorage_defined ;;
       when defined (localStorage_call call))%eff
      (fun e => modify (log (error +:+ e))) w
    = (Return tt,
       write_both name (encodeURIComponent value) (maxAge o) assignment call
         error w).
Proof.
  destruct (setCookie_spec name value o w) as [assignment Hset].
  exists assignment. unfold try_catch. unfold bind at 1. rewrite Hset.
  rewrite write_local_spec. unfold write_both, store_events.
  destruct w as [hw hd hm jar ls ns g tr]. simpl.
  destruct hd, ls as [| |m]; simpl; try done.
Qed.

Lemma saveConsentToStorage_spec consent o w :
  ∃ assignment,
    saveConsentToStorage consent o w
    = (Return tt,
       write_both STORAGE_KEYS_CONSENT
         (encodeURIComponent (stringify (state_json consent)))
         (Some (nullish (maxAge o) (365 * 24 * 60 * 60)%Z)) assignment
         (Browser.NativeSetItem STORAGE_KEYS_CONSENT
            (stringify (state_json consent)))
         "[CookiePot] Error saving consent to storage: " w).
Proof. unfold saveConsentToStorage. apply write_both_spec. Qed.

Lemma clearConsentFromStorage_spec cookieDomain w :
  ∃ assignment,
    clearConsentFromStorage cookieDomain w
    = (Return tt,
       write_both STORAGE_KEYS_CONSENT (encodeURIComponent EmptyString)
         (Some (-1)%Z) assignment
         (Browser.NativeRemoveItem STORAGE_KEYS_CONSENT)
         "[CookiePot] Error clearing consent from storage: " w).
Proof. unfold clearConsentFromStorage. apply write_both_spec. Qed.

Lemma store_events_local assignment call error w :
  Forall is_local_effect (store_events assignment call error w)
  ∧ Forall (fun e => match e with GtagCalled _ => False | _ => True end)
      (store_events assignment call error w).
Proof.
  unfold store_events.
  destruct (hasDocument w), (localStorage w); simpl;
    split; repeat constructor.
Qed.

Lemma write_both_frame name encoded age assignment call error w :
  let w' := write_both name encoded age assignment call error w in
  hasWindow w' = hasWindow w
  ∧ hasDocument w' = hasDocument w
  ∧ nodes w' = nodes w
  ∧ gtag w' = gtag w
  ∧ trace w' = trace w ++ store_events assignment call error w
  ∧ cookies w'
    = (if hasDocument w then jar_assign name encoded age (cookies w)
       else cookies w)
  ∧ localStorage w'
    = match localStorage w with
      | Available m => Available (Browser.apply_call call m)
      | other => other
      end.
Proof.
  intros w'. subst w'. unfold write_both.
  rewrite PageFacts.trace_record_all.
  destruct (PageFacts.record_all_frame
              (store_events assignment call error w)
              (with_localStorage
                 match localStorage w with
                 | Available m => Available (Browser.apply_call call m)
                 | other => other
                 end
                 (with_cookies
                    (if hasDocument w
                     then jar_assign name encoded age (cookies w)
                     else cookies w) w)))
    as (-> & -> & -> & -> & -> & ->).
  done.
Qed.

Lemma jar_assign_expired name encoded jar :
  name ∉ (fst <$> jar_assign name encoded (Some (-1)%Z) jar).
Proof.
  unfold jar_assign. simpl. induction jar as [|[k v] jar IH]; simpl.
  - apply not_elem_of_nil.
  - destruct (String.eqb k name) eqn:Hk; simpl; [done|].
    apply not_elem_of_cons. split; [|done].
    intros ->. by rewrite String.eqb_refl in Hk.
Qed.

Lemma jar_assign_stored name encoded age jar :
  (0 < age)%Z →
  last (jar_assign name encoded (Some age) jar) = Some (name, encoded).
Proof.
  intros Hage. unfold jar_assign.
  destruct (Z.leb_spec age 0); [lia|]. apply last_snoc.
Qed.

(** C8: [load] never throws.  When each of the two stores holds data that
    is absent, unreadable, unparseable or not valid against the schema,
    [load] returns [null]; a valid record of the cookie store is what
    [load] returns; a record that [load] returns is a valid record of the
    cookie store, or a valid record of the local store while the cookie
    store holds none.  The stores are left as they are. *)
Theorem load_never_throws w :
  (∃ found, fst (getConsentFromStorage w) = Return found)
  ∧ (holds_no_valid_record (cookie_text w) →
     holds_no_valid_record (local_text w) →
     fst (getConsentFromStorage w) = Return None)
  ∧ (∀ text record,
       cookie_text w = Return text → read_record text = Valid record →
       fst (getConsentFromStorage w) = Return (Some record))
  ∧ (∀ record,
       fst (getConsentFromStorage w) = Return (Some record) →
       (∃ text, cookie_text w = Return text
                ∧ read_record text = Valid record)
       ∨ (holds_no_valid_record (cookie_text w)
          ∧ ∃ text, local_text w = Return text
                    ∧ read_record text = Valid record))
  ∧ cookies (snd (getConsentFromStorage w)) = cookies w
  ∧ localStorage (snd (getConsentFromStorage w)) = localStorage w.
Proof.
  rewrite getConsentFromStorage_spec. unfold cookie_then_local.
  split; [|split; [|split; [|split]]].
  - destruct (consult (cookie_text w)) as [[r|]|e]; simpl; eauto.
    destruct (consult (local_text w)); simpl; eauto.
  - intros Hc Hl.
    destruct (consult_no_valid _ Hc) as [-> | [e ->]]; [|done].
    by destruct (consult_no_valid _ Hl) as [-> | [e ->]].
  - intros text record Ht Hv.
    assert (consult (cookie_text w) = Return (Some record)) as ->; [|done].
    apply consult_found. by exists text.
  - intros record.
    destruct (consult (cookie_text w)) as [[r|]|e] eqn:Hc; simpl.
    + intros [= ->]. left. by apply consult_found.
    + destruct (consult (local_text w)) as [found|e] eqn:Hl; simpl; [|done].
      intros [= ->]. right. split; [|by apply consult_found].
      destruct (cookie_text w) as [text|e]; simpl in *; [|done].
      intros r Hr. by rewrite Hr in Hc.
    + done.
  - destruct (consult (cookie_text w)) as [[r|]|e]; simpl; try done;
      by destruct (consult (local_text w)).
Qed.

End WithCodec.

Import Scenario AsciiCodec.

Lemma load_never_throws_witness :
  let w := page_with_stores (Some "invalid-json") (Some invalidConsent) in
  cookie_text w = Return (Some "invalid-json")
  ∧ local_text w = Return (Some invalidConsent)
  ∧ holds_no_valid_record (cookie_text w)
  ∧ holds_no_valid_record (local_text w)
  ∧ fst (getConsentFromStorage w) = Return None.
Proof.
  intros w.
  assert (Hc : holds_no_valid_record (cookie_text w))
    by (intros record H; vm_compute in H; discriminate H).
  assert (Hl : holds_no_valid_record (local_text w))
    by (intros record H; vm_compute in H; discriminate H).
  split; [reflexivity|]. split; [reflexivity|].
  split; [exact Hc|]. split; [exact Hl|].
  destruct (load_never_throws w) as (_ & Hnone & _).
  exact (Hnone Hc Hl).
Defined.

(** The record that [save] writes is the record that [load] reads, from
    the cookie and, without the cookie, from the local store. *)
Example save_then_load :
  let saved :=
    snd (saveConsentToStorage mockConsent no_options
           (page_with_stores None None)) in
  fst (getConsentFromStorage saved) = Return (Some mockConsent)
  ∧ fst (getConsentFromStorage (with_cookies [] saved))
    = Return (Some mockConsent).
Proof. split; vm_compute; reflexivity. Qed.

(** A cookie that does not parse ends the search: the record of the local
    store is not read. *)
Example unparseable_cookie_hides_local_record :
  fst (getConsentFromStorage
         (page_with_stores (Some "invalid-json")
            (Some (stringify (state_json mockConsent)))))
  = Return None.
Proof. vm_compute. reflexivity. Qed.

End PersistenceFacts.

(** ** The consumers of the consent *)

Module ConsumerFacts.
Import Js Types Page Eff EffFacts PageFacts.

Lemma google_updateConsent_spec g c w :
  GoogleConsentModeManager.updateConsent g c w
  = (Return tt, record_all (GoogleConsentModeManager.update_events g c w) w).
Proof.
  unfold GoogleConsentModeManager.updateConsent,
    GoogleConsentModeManager.update_events.
  cbv [bind read].
  destruct (negb (GoogleConsentModeManager.enabled g)
            || negb (GoogleConsentModeManager.isGtagAvailable w)); [done|].
  cbv [try_catch bind GoogleConsentModeManager.call_gtag read modify throw].
  by destruct (gtag w).
Qed.

Lemma call_handlers_spec event data handlers w :
  EventEmitter.call_handlers event data handlers w
  = (Return tt,
     record_all (flat_map (EventEmitter.handler_events event data) handlers)
       w).
Proof.
  revert w. induction handlers as [|h handlers IH]; intros w; simpl; [done|].
  unfold bind at 1.
  assert (EventEmitter.call_handler event data h w
          = (Return tt,
             record_all (EventEmitter.handler_events event data h) w)) as ->.
  { unfold EventEmitter.call_handler, EventEmitter.handler_events.
    cbv [try_catch bind modify throw ret].
    by destruct (EventEmitter.h_throws h). }
  by rewrite IH, record_all_app.
Qed.

Lemma emit_spec e event data w :
  EventEmitter.emit e event data w
  = (Return tt, record_all (EventEmitter.emitted e event data) w).
Proof.
  unfold EventEmitter.emit, EventEmitter.emitted.
  destruct (e !! event) as [handlers|]; simpl; [|done].
  apply call_handlers_spec.
Qed.

Lemma emitted_local e event data :
  Forall is_local_effect (EventEmitter.emitted e event data)
  ∧ Forall (fun e => match e with GtagCalled _ => False | _ => True end)
      (EventEmitter.emitted e event data).
Proof.
  unfold EventEmitter.emitted.
  induction (default [] (e !! event)) as [|h handlers [IH1 IH2]]; simpl.
  - split; constructor.
  - split; (constructor; [done|]); destruct (EventEmitter.h_throws h);
      simpl; try done; by constructor.
Qed.

Lemma update_events_local g c w :
  Forall is_local_effect (GoogleConsentModeManager.update_events g c w).
Proof.
  unfold GoogleConsentModeManager.update_events.
  destruct (_ || _); [constructor|].
  destruct (gtag w); repeat constructor.
Qed.

Section WithEngine.
Context `{E : RegExpEngine}.

Lemma with_nodes_twice n1 n2 (w : Page.t) :
  with_nodes n1 (with_nodes n2 w) = with_nodes n1 w.
Proof. reflexivity. Qed.

Lemma with_nodes_id (w : Page.t) : with_nodes (nodes w) w = w.
Proof. by destruct w. Qed.

(** To run a blocked script again changes elements only. *)
Lemma executeBlockedScript_nodes bs w :
  ∃ n, ScriptAutoBlocker.executeBlockedScript bs w = with_nodes n w.
Proof.
  unfold ScriptAutoBlocker.executeBlockedScript, createElement_script,
    replaceChild, update_node.
  simpl. destruct (nodes w !! _ ≫= parentNode); eexists; reflexivity.
Qed.

Lemma executeBlockedScripts_nodes scripts w :
  ∃ n, fold_left (fun w bs => ScriptAutoBlocker.executeBlockedScript bs w)
         scripts w
       = with_nodes n w.
Proof.
  revert w. induction scripts as [|bs scripts IH]; intros w; simpl.
  - exists (nodes w). by rewrite with_nodes_id.
  - destruct (executeBlockedScript_nodes bs w) as [n ->].
    destruct (IH (with_nodes n w)) as [n' ->]. by exists n'.
Qed.

(** [updateConsent] of the script auto-blocker takes the new consent; on
    the page it changes elements and writes to the console. *)
Lemma blocker_updateConsent_spec c (b : ScriptAutoBlocker.t) w :
  ScriptAutoBlocker.consent (fst (ScriptAutoBlocker.updateConsent c b w)) = c
  ∧ ∃ n evs,
      snd (ScriptAutoBlocker.updateConsent c b w)
      = record_all evs (with_nodes n w)
      ∧ Forall is_console evs.
Proof.
  unfold ScriptAutoBlocker.updateConsent.
  destruct (List.filter _ _) as [|cat cats]; simpl.
  - split; [done|]. exists (nodes w), []. by rewrite with_nodes_id.
  - split; [done|].
    destruct (executeBlockedScripts_nodes
                (List.filter (ScriptAutoBlocker.category_in (cat :: cats))
                   (ScriptAutoBlocker.blockedScripts b)) w) as [n Hn].
    rewrite Hn. eexists n, [_]. split; [reflexivity|]. by repeat constructor.
Qed.

End WithEngine.

End ConsumerFacts.

(** ** The client *)

Module CookiePotFacts.
Import Js Types Page Eff EffFacts PageFacts Persistence PersistenceFacts
  ConsumerFacts CookiePot.

Section WithPlatform.
Context `{E : RegExpEngine} `{C : Json.Codec}.

Lemma update_events_frame g c (w w' : Page.t) :
  hasWindow w' = hasWindow w → gtag w' = gtag w →
  GoogleConsentModeManager.update_events g c w'
  = GoogleConsentModeManager.update_events g c w.
Proof.
  intros Hw Hg.
  unfold GoogleConsentModeManager.update_events,
    GoogleConsentModeManager.isGtagAvailable.
  by rewrite Hw, Hg.
Qed.

Lemma setConsent_spec p i now (k : CookiePot.t) w :
  let c := merged p (consentState k) in
  let json := Json.stringify (Schema.state_json (record_for k c now)) in
  ∃ (k' : CookiePot.t) w_local assignment console_events,
    (∀ outcome,
       setConsent p i now outcome (k, w)
       = (Return tt,
          (k', report_settled outcome
                 (record (ConsentSubmitted (request_for k c i)) w_local))))
    ∧ consentState k' = c
    ∧ blocker_consent k' = (fun _ => c) <$> scriptAutoBlocker k
    ∧ googleConsentMode k' = googleConsentMode k
    ∧ eventEmitter k' = eventEmitter k
    ∧ config k' = config k
    ∧ trace w_local
      = trace w
        ++ store_events assignment
             (Browser.NativeSetItem STORAGE_KEYS_CONSENT json)
             "[CookiePot] Error saving consent to storage: " w
        ++ google_events k c w
        ++ console_events
        ++ EventEmitter.emitted (eventEmitter k) "consent:change" (Some c)
    ∧ Forall is_console console_events
    ∧ cookies w_local
      = (if hasDocument w
         then jar_assign STORAGE_KEYS_CONSENT (Json.encodeURIComponent json)
                (Some (cookieMaxAge (config k))) (cookies w)
         else cookies w)
    ∧ localStorage w_local
      = match localStorage w with
        | Available m => Available (<[STORAGE_KEYS_CONSENT := json]> m)
        | other => other
        end.
Proof.
  intros c json.
  destruct (saveConsentToStorage_spec (record_for k c now)
              {| domain := cookieDomain (config k);
                 maxAge := Some (cookieMaxAge (config k));
                 sameSite := None; secure := None |} w)
    as [assignment Hsave'].
  set (w1 := write_both STORAGE_KEYS_CONSENT
               (Json.encodeURIComponent json)
               (Some (cookieMaxAge (config k))) assignment
               (Browser.NativeSetItem STORAGE_KEYS_CONSENT json)
               "[CookiePot] Error saving consent to storage: " w).
  assert (Hsave :
    saveConsentToStorage (record_for k c now)
      {| domain := cookieDomain (config k);
         maxAge := Some (cookieMaxAge (config k));
         sameSite := None; secure := None |} w = (Return tt, w1))
    by exact Hsave'.
  clear Hsave'.
  destruct (write_both_frame STORAGE_KEYS_CONSENT
              (Json.encodeURIComponent json)
              (Some (cookieMaxAge (config k))) assignment
              (Browser.NativeSetItem STORAGE_KEYS_CONSENT json)
              "[CookiePot] Error saving consent to storage: " w)
    as (Hw1 & Hd1 & Hn1 & Hg1 & Ht1 & Hc1 & Hl1).
  fold w1 in Hw1, Hd1, Hn1, Hg1, Ht1, Hc1, Hl1.
  set (w2 := record_all (google_events k c w1) w1).
  assert (Hgoogle :
    match googleConsentMode k with
    | Some g => GoogleConsentModeManager.updateConsent g c w1
    | None => (Return tt, w1)
    end = (Return tt, w2)).
  { subst w2. unfold google_events.
    destruct (googleConsentMode k) as [g|]; [|done].
    apply google_updateConsent_spec. }
  assert (Hblocker : ∃ (k' : CookiePot.t) n console_events,
    match scriptAutoBlocker k with
    | Some b =>
        let '(b1, w') := ScriptAutoBlocker.updateConsent c b w2 in
        (set_scriptAutoBlocker (Some b1) (set_consentState c k), w')
    | None => (set_consentState c k, w2)
    end = (k', record_all console_events (with_nodes n w2))
    ∧ Forall is_console console_events
    ∧ consentState k' = c
    ∧ blocker_consent k' = (fun _ => c) <$> scriptAutoBlocker k
    ∧ googleConsentMode k' = googleConsentMode k
    ∧ eventEmitter k' = eventEmitter k
    ∧ config k' = config k).
  { unfold blocker_consent. destruct (scriptAutoBlocker k) as [b|] eqn:Hsab.
    - destruct (blocker_updateConsent_spec c b w2) as (Hc & n & evs & Hs & He).
      destruct (ScriptAutoBlocker.updateConsent c b w2) as [b1 w'].
      simpl in Hc, Hs. subst w'.
      eexists _, n, evs. split; [reflexivity|]. simpl. by rewrite Hc.
    - exists (set_consentState c k), (nodes w2), [].
      rewrite with_nodes_id. simpl. rewrite Hsab. by repeat split. }
  destruct Hblocker as (k' & n & console_events & Hb & Hcons & Hk').
  set (w3 := record_all console_events (with_nodes n w2)) in Hb.
  set (w4 := record_all
               (EventEmitter.emitted (eventEmitter k) "consent:change"
                  (Some c)) w3).
  exists k', w4, assignment, console_events.
  split; [|split; [|split; [|split; [|split; [|split]]]]]; try tauto.
  - intros outcome. unfold setConsent.
    cbv [bind assign modify this read ret on_snd emit try_catch submitConsent
         throw].
    cbn [fst snd set_consentState consentState visitorId sessionId config
         googleConsentMode scriptAutoBlocker eventEmitter].
    change (saveConsentToStorage _ _ w)
      with (saveConsentToStorage (record_for k c now)
              {| domain := cookieDomain (config k);
                 maxAge := Some (cookieMaxAge (config k));
                 sameSite := None; secure := None |} w).
    rewrite Hsave. cbn [fst snd].
    fold c.
    assert (Hee : eventEmitter k' = eventEmitter k) by tauto.
    destruct (googleConsentMode k) as [g|]; cbn [fst snd];
      [rewrite Hgoogle | injection Hgoogle as Hgoogle; rewrite Hgoogle];
      cbn [fst snd];
      (destruct (scriptAutoBlocker k) as [b|]; cbn [fst snd];
       [rewrite Hb | injection Hb as Hb1 Hb2; rewrite Hb1, Hb2];
       cbn [fst snd]; rewrite Hee, emit_spec; fold w4; cbn [fst snd];
       by destruct outcome).
  - assert (Hge : google_events k c w1 = google_events k c w).
    { unfold google_events. destruct (googleConsentMode k); [|done].
      by apply update_events_frame. }
    subst w4 w3 w2.
    destruct (record_all_frame
                (EventEmitter.emitted (eventEmitter k) "consent:change"
                   (Some c))
                (record_all console_events
                   (with_nodes n (record_all (google_events k c w1) w1))))
      as (_ & _ & -> & -> & _).
    destruct (record_all_frame console_events
                (with_nodes n (record_all (google_events k c w1) w1)))
      as (_ & _ & -> & -> & _).
    cbn [with_nodes cookies localStorage].
    destruct (record_all_frame (google_events k c w1) w1)
      as (_ & _ & -> & -> & _).
    rewrite !trace_record_all. cbn [with_nodes trace].
    rewrite trace_record_all, Ht1, Hge, Hc1, Hl1, <- !app_assoc.
    done.
Qed.

Lemma resetConsent_spec (k : CookiePot.t) w :
  ∃ assignment,
    resetConsent (k, w)
    = (Return tt,
       (set_consentState defaultConsent k,
        record_all
          (EventEmitter.emitted (eventEmitter k) "consent:change"
             (Some defaultConsent))
          (write_both STORAGE_KEYS_CONSENT
             (Json.encodeURIComponent EmptyString) (Some (-1)%Z) assignment
             (Browser.NativeRemoveItem STORAGE_KEYS_CONSENT)
             "[CookiePot] Error clearing consent from storage: " w))).
Proof.
  destruct (clearConsentFromStorage_spec (cookieDomain (config k)) w)
    as [assignment Hclear].
  exists assignment. unfold resetConsent.
  cbv [bind assign modify this read ret on_snd emit].
  cbn [fst snd]. rewrite Hclear.
  cbn [fst snd set_consentState consentState eventEmitter].
  by rewrite emit_spec.
Qed.

(** C1: after [setConsent], whatever the partial update and whatever it
    says about [necessary], the state in memory has [necessary] true, each
    other category that the update gives has the value given, and each
    category that the update omits has the value it had. *)
Theorem setConsent_merges p i now outcome (k : CookiePot.t) w :
  let k' := fst (snd (setConsent p i now outcome (k, w))) in
  ∀ cat,
    get (consentState k') cat
    = match cat with
      | Necessary => true
      | _ => match get_partial p cat with
             | Some supplied => supplied
             | None => get (consentState k) cat
             end
      end.
Proof.
  intros k' cat. subst k'.
  destruct (setConsent_spec p i now k w)
    as (k1 & w_local & assignment & evs & Hrun & Hc & _).
  rewrite (Hrun outcome). cbn [fst snd]. rewrite Hc.
  by destruct cat.
Qed.

(** C7: [setConsent] returns whether the report succeeds or fails.  When
    the request is submitted the state in memory is the merged one, the
    record is in the stores that exist, the adapter of Google and the
    script auto-blocker have been given the merged consent and the
    listeners have been called: all of this is in the trace before the
    request.  A failure of the request adds one line to the console and
    changes nothing else. *)
Theorem report_follows_local_update p i now (k : CookiePot.t) w :
  let c := merged p (consentState k) in
  let json := Json.stringify (Schema.state_json (record_for k c now)) in
  let request := request_for k c i in
  ∃ (k' : CookiePot.t) w_local pre before_emit,
    (∀ outcome,
       setConsent p i now outcome (k, w)
       = (Return tt,
          (k', report_settled outcome
                 (record (ConsentSubmitted request) w_local))))
    ∧ (∀ outcome,
         trace (snd (snd (setConsent p i now outcome (k, w))))
         = trace w ++ pre ++ ConsentSubmitted request
             :: match outcome with
                | Resolved => []
                | Rejected message =>
                    [Console ("[CookiePot] Failed to sync consent to backend: "
                                +:+ message)]
                end)
    ∧ trace w_local = trace w ++ pre
    ∧ Forall is_local_effect pre
    ∧ consentState k' = c
    ∧ r_categories request = c
    ∧ cookies w_local
      = (if hasDocument w
         then jar_assign STORAGE_KEYS_CONSENT (Json.encodeURIComponent json)
                (Some (cookieMaxAge (config k))) (cookies w)
         else cookies w)
    ∧ localStorage w_local
      = match localStorage w with
        | Available m => Available (<[STORAGE_KEYS_CONSENT := json]> m)
        | other => other
        end
    ∧ blocker_consent k' = (fun _ => c) <$> scriptAutoBlocker k
    ∧ pre = before_emit
            ++ EventEmitter.emitted (eventEmitter k) "consent:change" (Some c)
    ∧ google_events k c w ⊆ before_emit.
Proof.
  intros c json request.
  destruct (setConsent_spec p i now k w)
    as (k' & w_local & assignment & evs & Hrun & Hc & Hb & _ & _ & _ & Ht
        & Hevs & Hcookies & Hlocal).
  fold c json in Ht, Hcookies, Hlocal, Hb, Hc, Hrun.
  set (stored := store_events assignment
                   (Browser.NativeSetItem STORAGE_KEYS_CONSENT json)
                   "[CookiePot] Error saving consent to storage: " w) in *.
  exists k', w_local,
    (stored ++ google_events k c w ++ evs
     ++ EventEmitter.emitted (eventEmitter k) "consent:change" (Some c)),
    (stored ++ google_events k c w ++ evs).
  split; [exact Hrun|].
  split.
  { intros outcome. rewrite (Hrun outcome). cbn [fst snd].
    destruct outcome; simpl; rewrite Ht, <- !app_assoc; done. }
  split; [exact Ht|].
  split.
  { apply Forall_app_2; [apply store_events_local|].
    apply Forall_app_2.
    { unfold google_events. destruct (googleConsentMode k); [|constructor].
      apply update_events_local. }
    apply Forall_app_2; [|apply emitted_local].
    eapply Forall_impl; [exact Hevs|]. by intros []. }
  repeat (split; [done|]).
  split; [by rewrite <- !app_assoc|].
  intros e He. apply elem_of_app. right. apply elem_of_app. by left.
Qed.

(** C10: [resetConsent] returns, clears the record from the cookies and
    from the local store, sets the state in memory to the defaults and
    calls the listeners of the change with them.  It gives nothing to the
    script auto-blocker and to the adapter of Google: the auto-blocker
    keeps the consent it held, the elements of the document stay as they
    are and no call of [gtag] is added.  The next [setConsent] gives the
    auto-blocker the consent merged over the defaults. *)
Theorem resetConsent_skips_consumers (k : CookiePot.t) w :
  let k' := fst (snd (resetConsent (k, w))) in
  let w' := snd (snd (resetConsent (k, w))) in
  fst (resetConsent (k, w)) = Return tt
  ∧ consentState k' = defaultConsent
  ∧ (STORAGE_KEYS_CONSENT ∉ (fst <$> cookie_jar w'))
  ∧ match localStorage w' with
    | Available m => m !! STORAGE_KEYS_CONSENT = None
    | _ => True
    end
  ∧ (∃ cleared,
       trace w'
       = trace w ++ cleared
         ++ EventEmitter.emitted (eventEmitter k) "consent:change"
              (Some defaultConsent))
  ∧ scriptAutoBlocker k' = scriptAutoBlocker k
  ∧ blocker_consent k' = blocker_consent k
  ∧ googleConsentMode k' = googleConsentMode k
  ∧ dataLayer w' = dataLayer w
  ∧ nodes w' = nodes w
  ∧ (∀ p i now outcome,
       blocker_consent (fst (snd (setConsent p i now outcome (k', w'))))
       = (fun _ => merged p defaultConsent) <$> scriptAutoBlocker k).
Proof.
  intros k' w'. subst k' w'.
  destruct (resetConsent_spec k w) as [assignment ->]. cbn [fst snd].
  set (w1 := write_both _ _ _ _ _ _ w).
  destruct (write_both_frame STORAGE_KEYS_CONSENT
              (Json.encodeURIComponent EmptyString) (Some (-1)%Z) assignment
              (Browser.NativeRemoveItem STORAGE_KEYS_CONSENT)
              "[CookiePot] Error clearing consent from storage: " w)
    as (Hw1 & Hd1 & Hn1 & Hg1 & Ht1 & Hc1 & Hl1).
  fold w1 in Hw1, Hd1, Hn1, Hg1, Ht1, Hc1, Hl1.
  set (evs := EventEmitter.emitted (eventEmitter k) "consent:change"
                (Some defaultConsent)).
  destruct (record_all_frame evs w1) as (Hw2 & Hd2 & Hc2 & Hl2 & Hn2 & Hg2).
  split; [done|]. split; [done|].
  split.
  { unfold cookie_jar. rewrite Hd2, Hc2, Hd1, Hc1.
    destruct (hasDocument w); [|apply not_elem_of_nil].
    apply jar_assign_expired. }
  split.
  { rewrite Hl2, Hl1. destruct (localStorage w) as [| |m]; try done.
    apply lookup_delete_eq. }
  split.
  { eexists. by rewrite trace_record_all, Ht1, <- app_assoc. }
  split; [done|]. split; [done|]. split; [done|].
  split.
  { unfold dataLayer at 1. rewrite trace_record_all, Ht1, <- app_assoc.
    apply dataLayer_app. apply Forall_app_2.
    - apply store_events_local.
    - apply emitted_local. }
  split; [by rewrite Hn2, Hn1|].
  intros p i now outcome.
  destruct (setConsent_spec p i now (set_consentState defaultConsent k)
              (record_all evs w1))
    as (k2 & w_local & a2 & evs2 & Hrun & _ & Hb & _).
  rewrite (Hrun outcome). cbn [fst snd]. exact Hb.
Qed.

End WithPlatform.

Import Scenario LiteralEngine AsciiCodec.

(** A caller that asks for [necessary: false] gets [necessary: true]; the
    categories that it leaves out stay. *)
Example setConsent_keeps_necessary :
  consentState
    (fst (snd (setConsent marketing_only accept_selected "2026-01-27"
                 Resolved (client, page_with_stores None None))))
  = {| necessary := true; analytics := true; marketing := true;
       preferences := false |}.
Proof. vm_compute. reflexivity. Qed.

(** After a reset the script auto-blocker still holds the consent that was
    granted before, and the state of the client is the default one. *)
Example resetConsent_leaves_blocker :
  let k' := fst (snd (resetConsent (client, page_with_stores None None))) in
  consentState k' = defaultConsent
  ∧ blocker_consent k' = Some analyticsGranted.
Proof. split; vm_compute; reflexivity. Qed.

(** The trace of a [setConsent] whose report fails: the cookie, the local
    store, [gtag] and its line, the line of the auto-blocker, the listener,
    the request, the line of the failure. *)
Example setConsent_trace_on_failure :
  map (fun e => match e with
                | Console _ => "console"
                | CookieAssigned _ => "cookie"
                | LocalStorageCalled _ => "localStorage"
                | GtagCalled _ => "gtag"
                | HandlerCalled _ _ _ => "handler"
                | ConsentSubmitted _ => "submit"
                end)
    (trace (snd (snd (setConsent marketing_only accept_selected "2026-01-27"
                        (Rejected "NETWORK_ERROR")
                        (client, page_with_stores None None)))))
  = ["cookie"; "localStorage"; "gtag"; "console"; "console"; "handler";
     "submit"; "console"].
Proof. vm_compute. reflexivity. Qed.

End CookiePotFacts.

(** ** The storage blocker as the page meets it *)

Module InterceptionFacts.
Import Js Types Browser StorageBlocker StorageBlockerFacts.

Section WithEngine.
Context `{E : RegExpEngine}.

Implicit Types (b : StorageBlocker.t) (w : Browser.t)
  (op : QueuedStorageOperation) (q : list QueuedStorageOperation).

(** *** What no call changes *)

Lemma step_tables s s' :
  step s s' →
  b_patterns (fst s') = b_patterns (fst s)
  ∧ b_allowedKeys (fst s') = b_allowedKeys (fst s)
  ∧ config (fst s') = config (fst s).
Proof.
  destruct 1 as [b w|b w|c b w|ty k v now b w|ty k now b w|ty now b w];
    simpl;
    unfold start, stop, updateConsent, Storage_setItem, wrapped_setItem,
      Storage_removeItem, wrapped_removeItem, Storage_clear, wrapped_clear;
    rewrite ?processQueue_spec;
    repeat match goal with
           | |- context [if ?c then _ else _] => destruct c; simpl
           end; done.
Qed.

(** The tables of a blocker that a program can see are the ones that the
    constructor has built from the configuration. *)
Lemma reachable_tables s :
  reachable s →
  b_patterns (fst s)
  = defaultStoragePatterns ++ nullish (patterns (config (fst s))) []
  ∧ b_allowedKeys (fst s)
    = PRegExp (regexp_literal "^cookiepot_")
      :: nullish (allowedKeys (config (fst s))) [].
Proof.
  induction 1 as [cfg c w|s s' _ IH Hstep]; [done|].
  destruct (step_tables _ _ Hstep) as (-> & -> & ->). exact IH.
Qed.

Lemma debug_log_frame b msg w :
  localStorage (debug_log b msg w) = localStorage w
  ∧ sessionStorage (debug_log b msg w) = sessionStorage w
  ∧ native_calls (debug_log b msg w) = native_calls w
  ∧ console (debug_log b msg w)
    = console w ++ (if debugging b then [msg] else []).
Proof.
  unfold debug_log. destruct (debugging b); simpl; [done|].
  by rewrite app_nil_r.
Qed.

Lemma area_native ty c w :
  area ty (native ty c w) = apply_call c (area ty w).
Proof. by destruct ty. Qed.

Lemma area_debug_log ty b msg w : area ty (debug_log b msg w) = area ty w.
Proof. unfold debug_log. by destruct (debugging b), ty. Qed.

(** *** Keys of the allow-list *)

Lemma isAllowed_string b k :
  PString k ∈ b_allowedKeys b → isAllowed b k = true.
Proof.
  intros Hin. unfold isAllowed. apply existsb_exists.
  exists (PString k). split; [by apply list_elem_of_In|].
  apply String.eqb_refl.
Qed.

(** X1: a key that the configuration lists as a string among the allowed
    keys is never blocked.  On every active blocker that a program can
    see, whatever the consent and whatever the patterns, [setItem] on that
    key stores the value at once, [removeItem] removes it at once, and the
    queue stays as it is. *)
Theorem allowed_key_is_never_blocked ty k v now b w :
  reachable (b, w) → active b = true →
  PString k ∈ nullish (allowedKeys (config b)) [] →
  Storage_setItem ty k v now b w = (b, native ty (NativeSetItem k v) w)
  ∧ area ty (snd (Storage_setItem ty k v now b w)) !! k = Some v
  ∧ Storage_removeItem ty k now b w = (b, native ty (NativeRemoveItem k) w)
  ∧ area ty (snd (Storage_removeItem ty k now b w)) !! k = None.
Proof.
  intros Hr Ha Hk.
  destruct (reachable_tables _ Hr) as [_ Hallowed]. simpl in Hallowed.
  assert (Hyes : isAllowed b k = true).
  { apply isAllowed_string. rewrite Hallowed. by right. }
  unfold Storage_setItem, Storage_removeItem, wrapped_setItem,
    wrapped_removeItem.
  rewrite Ha, Hyes. simpl. rewrite !area_native. simpl.
  split; [done|]. split; [apply lookup_insert_eq|].
  split; [done|]. apply lookup_delete_eq.
Qed.

(** *** Writes without consent *)

(** X2: while the blocker is active, [setItem] and [removeItem] reach the
    native method exactly when the key is allowed or its category has
    consent.  Otherwise neither area changes and no native method is
    called: the operation is put last in the queue with the category of
    its key, or, when queueing is disabled, it is dropped; the console
    gets a line only in debug mode. *)
Theorem write_needs_consent_of_its_category ty k v now b w :
  active b = true →
  let cat := categorizeKey b k in
  let pass := isAllowed b k || hasConsent b cat in
  let set_op :=
    {| type := SetItem; storageType := ty; key := Some k; value := Some v;
       op_category := cat; timestamp := now |} in
  let remove_op :=
    {| type := RemoveItem; storageType := ty; key := Some k; value := None;
       op_category := cat; timestamp := now |} in
  let s := Storage_setItem ty k v now b w in
  let r := Storage_removeItem ty k now b w in
  native_calls (snd s)
  = native_calls w ++ (if pass then [(ty, NativeSetItem k v)] else [])
  ∧ native_calls (snd r)
    = native_calls w ++ (if pass then [(ty, NativeRemoveItem k)] else [])
  ∧ (pass = false →
     localStorage (snd s) = localStorage w
     ∧ sessionStorage (snd s) = sessionStorage w
     ∧ localStorage (snd r) = localStorage w
     ∧ sessionStorage (snd r) = sessionStorage w
     ∧ queue (fst s)
       = (if queueing b then enqueue (capacity b) (queue b) set_op
          else queue b)
     ∧ queue (fst r)
       = (if queueing b then enqueue (capacity b) (queue b) remove_op
          else queue b)
     ∧ (queueing b = true →
        last (queue (fst s)) = Some set_op
        ∧ last (queue (fst r)) = Some remove_op)).
Proof.
  intros Ha cat pass set_op remove_op s r.
  subst s r pass set_op remove_op cat.
  unfold Storage_setItem, Storage_removeItem, wrapped_setItem,
    wrapped_removeItem.
  rewrite Ha.
  destruct (isAllowed b k); simpl.
  { split; [done|]. split; [done|]. intros; congruence. }
  destruct (hasConsent b (categorizeKey b k)); simpl.
  { split; [done|]. split; [done|]. intros; congruence. }
  set (m1 := blocked_message ty _ _). set (m2 := blocked_message ty _ _).
  destruct (debug_log_frame b m1 w) as (Hl1 & Hs1 & Hn1 & _).
  destruct (debug_log_frame b m2 w) as (Hl2 & Hs2 & Hn2 & _).
  rewrite Hn1, Hn2, app_nil_r.
  split; [done|]. split; [done|]. intros _.
  repeat (split; [done|]).
  split; [by destruct (queueing b)|].
  split; [by destruct (queueing b)|].
  intros ->. simpl. unfold enqueue. by rewrite !last_snoc.
Qed.

(** *** The replay, seen from the page *)

Lemma replay_eq c b w :
  updateConsent c b w
  = (set_queue
       (List.filter (fun op => negb (granted c (op_category op))) (queue b))
       (set_consent c b),
     fold_left (fun w op => executeOperation b op w)
       (List.filter (fun op => granted c (op_category op)) (queue b)) w).
Proof.
  unfold updateConsent. rewrite processQueue_spec, replay_spec. done.
Qed.

Lemma filter_snoc_true (P : QueuedStorageOperation → bool) q op :
  P op = true → List.filter P (q ++ [op]) = List.filter P q ++ [op].
Proof. intros H. rewrite List.filter_app. simpl. by rewrite H. Qed.

Lemma filter_snoc_false (P : QueuedStorageOperation → bool) q op :
  P op = false → List.filter P (q ++ [op]) = List.filter P q.
Proof.
  intros H. rewrite List.filter_app. simpl. rewrite H. apply app_nil_r.
Qed.

(** X3: a write that was blocked takes effect when consent comes.  On a
    started blocker that queues, [setItem] on a key whose category lacks
    consent stores nothing; the next [updateConsent] that grants the
    category stores the value under the key, by the last native call that
    it makes, and the operation is no longer in the queue. *)
Theorem blocked_write_is_stored_when_consent_comes
    ty k v now (c : ConsentCategories) b w :
  started b → queueing b = true → isAllowed b k = false →
  hasConsent b (categorizeKey b k) = false →
  granted c (categorizeKey b k) = true →
  let s1 := Storage_setItem ty k v now b w in
  let s2 := updateConsent c (fst s1) (snd s1) in
  area ty (snd s1) = area ty w
  ∧ native_calls (snd s1) = native_calls w
  ∧ area ty (snd s2) !! k = Some v
  ∧ last (native_calls (snd s2)) = Some (ty, NativeSetItem k v)
  ∧ Forall (fun op => granted c (op_category op) = false) (queue (fst s2)).
Proof.
  intros (Ha & Hl & Hs) Hq Hno Hcat Hc s1 s2. subst s2 s1.
  unfold Storage_setItem, wrapped_setItem.
  rewrite Ha, Hno, Hcat, Hq. cbn [fst snd].
  set (op := {| type := SetItem; storageType := ty; key := Some k;
                value := Some v; op_category := categorizeKey b k;
                timestamp := now |}).
  set (w1 := debug_log b _ w).
  split; [apply area_debug_log|].
  split; [apply debug_log_frame|].
  rewrite replay_eq. cbn [fst snd].
  change (queue (queueOperation op b)) with (enqueue (capacity b) (queue b) op).
  unfold enqueue.
  set (kept := if (capacity b <=? Z.of_nat (length (queue b)))%Z
               then tail (queue b) else queue b).
  rewrite filter_snoc_true by exact Hc.
  rewrite filter_snoc_false by (simpl; by rewrite Hc).
  rewrite fold_left_app. cbn [fold_left].
  rewrite executeOperation_started by done.
  change (call_of op) with (Some (ty, NativeSetItem k v)).
  unfold perform. cbn [fst snd].
  split; [rewrite area_native; apply lookup_insert_eq|].
  split; [simpl; apply last_snoc|].
  clear. induction kept as [|o kept IH]; simpl; [constructor|].
  destruct (granted c (op_category o)) eqn:Hg; simpl; [done|].
  by constructor.
Qed.

(** X4: with a capacity of one or more, the queue of a blocker that a
    program can see never holds more operations than the capacity, whatever
    has been called and in whatever order; without a configured size the
    bound is 100. *)
Theorem queue_never_exceeds_capacity b w :
  reachable (b, w) → (1 ≤ capacity b)%Z →
  (Z.of_nat (length (getQueue b)) ≤ capacity b)%Z
  ∧ (maxQueueSize (config b) = None → (length (getQueue b) ≤ 100)%nat).
Proof.
  intros Hr Hcap.
  pose proof (reachable_queue_bounded _ Hr Hcap) as Hb. simpl in Hb.
  split; [exact Hb|].
  intros Hnone. unfold capacity in Hb. rewrite Hnone in Hb. simpl in Hb.
  unfold getQueue. lia.
Qed.

Lemma omap_callable q :
  Forall callable q →
  Forall2 (fun op call => call_of op = Some call) q (omap call_of q).
Proof.
  induction 1 as [|op q [call Hop] _ IH]; simpl; [constructor|].
  rewrite Hop. by constructor.
Qed.

(** X5: no operation is lost by a replay on an active blocker.  On every
    active blocker that a program can see, [updateConsent] makes one native
    call for each queued operation whose category the new consent grants,
    in the order of the queue, and keeps the others: each operation of the
    queue is either run or still queued. *)
Theorem active_replay_loses_no_operation (c : ConsentCategories) b w :
  reachable (b, w) → active b = true →
  let run := fun op => granted c (op_category op) in
  let b' := fst (updateConsent c b w) in
  let w' := snd (updateConsent c b w) in
  ∃ calls,
    native_calls w' = native_calls w ++ calls
    ∧ Forall2 (fun op call => call_of op = Some call)
        (List.filter run (queue b)) calls
    ∧ queue b' = List.filter (fun op => negb (run op)) (queue b)
    ∧ length (queue b') + length calls = length (queue b).
Proof.
  intros Hr Ha run b' w'. subst b' w'.
  destruct (reachable_active_started b w Hr Ha) as (_ & Hl & Hs).
  destruct (reachable_consistent _ Hr) as [_ Hq]. simpl in Hq.
  rewrite replay_eq. cbn [fst snd].
  rewrite fold_perform by done.
  exists (omap call_of (List.filter run (queue b))).
  split; [apply native_calls_fold|].
  assert (H2 : Forall2 (fun op call => call_of op = Some call)
                 (List.filter run (queue b))
                 (omap call_of (List.filter run (queue b))))
    by (apply omap_callable; by apply filter_callable).
  split; [exact H2|]. split; [done|].
  rewrite <- (Forall2_length _ _ _ H2). simpl.
  clear. subst run. induction (queue b) as [|op q IH]; simpl; [done|].
  destruct (granted c (op_category op)); simpl; lia.
Qed.

Lemma filter_twice (P : QueuedStorageOperation → bool) q :
  List.filter P (List.filter (fun op => negb (P op)) q) = []
  ∧ List.filter (fun op => negb (P op)) (List.filter (fun op => negb (P op)) q)
    = List.filter (fun op => negb (P op)) q.
Proof.
  induction q as [|op q [IH1 IH2]]; simpl; [done|].
  destruct (P op) eqn:HP; simpl; [done|].
  rewrite HP. simpl. by rewrite IH1, IH2.
Qed.

(** X6: a replay is idempotent.  After [updateConsent] with some consent,
    a second [updateConsent] with the same consent changes neither the
    blocker nor the browser: what could run has run, or has been discarded
    by a stopped blocker. *)
Theorem updateConsent_twice_is_once (c : ConsentCategories) b w :
  let s1 := updateConsent c b w in
  updateConsent c (fst s1) (snd s1) = s1.
Proof.
  intros s1. subst s1. rewrite (replay_eq c b w). cbn [fst snd].
  rewrite replay_eq. cbn [fst snd queue set_queue set_consent].
  destruct (filter_twice (fun op => granted c (op_category op)) (queue b))
    as [-> ->].
  reflexivity.
Qed.

Lemma executeOperation_console b op w :
  console (executeOperation b op w) = console w.
Proof.
  unfold executeOperation.
  destruct (storageType op), (origLocal b), (origSession b), (type op),
    (key op), (value op); reflexivity.
Qed.

(** X7: [updateConsent] writes nothing to the console, with or without
    the debug mode: the line about the processed operations depends on a
    comparison of the new queue with itself. *)
Theorem updateConsent_is_silent (c : ConsentCategories) b w :
  console (snd (updateConsent c b w)) = console w.
Proof.
  rewrite replay_eq. cbn [fst snd].
  generalize (List.filter (fun op => granted c (op_category op)) (queue b)).
  intros l. revert w. induction l as [|op l IH]; intros w; simpl; [done|].
  by rewrite IH, executeOperation_console.
Qed.

Lemma categorize_app (t1 t2 : list StoragePattern) k :
  categorize (t1 ++ t2) k
  = match List.find (fun p => pattern_matches (pattern p) k) t1 with
    | Some p => category p
    | None => categorize t2 k
    end.
Proof.
  induction t1 as [|p t1 IH]; simpl; [done|].
  by destruct (pattern_matches (pattern p) k).
Qed.

(** X8: the patterns of the configuration come after the built-in ones.
    On every blocker that a program can see, a key that a built-in pattern
    matches has the category of the first such pattern, whatever the
    configuration says; the patterns of the configuration decide, in their
    order, for the other keys only. *)
Theorem builtin_patterns_come_first k b w :
  reachable (b, w) →
  categorizeKey b k
  = match List.find (fun p => pattern_matches (pattern p) k)
            defaultStoragePatterns with
    | Some p => category p
    | None => categorize (nullish (patterns (config b)) []) k
    end.
Proof.
  intros Hr. destruct (reachable_tables _ Hr) as [Hp _].
  cbn [fst] in Hp. unfold categorizeKey. rewrite Hp. apply categorize_app.
Qed.

(** *** The scan *)

Lemma wrapper_calls ty k v now b w :
  active b = true →
  let pass := isAllowed b k || hasConsent b (categorizeKey b k) in
  native_calls (snd (Storage_setItem ty k v now b w))
  = native_calls w ++ (if pass then [(ty, NativeSetItem k v)] else [])
  ∧ native_calls (snd (Storage_removeItem ty k now b w))
    = native_calls w ++ (if pass then [(ty, NativeRemoveItem k)] else []).
Proof.
  intros Ha pass. subst pass.
  unfold Storage_setItem, Storage_removeItem, wrapped_setItem,
    wrapped_removeItem.
  rewrite Ha.
  destruct (isAllowed b k); simpl; [done|].
  destruct (hasConsent b (categorizeKey b k)); simpl; [done|].
  unfold debug_log. destruct (debugging b); simpl; by rewrite app_nil_r.
Qed.

Lemma storage_keys_spec (m : gmap string string) k :
  k ∈ storage_keys m ↔ is_Some (m !! k).
Proof.
  unfold storage_keys. rewrite list_elem_of_fmap. split.
  - intros ([k' v] & -> & Hin). apply elem_of_map_to_list in Hin. by exists v.
  - intros [v Hv]. exists (k, v). split; [done|].
    by apply elem_of_map_to_list.
Qed.

Lemma scanStorage_keys b (m : gmap string string) :
  i_key <$> scanStorage b m = storage_keys m.
Proof.
  unfold scanStorage.
  induction (storage_keys m) as [|k l IH]; simpl; [done|]. by f_equal.
Qed.

(** X9: [scan] reports each key of an area once.  A key is in the report
    of an area exactly when the area holds it, no key is reported twice,
    and the size of an item is the size in bytes of the value that the
    area holds for its key. *)
Theorem scan_reports_each_key_once b now w :
  let r := scan b now w in
  (∀ k, k ∈ i_key <$> scan_localStorage r ↔ is_Some (localStorage w !! k))
  ∧ (∀ k, k ∈ i_key <$> scan_sessionStorage r
          ↔ is_Some (sessionStorage w !! k))
  ∧ NoDup (i_key <$> scan_localStorage r)
  ∧ NoDup (i_key <$> scan_sessionStorage r)
  ∧ (∀ item, item ∈ scan_localStorage r →
       ∃ v, localStorage w !! i_key item = Some v
            ∧ i_size item = blob_size v)
  ∧ (∀ item, item ∈ scan_sessionStorage r →
       ∃ v, sessionStorage w !! i_key item = Some v
            ∧ i_size item = blob_size v).
Proof.
  intros r. subst r. simpl. rewrite !scanStorage_keys.
  assert (Hitem : ∀ (m : gmap string string) item,
            item ∈ scanStorage b m →
            ∃ v, m !! i_key item = Some v ∧ i_size item = blob_size v).
  { intros m item Hin. unfold scanStorage in Hin.
    apply list_elem_of_fmap in Hin as (k & -> & Hk). simpl.
    apply storage_keys_spec in Hk as [v Hv]. exists v. by rewrite Hv. }
  split; [intros k; apply storage_keys_spec|].
  split; [intros k; apply storage_keys_spec|].
  split; [apply NoDup_fst_map_to_list|].
  split; [apply NoDup_fst_map_to_list|].
  split; apply Hitem.
Qed.

(** X10: [scan] reports a key under the category that the wrappers
    enforce.  For every item of a report, on the active blocker, [setItem]
    and [removeItem] on the key of the item reach the native method exactly
    when the category of the item has consent; an item is reported as
    necessary when its key is allowed, and its description is the one of
    the first pattern that matches the key. *)
Theorem scan_category_is_the_enforced_one
    b (m : gmap string string) item ty v now w :
  active b = true → item ∈ scanStorage b m →
  let k := i_key item in
  native_calls (snd (Storage_setItem ty k v now b w))
  = native_calls w
    ++ (if hasConsent b (i_category item) then [(ty, NativeSetItem k v)]
        else [])
  ∧ native_calls (snd (Storage_removeItem ty k now b w))
    = native_calls w
      ++ (if hasConsent b (i_category item) then [(ty, NativeRemoveItem k)]
          else [])
  ∧ i_category item
    = (if isAllowed b k then Necessary else categorizeKey b k)
  ∧ i_description item
    = List.find (fun p => pattern_matches (pattern p) k) (b_patterns b)
      ≫= description.
Proof.
  intros Ha Hin k. subst k. unfold scanStorage in Hin.
  apply list_elem_of_fmap in Hin as (k & -> & _). simpl.
  destruct (wrapper_calls ty k v now b w Ha) as (Hs & Hr).
  rewrite Hs, Hr.
  destruct (isAllowed b k); simpl; done.
Qed.

(** *** Blockers that a program can see *)

Lemma reachable_start cfg (c : ConsentCategories) w :
  reachable (start (constructor cfg c) w).
Proof. eapply reachable_step; [apply reachable_new | apply step_start]. Qed.

Lemma reachable_setItem ty k v now s :
  reachable s → reachable (Storage_setItem ty k v now (fst s) (snd s)).
Proof.
  intros Hr. eapply reachable_step; [exact Hr|]. destruct s.
  apply step_setItem.
Qed.

End WithEngine.

Import Scenario LiteralEngine.

Lemma allowed_key_is_never_blocked_witness :
  let s := start (constructor config_with_allowedKeys defaultConsent)
             empty_browser in
  reachable s ∧ active (fst s) = true
  ∧ Browser.localStorage
      (snd (Storage_setItem LocalStorage "my_app_key" "value1" 1
              (fst s) (snd s))) !! "my_app_key"
    = Some "value1".
Proof.
  intros s.
  assert (Hr : reachable (fst s, snd s))
    by exact (reachable_start config_with_allowedKeys defaultConsent
                empty_browser).
  assert (Ha : active (fst s) = true) by reflexivity.
  assert (Hk : PString "my_app_key"
               ∈ nullish (allowedKeys (config (fst s))) [])
    by apply list_elem_of_here.
  split; [exact Hr|]. split; [exact Ha|].
  destruct (allowed_key_is_never_blocked LocalStorage "my_app_key" "value1" 1
              (fst s) (snd s) Hr Ha Hk) as (_ & H & _).
  exact H.
Defined.

Lemma write_needs_consent_of_its_category_witness :
  let b := fst started_blocker in
  let w := snd started_blocker in
  let s := Storage_setItem LocalStorage "_ga_test" "value" 1 b w in
  active b = true
  ∧ native_calls (snd s) = []
  ∧ Browser.localStorage (snd s) = ∅
  ∧ map (fun op => (key op, op_category op)) (queue (fst s))
    = [(Some "_ga_test", Analytics)].
Proof.
  intros b w s.
  assert (Ha : active b = true) by reflexivity.
  split; [exact Ha|].
  destruct (write_needs_consent_of_its_category LocalStorage "_ga_test"
              "value" 1 b w Ha) as (Hcalls & _ & Hblocked).
  destruct (Hblocked eq_refl) as (Hl & _ & _ & _ & Hq & _).
  split; [|split].
  - subst s. rewrite Hcalls. reflexivity.
  - subst s. rewrite Hl. reflexivity.
  - subst s. rewrite Hq. reflexivity.
Defined.

Lemma blocked_write_is_stored_when_consent_comes_witness :
  let b := fst started_blocker in
  let w := snd started_blocker in
  let s1 := Storage_setItem LocalStorage "_ga_deferred" "deferred_value" 1
              b w in
  let s2 := updateConsent analyticsGranted (fst s1) (snd s1) in
  started b
  ∧ Browser.localStorage (snd s1) !! "_ga_deferred" = None
  ∧ Browser.localStorage (snd s2) !! "_ga_deferred" = Some "deferred_value".
Proof.
  intros b w s1 s2.
  assert (Hs : started b) by (repeat split).
  split; [exact Hs|].
  destruct (blocked_write_is_stored_when_consent_comes LocalStorage
              "_ga_deferred" "deferred_value" 1 analyticsGranted b w Hs
              eq_refl eq_refl eq_refl eq_refl) as (H1 & _ & H2 & _).
  split.
  - subst s1. change (Browser.localStorage ?x) with (area LocalStorage x).
    rewrite H1. reflexivity.
  - exact H2.
Defined.

Lemma blocker_with_queue_reachable : reachable blocker_with_queue.
Proof.
  exact (reachable_setItem LocalStorage "_fbp_test" "value" 2 _
           (reachable_setItem LocalStorage "_ga_deferred" "deferred_value" 1
              _ (reachable_start defaultConfig defaultConsent
                   empty_browser))).
Qed.

Lemma queue_never_exceeds_capacity_witness :
  let b := fst blocker_with_queue in
  let w := snd blocker_with_queue in
  reachable (b, w) ∧ (1 ≤ capacity b)%Z
  ∧ (Z.of_nat (length (getQueue b)) ≤ 100)%Z.
Proof.
  intros b w.
  assert (Hr : reachable (b, w)) by exact blocker_with_queue_reachable.
  assert (Hcap : (1 ≤ capacity b)%Z) by (vm_compute; congruence).
  split; [exact Hr|]. split; [exact Hcap|].
  destruct (queue_never_exceeds_capacity b w Hr Hcap) as [H _]. exact H.
Defined.

Lemma active_replay_loses_no_operation_witness :
  let b := fst blocker_with_queue in
  let w := snd blocker_with_queue in
  let b' := fst (updateConsent analyticsGranted b w) in
  let w' := snd (updateConsent analyticsGranted b w) in
  reachable (b, w) ∧ active b = true
  ∧ map key (queue b') = [Some "_fbp_test"]
  ∧ ∃ calls, native_calls w' = native_calls w ++ calls ∧ length calls = 1.
Proof.
  intros b w b' w'.
  assert (Hr : reachable (b, w)) by exact blocker_with_queue_reachable.
  assert (Ha : active b = true) by reflexivity.
  split; [exact Hr|]. split; [exact Ha|].
  destruct (active_replay_loses_no_operation analyticsGranted b w Hr Ha)
    as (calls & Hn & H2 & Hq & _).
  split.
  - subst b'. rewrite Hq. reflexivity.
  - exists calls. split; [exact Hn|].
    rewrite <- (Forall2_length _ _ _ H2). reflexivity.
Defined.

Lemma builtin_patterns_come_first_witness :
  let s := start (constructor config_overriding_ga defaultConsent)
             empty_browser in
  reachable (fst s, snd s)
  ∧ categorizeKey (fst s) "_ga_test" = Analytics
  ∧ categorizeKey (fst s) "_gb_test" = Marketing.
Proof.
  intros s.
  assert (Hr : reachable (fst s, snd s))
    by exact (reachable_start config_overriding_ga defaultConsent
                empty_browser).
  split; [exact Hr|]. split.
  - rewrite (builtin_patterns_come_first "_ga_test" (fst s) (snd s) Hr).
    reflexivity.
  - rewrite (builtin_patterns_come_first "_gb_test" (fst s) (snd s) Hr).
    reflexivity.
Defined.

Lemma scan_category_is_the_enforced_one_witness :
  let b := fst started_blocker in
  let w := snd started_blocker in
  let item := {| i_key := "_ga_test"; i_size := 8; i_category := Analytics;
                 i_description := Some "Google Analytics" |} in
  active b = true
  ∧ item ∈ scanStorage b (Browser.localStorage browser_to_scan)
  ∧ native_calls (snd (Storage_setItem LocalStorage "_ga_test" "v" 1 b w))
    = [].
Proof.
  intros b w item.
  assert (Ha : active b = true) by reflexivity.
  assert (Hin : item ∈ scanStorage b (Browser.localStorage browser_to_scan)).
  { apply list_elem_of_In. vm_compute. auto 10. }
  split; [exact Ha|]. split; [exact Hin|].
  destruct (scan_category_is_the_enforced_one b _ item LocalStorage "v" 1 w
              Ha Hin) as (H & _).
  exact H.
Defined.

(** The test of the scan: three items for the local area, one for the
    session area, each with its category. *)
Example scan_test :
  let r := scan (constructor defaultConfig defaultConsent) "2026-01-27"
             browser_to_scan in
  length (scan_localStorage r) = 3
  ∧ map (fun i => (i_key i, i_category i, i_description i))
      (scan_sessionStorage r)
    = [("amplitude_session", Analytics, Some "Amplitude")]
  ∧ forallb
      (fun i => bool_decide
                  ((i_key i, i_category i)
                   ∈ [("_ga_test", Analytics); ("_fbp_test", Marketing);
                      ("cookiepot_consent", Necessary)]))
      (scan_localStorage r) = true.
Proof. split; [|split]; vm_compute; reflexivity. Qed.

(** The test of the debug mode: the three blocked calls are reported, and
    so are the start and the stop. *)
Example debug_mode_test :
  let cfg := {| enabled := true; patterns := None; allowedKeys := None;
                queueOperations := None; maxQueueSize := None;
                debug := Some true |} in
  let '(b0, w0) := start (constructor cfg defaultConsent) empty_browser in
  let '(b1, w1) := Storage_setItem LocalStorage "_ga_debug" "value" 1 b0 w0 in
  let '(b2, w2) := Storage_removeItem LocalStorage "_ga_debug" 2 b1 w1 in
  let '(b3, w3) := Storage_clear LocalStorage 3 b2 w2 in
  let '(b4, w4) := stop b3 w3 in
  Browser.console w4
  = [ "[CookiePot] Storage blocker started";
      "[CookiePot] Blocked localStorage.setItem(" +:+ dquote +:+ "_ga_debug"
        +:+ dquote +:+ ") - requires analytics consent";
      "[CookiePot] Blocked localStorage.removeItem(" +:+ dquote
        +:+ "_ga_debug" +:+ dquote +:+ ") - requires analytics consent";
      "[CookiePot] Blocked localStorage.clear() - requires marketing consent";
      "[CookiePot] Storage blocker stopped" ].
Proof. vm_compute. reflexivity. Qed.

End InterceptionFacts.

(** ** The script auto-blocker over time *)

Module ScriptBlockerFacts.
Import Js Types Page ScriptAutoBlocker ClassifierFacts PageFacts.

Section WithEngine.
Context `{E : RegExpEngine}.

Implicit Types (b : ScriptAutoBlocker.t) (w : Page.t) (n script : Node).


Lemma hasAttribute_setAttribute name v n :
  hasAttribute (setAttribute name v n) name = true.
Proof.
  unfold hasAttribute, setAttribute. simpl. apply bool_decide_eq_true.
  rewrite lookup_insert_eq. by eexists.
Qed.

(** What [handleScriptTag] does to an element that has no mark yet. *)
Lemma handleScriptTag_unmarked id script b w :
  nodes w !! id = Some script →
  hasAttribute script "data-cookiepot-processed" = false →
  handleScriptTag id b w
  = match matchScriptToCategory b script with
    | Some cat =>
        if hasConsent b cat
        then (b, update_node id
                   (setAttribute "data-cookiepot-processed" "true") w)
        else (fst (blockScript id script cat b w),
              update_node id (setAttribute "data-cookiepot-processed" "true")
                (snd (blockScript id script cat b w)))
    | None =>
        (b, update_node id (setAttribute "data-cookiepot-processed" "true") w)
    end.
Proof.
  intros Hn Hp. unfold handleScriptTag. rewrite Hn, Hp.
  destruct (matchScriptToCategory b script) as [cat|]; [|done].
  by destruct (hasConsent b cat).
Qed.

Lemma handleScriptTag_marks id script b w :
  nodes w !! id = Some script →
  ∃ n, nodes (snd (handleScriptTag id b w)) !! id = Some n
       ∧ hasAttribute n "data-cookiepot-processed" = true.
Proof.
  intros Hn.
  destruct (hasAttribute script "data-cookiepot-processed") eqn:Hp.
  { unfold handleScriptTag. rewrite Hn, Hp. by exists script. }
  rewrite (handleScriptTag_unmarked id script b w Hn Hp).
  destruct (matchScriptToCategory b script) as [cat|];
    [destruct (hasConsent b cat)|]; cbn [fst snd];
    unfold update_node, blockScript; cbn [fst snd nodes with_nodes log record];
    rewrite lookup_alter_eq, ?lookup_insert_eq, ?Hn; cbn [fmap option_fmap option_map];
    eexists; (split; [reflexivity|]); apply hasAttribute_setAttribute.
Qed.

(** X11: an element is handled once.  After [handleScriptTag] has seen an
    element, a second [handleScriptTag] on it changes neither the blocker
    nor the page: no script is recorded as blocked twice. *)
Theorem script_is_handled_once id b w :
  let s := handleScriptTag id b w in
  handleScriptTag id (fst s) (snd s) = s.
Proof.
  intros s. subst s.
  destruct (nodes w !! id) as [script|] eqn:Hn.
  - destruct (handleScriptTag_marks id script b w Hn) as (n & Hn' & Hmark).
    destruct (handleScriptTag id b w) as [b1 w1]. cbn [fst snd] in *.
    unfold handleScriptTag. by rewrite Hn', Hmark.
  - assert (Hsame : handleScriptTag id b w = (b, w))
      by (unfold handleScriptTag; by rewrite Hn).
    rewrite Hsame. exact Hsame.
Qed.

Lemma string_ne_src_processed : "data-cookiepot-processed" ≠ "src".
Proof. done. Qed.

(** X12: a script whose category lacks consent is blocked.  When the
    element has no mark yet, a pattern gives it a category and the consent
    does not grant that category, [handleScriptTag] records the element
    with its address and its content, gives it the type [text/plain], the
    mark of its category and the mark of the processed elements, leaves it
    no address to load, keeps its content, changes no other element and
    writes one line to the console. *)
Theorem unconsented_script_is_blocked id script cat b w :
  nodes w !! id = Some script →
  hasAttribute script "data-cookiepot-processed" = false →
  matchScriptToCategory b script = Some cat →
  hasConsent b cat = false →
  let s := handleScriptTag id b w in
  blockedScripts (fst s) = blockedScripts b ++ [record_of id script cat]
  ∧ consent (fst s) = consent b
  ∧ (∃ n, nodes (snd s) !! id = Some n
          ∧ getAttribute n "type" = Some "text/plain"
          ∧ getAttribute n "data-cookiepot-blocked" = Some (category_name cat)
          ∧ getAttribute n "data-cookiepot-processed" = Some "true"
          ∧ truthy (src n) = false
          ∧ textContent n = textContent script)
  ∧ (∀ j, j ≠ id → nodes (snd s) !! j = nodes w !! j)
  ∧ trace (snd s)
    = trace w
      ++ [Console ("[CookiePot] Blocked " +:+ category_name cat
                     +:+ " script: "
                     +:+ default "inline" (or_undefined (src script)))].
Proof.
  intros Hn Hp Hm Hc s. subst s.
  rewrite (handleScriptTag_unmarked id script b w Hn Hp), Hm, Hc.
  cbn [fst snd]. unfold blockScript, update_node.
  cbn [fst snd nodes with_nodes log record trace blockedScripts
       set_blockedScripts consent].
  split; [done|]. split; [done|]. split; [|split; [|done]].
  - rewrite lookup_alter_eq, lookup_insert_eq.
    cbn [fmap option_fmap option_map]. eexists. split; [reflexivity|].
    set (s2 := setAttribute "data-cookiepot-blocked" (category_name cat)
                 (setAttribute "type" "text/plain" script)).
    assert (Htype : attributes s2 !! "type" = Some "text/plain")
      by (subst s2; simpl; by rewrite lookup_insert_ne, lookup_insert_eq).
    assert (Hblocked : attributes s2 !! "data-cookiepot-blocked"
                       = Some (category_name cat))
      by (subst s2; simpl; by rewrite lookup_insert_eq).
    assert (Htext : textContent s2 = textContent script) by done.
    clearbody s2.
    destruct (truthy (src s2)) eqn:Hsrc; unfold getAttribute, src in *;
      simpl;
      rewrite ?lookup_insert_eq, ?lookup_insert_ne, ?lookup_delete_ne,
        ?lookup_delete_eq by done;
      repeat split; try done.
  - intros j Hj. by rewrite lookup_alter_ne, lookup_insert_ne.
Qed.

(** X13: consent that grants nothing new changes no script.  When every
    category other than the necessary one that the new consent grants was
    granted before -- as when consent is withdrawn -- [updateConsent] takes
    the new consent and does nothing else: the page, the console and the
    list of the blocked scripts stay as they are. *)
Theorem consent_without_new_grant_changes_no_script
    (c : ConsentCategories) b w :
  (∀ cat, cat ≠ Necessary → get c cat = true → get (consent b) cat = true) →
  updateConsent c b w = (set_consent c b, w)
  ∧ blockedScripts (fst (updateConsent c b w)) = blockedScripts b.
Proof.
  intros Hold.
  assert (Hsame : updateConsent c b w = (set_consent c b, w)).
  { assert (HA : analytics c = true → analytics (consent b) = true)
      by (apply (Hold Analytics); done).
    assert (HM : marketing c = true → marketing (consent b) = true)
      by (apply (Hold Marketing); done).
    assert (HP : preferences c = true → preferences (consent b) = true)
      by (apply (Hold Preferences); done).
    unfold updateConsent. simpl.
    destruct (analytics c), (analytics (consent b));
      try discriminate (HA eq_refl);
      destruct (marketing c), (marketing (consent b));
      try discriminate (HM eq_refl);
      destruct (preferences c), (preferences (consent b));
      try discriminate (HP eq_refl); reflexivity. }
  by rewrite Hsame.
Qed.

(** *** What holds of every blocker that a program can see *)

Lemma handleScriptTag_records id b w :
  consent (fst (handleScriptTag id b w)) = consent b
  ∧ (blockedScripts (fst (handleScriptTag id b w)) = blockedScripts b
     ∨ ∃ bs, blockedScripts (fst (handleScriptTag id b w))
             = blockedScripts b ++ [bs]
             ∧ hasConsent b (b_category bs) = false).
Proof.
  unfold handleScriptTag.
  destruct (nodes w !! id) as [script|]; [|by split; [|left]].
  destruct (hasAttribute script _); [by split; [|left]|].
  destruct (matchScriptToCategory b script) as [cat|]; [|by split; [|left]].
  destruct (hasConsent b cat) eqn:Hc; simpl; [by split; [|left]|].
  split; [done|]. right. by eexists.
Qed.

Lemma not_newly_granted (prev c : ConsentCategories) cat :
  cat ≠ Necessary → get prev cat = false →
  cat ∉ List.filter (fun cat => negb (get prev cat) && get c cat)
          [Analytics; Marketing; Preferences] →
  get c cat = false.
Proof.
  intros Hcat Hprev Hnot.
  destruct (get c cat) eqn:Hc; [|done]. exfalso. apply Hnot.
  apply list_elem_of_In, filter_In. split.
  - destruct cat; simpl; tauto.
  - by rewrite Hprev, Hc.
Qed.

Lemma step_keeps_blocked_unconsented s s' :
  step s s' →
  Forall (fun bs => b_category bs ≠ Necessary
                    → hasConsent (fst s) (b_category bs) = false)
    (blockedScripts (fst s)) →
  Forall (fun bs => b_category bs ≠ Necessary
                    → hasConsent (fst s') (b_category bs) = false)
    (blockedScripts (fst s')).
Proof.
  intros Hstep Hinv.
  destruct Hstep as [b w|b w|b w|b w|c b w|added b w Hobs|b w w'];
    cbn [fst] in *.
  - unfold start.
    destruct (negb (enabled b) || _ || _); [done|].
    unfold stop. by destruct (observer b).
  - unfold stop. by destruct (observer b).
  - unfold enable, start. cbn [enabled set_enabled].
    destruct (negb true || _ || _); [done|].
    unfold stop. by destruct (observer (set_enabled true b)).
  - unfold disable, stop. by destruct (observer (set_enabled false b)).
  - unfold updateConsent.
    set (changed := List.filter _ [Analytics; Marketing; Preferences]).
    assert (Hrest : ∀ bs, bs ∈ blockedScripts b →
              b_category bs ∉ changed → b_category bs ≠ Necessary →
              get c (b_category bs) = false).
    { intros bs Hbs Hnot Hcat.
      apply (not_newly_granted (consent b) c); [done| |done].
      rewrite Forall_forall in Hinv. by apply Hinv. }
    destruct changed as [|cat cats] eqn:Hchanged.
    + cbn [fst blockedScripts set_consent]. apply Forall_forall.
      intros bs Hbs Hcat. apply Hrest; [done| |done]. apply not_elem_of_nil.
    + unfold unblockScripts. cbn [fst blockedScripts set_blockedScripts].
      apply Forall_forall. intros bs Hbs Hcat.
      apply list_elem_of_In, filter_In in Hbs as [Hbs Hout].
      apply list_elem_of_In in Hbs.
      apply Hrest; [done| |done].
      unfold category_in in Hout. apply negb_true_iff in Hout.
      by apply bool_decide_eq_false in Hout.
  - clear Hobs. revert b w Hinv.
    induction added as [|id added IH]; intros b w Hinv; [done|].
    cbn [observed].
    assert (Hone : ∀ s1, s1 = handleScriptTag id b w ∨ s1 = (b, w) →
              Forall (fun bs => b_category bs ≠ Necessary
                                → hasConsent (fst s1) (b_category bs) = false)
                (blockedScripts (fst s1))).
    { intros s1 [->| ->]; [|done].
      destruct (handleScriptTag_records id b w) as [Hc [Hsame|(bs & Hb & Hno)]].
      - rewrite Hsame. eapply Forall_impl; [exact Hinv|].
        intros bs Hbs Hcat. unfold hasConsent in *. rewrite Hc. by apply Hbs.
      - rewrite Hb. apply Forall_app_2.
        + eapply Forall_impl; [exact Hinv|].
          intros bs' Hbs Hcat. unfold hasConsent in *. rewrite Hc.
          by apply Hbs.
        + constructor; [|constructor]. intros _.
          unfold hasConsent in *. by rewrite Hc. }
    destruct (nodes w !! id) as [n|].
    + destruct (String.eqb (nodeName n) "SCRIPT").
      * specialize (Hone _ (or_introl eq_refl)).
        destruct (handleScriptTag id b w) as [b1 w1]. by apply IH.
      * by apply IH.
    + by apply IH.
  - done.
Qed.

(** X14: no script stays blocked under a category that has consent.  On
    every blocker that a program can see, whatever has been inserted and
    whatever consents have been given, each script that [getBlockedScripts]
    lists under analytics, marketing or preferences is of a category that
    the current consent does not grant. *)
Theorem granted_category_has_no_blocked_script b w :
  reachable (b, w) →
  ∀ address cat,
    (address, cat) ∈ getBlockedScripts b → cat ≠ Necessary →
    get (consent b) cat = false.
Proof.
  intros Hr.
  assert (Hinv : Forall (fun bs => b_category bs ≠ Necessary
                                   → hasConsent b (b_category bs) = false)
                   (blockedScripts b)).
  { change b with (fst (b, w)).
    induction Hr as [pats c en w0|s s' _ IH Hstep]; [constructor|].
    by apply (step_keeps_blocked_unconsented s s'). }
  intros address cat Hin Hcat. unfold getBlockedScripts in Hin.
  apply list_elem_of_In, in_map_iff in Hin as (bs & [= _ <-] & Hbs).
  rewrite Forall_forall in Hinv. apply Hinv; [|done].
  by apply list_elem_of_In.
Qed.

(** *** The script that takes the place of a blocked one *)

Lemma lookup_update_node j (f : Node → Node) w i :
  nodes (update_node j f w) !! i
  = if decide (j = i) then f <$> nodes w !! i else nodes w !! i.
Proof.
  unfold update_node. cbn [nodes with_nodes]. rewrite lookup_alter.
  by destruct (decide (j = i)) as [->|].
Qed.

Lemma update_node_keeps j (f : Node → Node) w i n :
  (∀ m, attributes (f m) = attributes m ∧ textContent (f m) = textContent m) →
  nodes w !! i = Some n →
  ∃ n', nodes (update_node j f w) !! i = Some n'
        ∧ attributes n' = attributes n ∧ textContent n' = textContent n.
Proof.
  intros Hf Hn. rewrite lookup_update_node, Hn.
  destruct (decide (j = i)); simpl; eexists; (split; [reflexivity|]);
    [apply Hf | done].
Qed.

Lemma replaceChild_keeps parent newChild oldChild w i n :
  nodes w !! i = Some n →
  ∃ n', nodes (replaceChild parent newChild oldChild w) !! i = Some n'
        ∧ attributes n' = attributes n ∧ textContent n' = textContent n.
Proof.
  intros Hn. unfold replaceChild.
  destruct (update_node_keeps oldChild (set_parentNode None) w i n
              (fun m => conj eq_refl eq_refl) Hn)
    as (n1 & H1 & Ha1 & Ht1).
  destruct (update_node_keeps newChild (set_parentNode (Some parent)) _ i n1
              (fun m => conj eq_refl eq_refl) H1)
    as (n2 & H2 & Ha2 & Ht2).
  destruct (update_node_keeps parent
              (fun p =>
                 set_childNodes
                   ((fun c => if decide (c = oldChild) then newChild else c)
                      <$> childNodes p) p) _ i n2
              (fun m => conj eq_refl eq_refl) H2)
    as (n3 & H3 & Ha3 & Ht3).
  exists n3. split; [exact H3|]. split; congruence.
Qed.

Lemma fresh_node_is_new w : nodes w !! fresh (dom (nodes w)) = None.
Proof. apply not_elem_of_dom, is_fresh. Qed.


Lemma executeBlockedScript_new bs w :
  let old_attributes :=
    match nodes w !! element bs with
    | Some old => attributes old
    | None => ∅
    end in
  ∃ n, nodes (executeBlockedScript bs w) !! fresh (dom (nodes w)) = Some n
       ∧ attributes n
         = <["data-cookiepot-unblocked" := "true"]>
             (<["data-cookiepot-processed" := "true"]>
                (match b_src bs with
                 | Some s => <["src" := s]>
                 | None => fun a => a
                 end
                   (<["type" := "text/javascript"]>
                      (delete "data-cookiepot-blocked" old_attributes))))
       ∧ textContent n
         = match b_src bs, b_content bs with
           | None, Some c => c
           | _, _ => EmptyString
           end.
Proof.
  intros old_attributes. unfold executeBlockedScript, createElement_script.
  set (new := fresh (dom (nodes w))).
  fold old_attributes.
  set (F := fun n : Node => setAttribute "data-cookiepot-unblocked" "true" _).
  set (w2 := update_node new F _).
  assert (H2 : nodes w2 !! new = Some (F new_script)).
  { subst w2. rewrite lookup_update_node.
    destruct (decide (new = new)); [|done].
    cbn [nodes with_nodes]. by rewrite lookup_insert_eq. }
  assert (HF : attributes (F new_script)
               = <["data-cookiepot-unblocked" := "true"]>
                   (<["data-cookiepot-processed" := "true"]>
                      (match b_src bs with
                       | Some s => <["src" := s]>
                       | None => fun a => a
                       end
                         (<["type" := "text/javascript"]>
                            (delete "data-cookiepot-blocked" old_attributes))))
               ∧ textContent (F new_script)
                 = match b_src bs, b_content bs with
                   | None, Some c => c
                   | _, _ => EmptyString
                   end).
  { subst F. cbn beta.
    destruct (b_src bs) as [s|], (b_content bs) as [c|]; simpl;
      rewrite (right_id ∅ (∪)); done. }
  destruct HF as [HFa HFt].
  destruct (nodes w !! element bs ≫= parentNode) as [parent|].
  - destruct (replaceChild_keeps parent new (element bs) w2 new _ H2)
      as (n & Hn & Ha & Ht).
    exists n. split; [exact Hn|]. split; congruence.
  - exists (F new_script). by split.
Qed.

(** X15: the script that takes the place of a blocked one.  For a
    blocked element that exists, [executeBlockedScript] creates a new
    element with the type [text/javascript], the address that was recorded
    or else the content that was recorded, the other attributes of the
    blocked element, no mark of a blocked script and the mark of the
    processed elements, so that [handleScriptTag] leaves the new element as
    it is.  When the blocked element has a parent, the new element takes
    its place among the children of the parent and the blocked element
    is detached.  Nothing is written. *)
Theorem unblocked_script_is_restored bs w old :
  nodes w !! element bs = Some old →
  let new := fresh (dom (nodes w)) in
  let w' := executeBlockedScript bs w in
  nodes w !! new = None
  ∧ trace w' = trace w
  ∧ (∃ n, nodes w' !! new = Some n
          ∧ getAttribute n "type" = Some "text/javascript"
          ∧ getAttribute n "data-cookiepot-blocked" = None
          ∧ getAttribute n "data-cookiepot-processed" = Some "true"
          ∧ getAttribute n "data-cookiepot-unblocked" = Some "true"
          ∧ (∀ s, b_src bs = Some s → src n = s)
          ∧ (∀ c, b_src bs = None → b_content bs = Some c →
                  textContent n = c)
          ∧ (∀ name,
               name ∉ ["type"; "src"; "data-cookiepot-blocked";
                       "data-cookiepot-processed";
                       "data-cookiepot-unblocked"] →
               getAttribute n name = getAttribute old name))
  ∧ (∀ b, handleScriptTag new b w' = (b, w'))
  ∧ (∀ parent p,
       parentNode old = Some parent → nodes w !! parent = Some p →
       parent ≠ element bs →
       (childNodes <$> nodes w' !! parent)
       = Some ((fun c => if decide (c = element bs) then new else c)
                 <$> childNodes p)
       ∧ (parentNode <$> nodes w' !! new) = Some (Some parent)
       ∧ (parentNode <$> nodes w' !! element bs) = Some None).
Proof.
  intros Hold new w'. subst w'.
  pose proof (fresh_node_is_new w) as Hnew. fold new in Hnew.
  split; [exact Hnew|].
  split.
  { destruct (ConsumerFacts.executeBlockedScript_nodes bs w) as [m ->].
    done. }
  destruct (executeBlockedScript_new bs w) as (n & Hn & Ha & Ht).
  fold new in Hn. rewrite Hold in Ha.
  assert (Hattrs :
    getAttribute n "type" = Some "text/javascript"
    ∧ getAttribute n "data-cookiepot-blocked" = None
    ∧ getAttribute n "data-cookiepot-processed" = Some "true"
    ∧ getAttribute n "data-cookiepot-unblocked" = Some "true"
    ∧ (∀ s, b_src bs = Some s → src n = s)
    ∧ (∀ name,
         name ∉ ["type"; "src"; "data-cookiepot-blocked";
                 "data-cookiepot-processed"; "data-cookiepot-unblocked"] →
         getAttribute n name = getAttribute old name)).
  { unfold getAttribute, src. rewrite Ha. clear Ha.
    set (base := <["type" := "text/javascript"]>
                   (delete "data-cookiepot-blocked" (attributes old))).
    assert (Hb1 : base !! "type" = Some "text/javascript")
      by apply lookup_insert_eq.
    assert (Hb2 : base !! "data-cookiepot-blocked" = None)
      by (subst base; by rewrite lookup_insert_ne, lookup_delete_eq).
    assert (Hb3 : ∀ name, name ≠ "type" → name ≠ "data-cookiepot-blocked" →
                    base !! name = attributes old !! name)
      by (intros; subst base; by rewrite lookup_insert_ne, lookup_delete_ne).
    clearbody base.
    split.
    { rewrite !lookup_insert_ne by done.
      destruct (b_src bs); [by rewrite lookup_insert_ne|done]. }
    split.
    { rewrite !lookup_insert_ne by done.
      destruct (b_src bs); [by rewrite lookup_insert_ne|done]. }
    split; [by rewrite lookup_insert_ne, lookup_insert_eq|].
    split; [by rewrite lookup_insert_eq|].
    split.
    { intros s ->. rewrite !lookup_insert_ne by done. cbn beta iota.
      by rewrite lookup_insert_eq. }
    intros name Hname. rewrite !not_elem_of_cons in Hname.
    destruct Hname as (H1 & H2 & H3 & H4 & H5 & _).
    rewrite !lookup_insert_ne by done.
    destruct (b_src bs); [rewrite lookup_insert_ne by done|]; by apply Hb3. }
  destruct Hattrs as (A1 & A2 & A3 & A4 & A5 & A6).
  split.
  { exists n. repeat (split; [done|]). split; [|done].
    intros c Hs Hc. by rewrite Ht, Hs, Hc. }
  split.
  { intros b. unfold handleScriptTag. rewrite Hn.
    assert (hasAttribute n "data-cookiepot-processed" = true) as ->; [|done].
    apply bool_decide_eq_true. unfold getAttribute in A3. by rewrite A3. }
  intros parent p Hparent Hp Hne.
  assert (Hpn : parent ≠ new) by congruence.
  assert (Hon : element bs ≠ new) by congruence.
  unfold executeBlockedScript, createElement_script. fold new.
  rewrite Hold. cbn [mbind option_bind]. rewrite Hparent.
  unfold replaceChild.
  clear Hn Ha Ht A1 A2 A3 A4 A5 A6.
  rewrite !lookup_update_node. cbn [nodes with_nodes].
  repeat (destruct (decide _); try congruence).
  rewrite lookup_insert_eq. rewrite !lookup_insert_ne by done.
  rewrite Hp, Hold. done.
Qed.

(** *** From the blocking to the consent *)





End WithEngine.

Import Scenario LiteralEngine.

Lemma unconsented_script_is_blocked_witness :
  let w := page_with_analytics_script in
  let s := handleScriptTag 0 script_blocker w in
  nodes w !! 0%nat = Some analytics_script
  ∧ matchScriptToCategory script_blocker analytics_script = Some Analytics
  ∧ getBlockedScripts (fst s)
    = [(Some "https://www.google-analytics.com/analytics.js", Analytics)].
Proof.
  intros w s.
  assert (Hn : nodes w !! 0%nat = Some analytics_script) by reflexivity.
  assert (Hm : matchScriptToCategory script_blocker analytics_script
               = Some Analytics) by reflexivity.
  split; [exact Hn|]. split; [exact Hm|].
  destruct (unconsented_script_is_blocked 0 analytics_script Analytics
              script_blocker w Hn eq_refl Hm eq_refl) as (Hb & _).
  unfold getBlockedScripts. subst s. rewrite Hb. reflexivity.
Defined.

Lemma consent_without_new_grant_changes_no_script_witness :
  let b := fst after_insertion in
  let w := snd after_insertion in
  let granted := ScriptAutoBlocker.set_consent analyticsGranted b in
  (∀ cat, cat ≠ Necessary → get defaultConsent cat = true →
          get (consent granted) cat = true)
  ∧ snd (updateConsent defaultConsent granted w) = w
  ∧ getBlockedScripts (fst (updateConsent defaultConsent granted w))
    = getBlockedScripts b.
Proof.
  intros b w granted.
  assert (Hold : ∀ cat, cat ≠ Necessary → get defaultConsent cat = true →
                   get (consent granted) cat = true)
    by (intros cat Hcat Hc; destruct cat; done).
  split; [exact Hold|].
  destruct (consent_without_new_grant_changes_no_script defaultConsent
              granted w Hold) as (Hsame & Hb).
  split.
  - by rewrite Hsame.
  - unfold getBlockedScripts. by rewrite Hb.
Defined.

Lemma after_observed_insertion_reachable :
  reachable after_observed_insertion.
Proof.
  assert (H1 : reachable (fst observing_blocker, snd observing_blocker)).
  { eapply reachable_step.
    - exact (reachable_new analytics_patterns defaultConsent true
               page_with_analytics_script).
    - exact (step_start script_blocker page_with_analytics_script). }
  eapply reachable_step; [exact H1|].
  exact (step_observed [0%nat] (fst observing_blocker)
           (snd observing_blocker) eq_refl).
Qed.

Lemma granted_category_has_no_blocked_script_witness :
  let b := fst after_observed_insertion in
  let w := snd after_observed_insertion in
  let address := Some "https://www.google-analytics.com/analytics.js" in
  reachable (b, w)
  ∧ (address, Analytics) ∈ getBlockedScripts b
  ∧ get (consent b) Analytics = false.
Proof.
  intros b w address.
  assert (Hr : reachable (b, w)) by exact after_observed_insertion_reachable.
  assert (Hin : (address, Analytics) ∈ getBlockedScripts b)
    by apply list_elem_of_here.
  split; [exact Hr|]. split; [exact Hin|].
  apply (granted_category_has_no_blocked_script b w Hr address Analytics Hin).
  done.
Defined.

Lemma unblocked_script_is_restored_witness :
  let b := fst after_insertion in
  let w := snd after_insertion in
  let bs := record_of 0 analytics_script Analytics in
  blockedScripts b = [bs]
  ∧ is_Some (nodes w !! element bs)
  ∧ ∃ n, nodes (executeBlockedScript bs w) !! 2%nat = Some n
         ∧ Page.src n = "https://www.google-analytics.com/analytics.js".
Proof.
  intros b w bs.
  destruct (nodes w !! element bs) as [old|] eqn:Hold;
    [|by vm_compute in Hold].
  split; [reflexivity|]. split; [by eexists|].
  destruct (unblocked_script_is_restored bs w old Hold)
    as (_ & _ & (n & Hn & _ & _ & _ & _ & Hsrc & _) & _).
  exists n. split; [exact Hn|]. by apply Hsrc.
Defined.


End ScriptBlockerFacts.

(** ** The cookies *)

Module CookieFacts.
Import Js Types Page Eff Json Schema Persistence ClassifierFacts PageFacts
  PersistenceFacts.

(** *** Strings that are split and joined *)

Lemma occurs_app c (a b : string) :
  occurs c (a +:+ b) = occurs c a || occurs c b.
Proof.
  induction a as [|d a IH]; [done|].
  rewrite append_cons. simpl. by rewrite IH, orb_assoc.
Qed.

Lemma split_nonempty sep s : split sep s ≠ [].
Proof.
  destruct s as [|c s]; simpl; [done|].
  destruct (Ascii.eqb c sep); [done|]. by destruct (split sep s).
Qed.

Lemma split_none sep s : occurs sep s = false → split sep s = [s].
Proof.
  induction s as [|c s IH]; simpl; [done|].
  intros H. apply orb_false_iff in H as [Hc Hs]. by rewrite Hc, (IH Hs).
Qed.

Lemma split_app sep (a b : string) :
  split sep (a +:+ String sep b) = split sep a ++ split sep b.
Proof.
  induction a as [|c a IH]; rewrite ?append_nil, ?append_cons; simpl.
  - by rewrite Ascii.eqb_refl.
  - destruct (Ascii.eqb c sep); [by rewrite IH|].
    rewrite IH. destruct (split sep a) eqn:Hs; [|done].
    by apply split_nonempty in Hs.
Qed.

Lemma join_snoc sep (l : list string) x :
  l ≠ [] → join sep (l ++ [x]) = join sep l +:+ sep +:+ x.
Proof. destruct l; [done|]. intros _. simpl. by rewrite fold_left_app. Qed.

Lemma split_join (texts : list string) :
  Forall (fun t => occurs ";" t = false) texts →
  split ";" (join "; " texts)
  = match texts with
    | [] => [EmptyString]
    | t :: rest => t :: map (fun x => " " +:+ x) rest
    end.
Proof.
  induction texts as [|y texts IH] using rev_ind; intros H; [done|].
  apply Forall_app in H as [Ht Hy]. apply Forall_inv in Hy.
  destruct texts as [|t rest].
  - simpl. by apply split_none.
  - rewrite join_snoc by done.
    change ("; " +:+ y) with (String ";" (" " +:+ y)).
    rewrite split_app, IH by done.
    rewrite (split_none ";" (" " +:+ y)) by (by rewrite occurs_app, Hy).
    simpl. by rewrite map_app.
Qed.

Lemma prefix_empty (s : string) : String.prefix EmptyString s = true.
Proof. by destruct s. Qed.

Lemma prefix_cons a (s1 : string) b (s2 : string) :
  String.prefix (String a s1) (String b s2)
  = if ascii_dec a b then String.prefix s1 s2 else false.
Proof. reflexivity. Qed.

Lemma starts_with_name (n v name : string) :
  occurs "=" n = false → occurs "=" name = false →
  startsWith (n +:+ "=" +:+ v) (name +:+ "=") = String.eqb n name.
Proof.
  unfold startsWith. revert name.
  induction n as [|d n IH]; intros [|c name];
    rewrite ?append_nil, ?append_cons, ?prefix_cons; cbn [occurs String.eqb];
    intros Hn Hname.
  - destruct (ascii_dec "=" "="); [apply prefix_empty|congruence].
  - apply orb_false_iff in Hname as [Hc _]. apply Ascii.eqb_neq in Hc.
    by destruct (ascii_dec c "=").
  - apply orb_false_iff in Hn as [Hd _]. apply Ascii.eqb_neq in Hd.
    destruct (ascii_dec "=" d); [congruence|done].
  - apply orb_false_iff in Hn as [_ Hn].
    apply orb_false_iff in Hname as [_ Hname].
    destruct (ascii_dec c d) as [->|Hne].
    + rewrite Ascii.eqb_refl. simpl. by apply IH.
    + assert (Ascii.eqb d c = false) as -> by (apply Ascii.eqb_neq; congruence).
      done.
Qed.

Lemma substring_from_name (name v : string) :
  substring_from (String.length (name +:+ "=")) (name +:+ "=" +:+ v) = v.
Proof.
  induction name as [|c name IH]; rewrite ?append_nil, ?append_cons; simpl;
    [by destruct v | exact IH].
Qed.

Lemma strip_spaces_id (s : string) :
  startsWith s " " = false → strip_spaces s = s.
Proof.
  destruct s as [|c s]; [done|]. unfold startsWith. rewrite prefix_cons.
  cbn [strip_spaces].
  destruct (ascii_dec " " c) as [<-|Hne]; [by rewrite prefix_empty|].
  intros _. assert (Ascii.eqb c " " = false) as ->; [|done].
  apply Ascii.eqb_neq. congruence.
Qed.

Lemma cookie_text_plain (n v : string) :
  startsWith n " " = false →
  truthy (n +:+ "=" +:+ v) = true
  ∧ strip_spaces (n +:+ "=" +:+ v) = n +:+ "=" +:+ v
  ∧ truthy (" " +:+ n +:+ "=" +:+ v) = true
  ∧ strip_spaces (" " +:+ n +:+ "=" +:+ v) = n +:+ "=" +:+ v.
Proof.
  intros Hn.
  assert (Hid : strip_spaces (n +:+ "=" +:+ v) = n +:+ "=" +:+ v).
  { apply strip_spaces_id. destruct n as [|c n].
    - rewrite append_nil. unfold startsWith.
      change ("=" +:+ v) with (String "=" v). rewrite prefix_cons.
      by destruct (ascii_dec " " "=").
    - rewrite append_cons. unfold startsWith in *.
      rewrite prefix_cons in *.
      by destruct (ascii_dec " " c); [rewrite prefix_empty in *|]. }
  split; [by destruct n|]. split; [exact Hid|]. split; [done|].
  exact Hid.
Qed.

(** *** The jar *)

Lemma jar_lookup_assign name encoded age jar :
  jar_lookup name (jar_assign name encoded age jar)
  = if match age with Some a => (a <=? 0)%Z | None => false end
    then None else Some encoded.
Proof.
  unfold jar_lookup, jar_assign.
  assert (Hnone : ∀ tail,
    List.find (fun kv : string * string => String.eqb (fst kv) name)
      (List.filter (fun kv => negb (String.eqb (fst kv) name)) jar ++ tail)
    = List.find (fun kv => String.eqb (fst kv) name) tail).
  { intros tail. induction jar as [|[k v] jar IH]; simpl; [done|].
    destruct (String.eqb k name) eqn:Hk; simpl; [done|]. by rewrite Hk. }
  destruct (match age with Some a => (a <=? 0)%Z | None => false end).
  - rewrite <- (app_nil_r (List.filter _ jar)). by rewrite Hnone.
  - rewrite Hnone. simpl. by rewrite String.eqb_refl.
Qed.

Lemma jar_lookup_assign_other name' name encoded age jar :
  name' ≠ name →
  jar_lookup name' (jar_assign name encoded age jar) = jar_lookup name' jar.
Proof.
  intros Hne. unfold jar_lookup, jar_assign.
  assert (Hother : String.eqb name name' = false)
    by (apply String.eqb_neq; congruence).
  assert (Hfind : ∀ tail,
    (∀ kv, kv ∈ tail → fst kv = name) →
    List.find (fun kv : string * string => String.eqb (fst kv) name')
      (List.filter (fun kv => negb (String.eqb (fst kv) name)) jar ++ tail)
    = List.find (fun kv => String.eqb (fst kv) name') jar).
  { intros tail Htail. induction jar as [|[k v] jar IH]; simpl.
    - induction tail as [|kv tail IHt]; simpl; [done|].
      rewrite (Htail kv) by left. rewrite Hother. apply IHt.
      intros kv' Hkv'. apply Htail. by right.
    - destruct (String.eqb k name) eqn:Hk; simpl.
      + apply String.eqb_eq in Hk. subst k. by rewrite Hother.
      + destruct (String.eqb k name'); [done|]. exact IH. }
  destruct (match age with Some a => (a <=? 0)%Z | None => false end).
  - rewrite <- (app_nil_r (List.filter _ jar)). rewrite Hfind; [done|].
    intros kv Hkv. by apply elem_of_nil in Hkv.
  - rewrite Hfind; [done|]. intros kv Hkv.
    apply list_elem_of_singleton in Hkv. by subst kv.
Qed.

Lemma jar_assign_ok name encoded age jar :
  jar_ok jar → cookie_name_ok name → occurs ";" encoded = false →
  jar_ok (jar_assign name encoded age jar).
Proof.
  intros Hjar Hname Henc. unfold jar_assign, jar_ok.
  assert (Hf : Forall cookie_ok
                 (List.filter (fun kv => negb (String.eqb (fst kv) name)) jar)).
  { induction Hjar as [|kv jar Hkv _ IH]; simpl; [constructor|].
    destruct (negb _); [by constructor | done]. }
  destruct (match age with Some a => (a <=? 0)%Z | None => false end);
    [done|].
  apply Forall_app_2; [done|]. constructor; [by split | constructor].
Qed.

(** The value that [encodeURIComponent] returns has no [;]. *)
Lemma encoded_has_no_semicolon (s : string) :
  occurs ";" (encodeURIComponent s) = false.
Proof.
  induction s as [|c s IH]; [done|].
  cbn [encodeURIComponent]. rewrite occurs_app, IH, orb_false_r.
  clear. destruct c as [[] [] [] [] [] [] [] []]; reflexivity.
Qed.

Section WithCodec.
Context `{C : Codec}.

(** *** [getCookie] *)

Lemma getCookie_loop_jar name jar (parts : list string) w :
  occurs "=" name = false → jar_ok jar →
  Forall2 (fun part kv =>
             truthy part = true
             ∧ strip_spaces part = fst kv +:+ "=" +:+ snd kv) parts jar →
  getCookie_loop (name +:+ "=") parts w = (decoded (jar_lookup name jar), w).
Proof.
  intros Hname Hjar Hparts. revert Hjar.
  induction Hparts as [|part [n v] parts jar [Ht Hs] _ IH]; intros Hjar;
    [done|].
  apply Forall_cons in Hjar as [[(_ & Hn & _) _] Hjar]. simpl in Hn, Hs.
  cbn [getCookie_loop]. rewrite Ht, Hs. cbn [negb].
  rewrite starts_with_name by done.
  unfold jar_lookup. cbn [List.find fst].
  destruct (String.eqb n name) eqn:Heq.
  - apply String.eqb_eq in Heq. subst n. rewrite substring_from_name.
    simpl. by destruct (decodeURIComponent v).
  - by apply IH.
Qed.

Lemma getCookie_jar name w :
  hasDocument w = true → jar_ok (cookies w) → occurs "=" name = false →
  getCookie name w = (decoded (jar_lookup name (cookies w)), w).
Proof.
  intros Hdoc Hjar Hname. unfold getCookie. cbv [bind read].
  rewrite Hdoc. cbn [negb]. unfold document_cookie.
  rewrite split_join.
  2:{ apply Forall_forall. intros t Ht.
      apply list_elem_of_In, in_map_iff in Ht as ([n v] & <- & Hin).
      apply list_elem_of_In in Hin. unfold jar_ok in Hjar.
      rewrite Forall_forall in Hjar.
      destruct (Hjar _ Hin) as [(Hn & _ & _) Hv]. simpl in *.
      by rewrite !occurs_app, Hn, Hv. }
  destruct (cookies w) as [|[n v] jar]; [done|].
  cbn [map fst snd]. apply getCookie_loop_jar; [done|done|].
  apply Forall_cons in Hjar as [[(_ & _ & Hn) _] Hjar]. simpl in Hn.
  constructor.
  - simpl. destruct (cookie_text_plain n v Hn) as (H1 & H2 & _). by split.
  - clear -Hjar. induction Hjar as [|[n' v'] jar [(_ & _ & Hn') _] _ IH];
      simpl; constructor; [|exact IH].
    simpl in *. destruct (cookie_text_plain n' v' Hn') as (_ & _ & H3 & H4).
    by split.
Qed.

(** X17: [getCookie] finds the cookie of the name.  When the jar of the
    document is as a browser lists it, [getCookie] returns what
    [decodeURIComponent] makes of the value of the first cookie with that
    name, [null] when the jar has no cookie of that name, and it changes
    nothing; it throws only when that value cannot be decoded. *)
Theorem getCookie_finds_the_cookie name w :
  hasDocument w = true → jar_ok (cookies w) → occurs "=" name = false →
  snd (getCookie name w) = w
  ∧ fst (getCookie name w) = decoded (jar_lookup name (cookies w))
  ∧ (jar_lookup name (cookies w) = None
     → fst (getCookie name w) = Return None)
  ∧ (∀ encoded v,
       jar_lookup name (cookies w) = Some encoded →
       decodeURIComponent encoded = Some v →
       fst (getCookie name w) = Return (Some v))
  ∧ (∀ e, fst (getCookie name w) = Throw e →
          ∃ encoded, jar_lookup name (cookies w) = Some encoded
                     ∧ decodeURIComponent encoded = None).
Proof.
  intros Hdoc Hjar Hname. rewrite (getCookie_jar name w Hdoc Hjar Hname).
  cbn [fst snd]. split; [done|]. split; [done|].
  split; [by intros ->|]. split.
  - intros encoded v -> Hv. simpl. by rewrite Hv.
  - intros e. destruct (jar_lookup name (cookies w)) as [encoded|]; [|done].
    simpl. destruct (decodeURIComponent encoded) eqn:Hd; [done|].
    intros _. by exists encoded.
Qed.

Lemma setCookie_jar name value o w :
  hasDocument w = true →
  hasDocument (snd (setCookie name value o w)) = true
  ∧ cookies (snd (setCookie name value o w))
    = jar_assign name (encodeURIComponent value) (maxAge o) (cookies w)
  ∧ localStorage (snd (setCookie name value o w)) = localStorage w.
Proof.
  intros Hdoc. destruct (setCookie_spec name value o w) as [a ->].
  rewrite Hdoc. done.
Qed.

(** X18: what [setCookie] stores, [getCookie] returns.  On a document
    whose jar is as a browser lists it, after [setCookie] with a name that
    a browser accepts and a value that decoding gives back, [getCookie]
    with that name returns the value, or [null] when the age given is not
    positive; the cookies of the other names read as before. *)
Theorem setCookie_then_getCookie name value o w :
  hasDocument w = true → jar_ok (cookies w) → cookie_name_ok name →
  decodeURIComponent (encodeURIComponent value) = Some value →
  let w' := snd (setCookie name value o w) in
  fst (getCookie name w')
  = (if match maxAge o with Some a => (a <=? 0)%Z | None => false end
     then Return None else Return (Some value))
  ∧ (∀ other, other ≠ name → occurs "=" other = false →
              fst (getCookie other w') = fst (getCookie other w))
  ∧ jar_ok (cookies w').
Proof.
  intros Hdoc Hjar Hname Hdecode w'. subst w'.
  destruct (setCookie_jar name value o w Hdoc) as (Hdoc' & Hcookies & _).
  assert (Hjar' : jar_ok (cookies (snd (setCookie name value o w)))).
  { rewrite Hcookies. apply jar_assign_ok; [done|done|].
    apply encoded_has_no_semicolon. }
  split; [|split; [|exact Hjar']].
  - rewrite getCookie_jar by (try done; apply Hname). cbn [fst].
    rewrite Hcookies, jar_lookup_assign.
    destruct (match maxAge o with Some a => (a <=? 0)%Z | None => false end);
      [done|]. simpl. by rewrite Hdecode.
  - intros other Hne Hother. rewrite !getCookie_jar by done. cbn [fst].
    by rewrite Hcookies, jar_lookup_assign_other.
Qed.

(** *** The schema *)

Lemma z_string_bounds lo hi v s :
  z_string lo hi v = Some s → (lo ≤ String.length s ≤ hi)%nat.
Proof.
  destruct v; try done. simpl.
  destruct (_ <=? _)%nat eqn:H1; [|done].
  destruct (String.length s0 <=? hi)%nat eqn:H2; [|done].
  intros [= <-]. apply Nat.leb_le in H1, H2. lia.
Qed.

Lemma schema_sound v st :
  ConsentStateSchema v = Some st → valid_record st.
Proof.
  revert v st. intros v st. destruct v as [| | | | |m]; try done.
  unfold ConsentStateSchema, required.
  destruct (member m "visitorId" ≫= z_string 1 128) as [vid|] eqn:Hv;
    [|done].
  destruct (member m "sessionId" ≫= z_string 1 128) as [sid|] eqn:Hs;
    [|done].
  destruct (member m "categories" ≫= ConsentCategoriesSchema)
    as [cats|] eqn:Hc; [|done].
  destruct (z_optional_string (member m "timestamp")) as [ts|]; [|done].
  cbn [mbind option_bind]. intros [= <-]. unfold valid_record. simpl.
  destruct (member m "visitorId") as [jv|]; [|done].
  destruct (member m "sessionId") as [js|]; [|done].
  destruct (member m "categories") as [jc|]; [|done].
  simpl in Hv, Hs, Hc.
  split; [by eapply z_string_bounds|].
  split; [by eapply z_string_bounds|].
  destruct jc as [| | | | |mc]; try done.
  unfold ConsentCategoriesSchema, required in Hc.
  destruct (member mc "necessary" ≫= z_literal_true) as [n|] eqn:Hn;
    [|done].
  destruct (member mc "analytics" ≫= z_boolean) as [a|]; [|done].
  destruct (member mc "marketing" ≫= z_boolean) as [k|]; [|done].
  destruct (member mc "preferences" ≫= z_boolean) as [p|]; [|done].
  cbn [mbind option_bind] in Hc. injection Hc as <-. simpl.
  destruct (member mc "necessary") as [[| [] | | | |]|]; by inversion Hn.
Qed.

Lemma schema_complete st :
  valid_record st → ConsentStateSchema (state_json st) = Some st.
Proof.
  revert st.
  intros [vid sid [n a k p] ts] ((Hv1 & Hv2) & (Hs1 & Hs2) & Hn).
  simpl in *. subst n.
  apply Nat.leb_le in Hv1, Hv2, Hs1, Hs2.
  unfold ConsentStateSchema, state_json, required. destruct ts as [t|];
    cbn [app member String.eqb Ascii.eqb Bool.eqb mbind option_bind
         z_string z_optional_string Types.visitorId Types.sessionId
         categories timestamp];
    rewrite Hv1, Hv2, Hs1, Hs2; reflexivity.
Qed.

(** X19: the schema of the record.  Whatever [ConsentStateSchema] accepts
    has identifiers of 1 to 128 characters and [necessary] true; and a
    record with such identifiers and [necessary] true, once written as
    JSON, is accepted and returned as it is. *)
Theorem schema_accepts_the_valid_records :
  (∀ v st, ConsentStateSchema v = Some st → valid_record st)
  ∧ (∀ st, valid_record st → ConsentStateSchema (state_json st) = Some st).
Proof. split; [apply schema_sound | apply schema_complete]. Qed.

(** *** [save], [clear] and [load] together *)

Lemma consent_name_ok : cookie_name_ok STORAGE_KEYS_CONSENT.
Proof. by repeat split. Qed.

Lemma cookie_text_jar w :
  hasDocument w = true → jar_ok (cookies w) →
  cookie_text w = decoded (jar_lookup STORAGE_KEYS_CONSENT (cookies w)).
Proof.
  intros Hdoc Hjar. unfold cookie_text.
  by rewrite getCookie_jar by (try done; apply consent_name_ok).
Qed.

Lemma cookie_text_no_document w :
  hasDocument w = false → cookie_text w = Return None.
Proof.
  intros Hdoc. unfold cookie_text, getCookie. cbv [bind read].
  by rewrite Hdoc.
Qed.

Lemma read_saved_record st :
  valid_record st →
  JSON_parse (stringify (state_json st)) = Some (state_json st) →
  read_record (Some (stringify (state_json st))) = Valid st.
Proof.
  intros Hvalid Hparse. unfold read_record.
  assert (truthy (stringify (state_json st)) = true) as -> by reflexivity.
  rewrite Hparse.
  by rewrite schema_complete.
Qed.

(** X20: what [save] writes, [load] returns.  For a record that the
    schema accepts and whose JSON text the parser reads back: after
    [saveConsentToStorage] on a document whose jar is as a browser lists
    it, with a positive age and a text that decoding gives back,
    [getConsentFromStorage] returns the record from the cookie; without a
    document but with a local store, it returns the record from the local
    store. *)
Theorem saved_record_is_loaded st o w :
  valid_record st →
  JSON_parse (stringify (state_json st)) = Some (state_json st) →
  let json := stringify (state_json st) in
  let w' := snd (saveConsentToStorage st o w) in
  (hasDocument w = true → jar_ok (cookies w) →
   (0 < nullish (maxAge o) (365 * 24 * 60 * 60))%Z →
   decodeURIComponent (encodeURIComponent json) = Some json →
   fst (getConsentFromStorage w') = Return (Some st))
  ∧ (hasDocument w = false → (∃ m, localStorage w = Available m) →
     fst (getConsentFromStorage w') = Return (Some st)).
Proof.
  intros Hvalid Hparse json w'. subst w'.
  destruct (saveConsentToStorage_spec st o w) as [a ->]. cbn [snd].
  fold json.
  set (w' := write_both _ _ _ _ _ _ w).
  destruct (write_both_frame STORAGE_KEYS_CONSENT (encodeURIComponent json)
              (Some (nullish (maxAge o) (365 * 24 * 60 * 60)%Z)) a
              (Browser.NativeSetItem STORAGE_KEYS_CONSENT json)
              "[CookiePot] Error saving consent to storage: " w)
    as (_ & Hd & _ & _ & _ & Hc & Hl).
  fold w' in Hd, Hc, Hl.
  pose proof (read_saved_record st Hvalid Hparse) as Hread. fold json in Hread.
  rewrite getConsentFromStorage_spec. unfold cookie_then_local.
  split.
  - intros Hdoc Hjar Hage Hdecode. rewrite Hdoc in Hc.
    assert (Hjar' : jar_ok (cookies w')).
    { rewrite Hc. apply jar_assign_ok; [done|apply consent_name_ok|].
      apply encoded_has_no_semicolon. }
    rewrite cookie_text_jar by congruence.
    rewrite Hc, jar_lookup_assign.
    destruct (Z.leb_spec (nullish (maxAge o) (365 * 24 * 60 * 60)%Z) 0);
      [lia|].
    unfold decoded. rewrite Hdecode. unfold consult. by rewrite Hread.
  - intros Hdoc [m Hm]. rewrite cookie_text_no_document by congruence.
    cbn [consult read_record]. unfold local_text. rewrite Hl, Hm.
    cbn [Browser.apply_call]. rewrite lookup_insert_eq.
    unfold consult. by rewrite Hread.
Qed.

(** X21: after [clear], [load] finds nothing.  When the jar of the
    document is as a browser lists it, [getConsentFromStorage] after
    [clearConsentFromStorage] returns [null], whatever the two stores held
    and whether or not the local store can be reached. *)
Theorem cleared_record_is_not_loaded cookieDomain w :
  jar_ok (cookies w) →
  fst (getConsentFromStorage (snd (clearConsentFromStorage cookieDomain w)))
  = Return None.
Proof.
  intros Hjar.
  destruct (clearConsentFromStorage_spec cookieDomain w) as [a ->].
  cbn [snd]. set (w' := write_both _ _ _ _ _ _ w).
  destruct (write_both_frame STORAGE_KEYS_CONSENT
              (encodeURIComponent EmptyString) (Some (-1)%Z) a
              (Browser.NativeRemoveItem STORAGE_KEYS_CONSENT)
              "[CookiePot] Error clearing consent from storage: " w)
    as (_ & Hd & _ & _ & _ & Hc & Hl).
  fold w' in Hd, Hc, Hl.
  rewrite getConsentFromStorage_spec. unfold cookie_then_local.
  assert (Hcookie : cookie_text w' = Return None).
  { destruct (hasDocument w) eqn:Hdoc.
    - rewrite cookie_text_jar; [|congruence|].
      + by rewrite Hc, jar_lookup_assign.
      + rewrite Hc. apply jar_assign_ok; [done|apply consent_name_ok|done].
    - apply cookie_text_no_document. congruence. }
  rewrite Hcookie. simpl. unfold local_text. rewrite Hl.
  destruct (localStorage w) as [| |m]; simpl; try done.
  by rewrite lookup_delete_eq.
Qed.

(** X22: [save] and [clear] never throw, and the cookie does not depend on
    the local store.  Both return; the cookie is assigned first, so that
    the jar of the document is the same whether the local store is there,
    missing or denied; a local store that is there gets the text, or loses
    its entry; a denied one costs one line on the console and nothing
    else. *)
Theorem save_and_clear_never_throw st o cookieDomain w :
  let json := stringify (state_json st) in
  let saved := saveConsentToStorage st o w in
  let cleared := clearConsentFromStorage cookieDomain w in
  fst saved = Return tt ∧ fst cleared = Return tt
  ∧ cookie_jar (snd saved)
    = (if hasDocument w
       then jar_assign STORAGE_KEYS_CONSENT (encodeURIComponent json)
              (Some (nullish (maxAge o) (365 * 24 * 60 * 60)%Z)) (cookies w)
       else [])
  ∧ (STORAGE_KEYS_CONSENT ∉ (fst <$> cookie_jar (snd cleared)))
  ∧ match localStorage w with
    | Available m =>
        localStorage (snd saved)
        = Available (<[STORAGE_KEYS_CONSENT := json]> m)
        ∧ localStorage (snd cleared)
          = Available (delete STORAGE_KEYS_CONSENT m)
        ∧ console (snd saved) = console w
        ∧ console (snd cleared) = console w
    | Undefined =>
        localStorage (snd saved) = Undefined
        ∧ localStorage (snd cleared) = Undefined
        ∧ console (snd saved) = console w
        ∧ console (snd cleared) = console w
    | Denied =>
        localStorage (snd saved) = Denied
        ∧ localStorage (snd cleared) = Denied
        ∧ console (snd saved)
          = console w
            ++ ["[CookiePot] Error saving consent to storage: SecurityError"]
        ∧ console (snd cleared)
          = console w
            ++ ["[CookiePot] Error clearing consent from storage: SecurityError"]
    end.
Proof.
  intros json saved cleared. subst saved cleared.
  destruct (saveConsentToStorage_spec st o w) as [a1 ->].
  destruct (clearConsentFromStorage_spec cookieDomain w) as [a2 ->].
  cbn [fst snd]. fold json.
  destruct (write_both_frame STORAGE_KEYS_CONSENT (encodeURIComponent json)
              (Some (nullish (maxAge o) (365 * 24 * 60 * 60)%Z)) a1
              (Browser.NativeSetItem STORAGE_KEYS_CONSENT json)
              "[CookiePot] Error saving consent to storage: " w)
    as (_ & Hd1 & _ & _ & Ht1 & Hc1 & Hl1).
  destruct (write_both_frame STORAGE_KEYS_CONSENT
              (encodeURIComponent EmptyString) (Some (-1)%Z) a2
              (Browser.NativeRemoveItem STORAGE_KEYS_CONSENT)
              "[CookiePot] Error clearing consent from storage: " w)
    as (_ & Hd2 & _ & _ & Ht2 & Hc2 & Hl2).
  split; [done|]. split; [done|].
  split; [unfold cookie_jar; rewrite Hd1, Hc1; by destruct (hasDocument w)|].
  split.
  { unfold cookie_jar. rewrite Hd2, Hc2.
    destruct (hasDocument w); [apply jar_assign_expired|].
    apply not_elem_of_nil. }
  unfold console. rewrite Ht1, Ht2, Hl1, Hl2, !omap_app.
  unfold store_events.
  destruct (hasDocument w), (localStorage w) as [| |m]; simpl;
    rewrite ?app_nil_r; done.
Qed.

End WithCodec.

Import Scenario AsciiCodec.

Lemma page_with_stores_jar_ok cookie local :
  jar_ok (cookies (page_with_stores cookie local)).
Proof.
  unfold jar_ok, page_with_stores. cbn [cookies].
  apply Forall_app_2; [by repeat constructor|].
  destruct cookie as [text|]; [|constructor].
  constructor; [|constructor]. split; [by repeat split|].
  apply encoded_has_no_semicolon.
Qed.

Lemma getCookie_finds_the_cookie_witness :
  let w := page_with_stores (Some "a b;c") None in
  hasDocument w = true ∧ jar_ok (cookies w)
  ∧ fst (getCookie "theme" w) = Return (Some "dark")
  ∧ fst (getCookie STORAGE_KEYS_CONSENT w) = Return (Some "a b;c")
  ∧ fst (getCookie "them" w) = Return None.
Proof.
  intros w.
  assert (Hjar : jar_ok (cookies w)) by apply page_with_stores_jar_ok.
  split; [reflexivity|]. split; [exact Hjar|].
  destruct (getCookie_finds_the_cookie "theme" w eq_refl Hjar eq_refl)
    as (_ & -> & _).
  destruct (getCookie_finds_the_cookie STORAGE_KEYS_CONSENT w eq_refl Hjar
              eq_refl) as (_ & -> & _).
  destruct (getCookie_finds_the_cookie "them" w eq_refl Hjar eq_refl)
    as (_ & -> & _).
  repeat split.
Defined.

Lemma setCookie_then_getCookie_witness :
  let w := page_with_stores None None in
  let w' := snd (setCookie "session" "a b;c" no_options w) in
  hasDocument w = true ∧ jar_ok (cookies w) ∧ cookie_name_ok "session"
  ∧ fst (getCookie "session" w') = Return (Some "a b;c")
  ∧ fst (getCookie "theme" w') = Return (Some "dark").
Proof.
  intros w w'.
  assert (Hjar : jar_ok (cookies w)) by apply page_with_stores_jar_ok.
  assert (Hname : cookie_name_ok "session") by (by repeat split).
  assert (Hdecode : decodeURIComponent (encodeURIComponent "a b;c")
                    = Some "a b;c") by (vm_compute; reflexivity).
  split; [reflexivity|]. split; [exact Hjar|]. split; [exact Hname|].
  destruct (setCookie_then_getCookie "session" "a b;c" no_options w eq_refl
              Hjar Hname Hdecode) as (Hget & Hother & _).
  split; [exact Hget|].
  subst w'. rewrite (Hother "theme") by done. reflexivity.
Defined.

Lemma mockConsent_valid : valid_record mockConsent.
Proof. unfold valid_record. simpl. lia. Qed.

Lemma saved_record_is_loaded_witness :
  let w := page_with_stores None None in
  let w' := snd (saveConsentToStorage mockConsent no_options w) in
  valid_record mockConsent
  ∧ JSON_parse (stringify (state_json mockConsent))
    = Some (state_json mockConsent)
  ∧ jar_ok (cookies w)
  ∧ fst (getConsentFromStorage w') = Return (Some mockConsent).
Proof.
  intros w w'.
  assert (Hjar : jar_ok (cookies w)) by apply page_with_stores_jar_ok.
  assert (Hparse : JSON_parse (stringify (state_json mockConsent))
                   = Some (state_json mockConsent))
    by (vm_compute; reflexivity).
  split; [exact mockConsent_valid|]. split; [exact Hparse|].
  split; [exact Hjar|].
  destruct (saved_record_is_loaded mockConsent no_options w mockConsent_valid
              Hparse) as [Hcookie _].
  apply Hcookie; [reflexivity | exact Hjar | reflexivity |].
  vm_compute. reflexivity.
Defined.

Lemma cleared_record_is_not_loaded_witness :
  let text := stringify (state_json mockConsent) in
  let w := page_with_stores (Some text) (Some text) in
  jar_ok (cookies w)
  ∧ fst (getConsentFromStorage w) = Return (Some mockConsent)
  ∧ fst (getConsentFromStorage (snd (clearConsentFromStorage None w)))
    = Return None.
Proof.
  intros text w.
  assert (Hjar : jar_ok (cookies w)) by apply page_with_stores_jar_ok.
  split; [exact Hjar|]. split; [vm_compute; reflexivity|].
  exact (cleared_record_is_not_loaded None w Hjar).
Defined.

End CookieFacts.

(** ** The event emitter *)

Module EmitterFacts.
Import Js Types Page Eff EventEmitter PageFacts ConsumerFacts.

Lemma handler_calls_of_handlers event data (hs : list Handler) :
  omap (fun ev => match ev with
                  | HandlerCalled event h data => Some (event, h, data)
                  | _ => None
                  end) (flat_map (handler_events event data) hs)
  = map (fun h => (event, h_id h, data)) hs.
Proof.
  induction hs as [|h hs IH]; [done|].
  cbn [flat_map map]. rewrite omap_app, IH.
  unfold handler_events. by destruct (h_throws h).
Qed.

Lemma console_of_handlers event data (hs : list Handler) :
  length (omap (fun ev => match ev with Console m => Some m | _ => None end)
            (flat_map (handler_events event data) hs))
  = length (List.filter h_throws hs).
Proof.
  induction hs as [|h hs IH]; [done|].
  cbn [flat_map List.filter]. rewrite omap_app, length_app, IH.
  unfold handler_events. by destruct (h_throws h).
Qed.

(** X23: [emit] calls every handler and never throws.  It returns, and it
    has called the handlers of the event, each once, in the order of their
    registration and with the data, also when some of them throw; a
    handler that throws costs one line on the console; the handlers of the
    other events are not called and nothing else changes on the page. *)
Theorem emit_calls_every_handler e event data w :
  let w' := snd (emit e event data w) in
  fst (emit e event data w) = Return tt
  ∧ handler_calls w'
    = handler_calls w
      ++ map (fun h => (event, h_id h, data)) (handlers_of event e)
  ∧ length (console w')
    = (length (console w)
       + length (List.filter h_throws (handlers_of event e)))%nat
  ∧ cookies w' = cookies w ∧ localStorage w' = localStorage w
  ∧ nodes w' = nodes w.
Proof.
  intros w'. subst w'. rewrite emit_spec. cbn [fst snd].
  destruct (record_all_frame (emitted e event data) w)
    as (_ & _ & Hc & Hl & Hn & _).
  split; [done|].
  unfold handler_calls, console. rewrite trace_record_all, !omap_app.
  unfold emitted, handlers_of.
  rewrite handler_calls_of_handlers, length_app, console_of_handlers.
  done.
Qed.

(** *** The registry *)

Lemma registry_lookup_insert (e : EventEmitter.t) ev x event :
  (<[ev := x]> e : EventEmitter.t) !! event
  = if decide (ev = event) then Some x else e !! event.
Proof. apply lookup_insert. Qed.

Lemma registry_lookup_delete (e : EventEmitter.t) ev event :
  (delete ev e : EventEmitter.t) !! event
  = if decide (ev = event) then None else e !! event.
Proof. apply lookup_delete. Qed.

Lemma registry_lookup_empty event :
  (∅ : EventEmitter.t) !! event = None.
Proof. apply lookup_empty. Qed.

Lemma on_lookup ev h (e : EventEmitter.t) event :
  on ev h e !! event
  = if decide (ev = event)
    then Some (if decide (h ∈ handlers_of ev e) then handlers_of ev e
               else handlers_of ev e ++ [h])
    else e !! event.
Proof. unfold on. cbv zeta. apply registry_lookup_insert. Qed.

Lemma off_lookup ev h (e : EventEmitter.t) event :
  off ev h e !! event
  = if decide (ev = event)
    then match List.filter (fun h' => negb (bool_decide (h' = h)))
                 (handlers_of ev e) with
         | [] => None
         | l => Some l
         end
    else e !! event.
Proof.
  unfold off, handlers_of. destruct (e !! ev) as [hs|] eqn:Hev; cbv zeta.
  - simpl. destruct (List.filter _ hs) as [|x l].
    + apply registry_lookup_delete.
    + apply registry_lookup_insert.
  - simpl. destruct (decide (ev = event)) as [<-|]; [exact Hev | done].
Qed.

Lemma clear_lookup ev (e : EventEmitter.t) event :
  clear ev e !! event = None ∨ clear ev e !! event = e !! event.
Proof.
  unfold clear. destruct ev as [ev|]; [destruct (truthy ev)|].
  - rewrite registry_lookup_delete. destruct (decide (ev = event)); tauto.
  - left. apply registry_lookup_empty.
  - left. apply registry_lookup_empty.
Qed.

Lemma handlers_lookup (e : EventEmitter.t) event :
  e !! event ≠ Some [] →
  match handlers_of event e with [] => None | l => Some l end = e !! event.
Proof.
  unfold handlers_of. by destruct (e !! event) as [[|x hs]|].
Qed.

Lemma filter_other_NoDup (h : Handler) (hs : list Handler) :
  NoDup hs →
  NoDup (List.filter (fun h' => negb (bool_decide (h' = h))) hs)
  ∧ (h ∉ List.filter (fun h' => negb (bool_decide (h' = h))) hs)
  ∧ (h ∉ hs → List.filter (fun h' => negb (bool_decide (h' = h))) hs = hs).
Proof.
  induction 1 as [|x hs Hx Hnd (IH1 & IH2 & IH3)]; simpl.
  - split; [constructor|]. split; [apply not_elem_of_nil|done].
  - destruct (bool_decide (x = h)) eqn:Hxh; simpl.
    + apply bool_decide_eq_true in Hxh. subst x.
      split; [done|]. split; [done|]. intros Hno. exfalso. apply Hno. left.
    + apply bool_decide_eq_false in Hxh.
      split.
      * constructor; [|done]. intros Hin. apply Hx.
        apply list_elem_of_In, filter_In in Hin as [Hin _].
        by apply list_elem_of_In.
      * split.
        -- intros Hin. apply elem_of_cons in Hin as [->|Hin]; done.
        -- intros Hno. f_equal. apply IH3. intros Hin. apply Hno. by right.
Qed.

Lemma step_keeps_sets e e' :
  step e e' →
  (∀ event, NoDup (handlers_of event e) ∧ e !! event ≠ Some []) →
  ∀ event, NoDup (handlers_of event e') ∧ e' !! event ≠ Some [].
Proof.
  intros Hstep Hinv event.
  destruct Hstep as [ev h e|ev h e|ev e]; unfold handlers_of at 1.
  - rewrite on_lookup. destruct (decide (ev = event)) as [->|Hne];
      [|apply Hinv].
    destruct (Hinv event) as [Hnd _]. simpl.
    destruct (decide (h ∈ handlers_of event e)) as [Hin|Hout].
    + split; [done|]. intros [= Heq]. rewrite Heq in Hin.
      by apply elem_of_nil in Hin.
    + split; [|by destruct (handlers_of event e)].
      apply NoDup_app. split; [done|]. split; [|apply NoDup_singleton].
      intros x Hx Hx'. apply list_elem_of_singleton in Hx'. by subst x.
  - rewrite off_lookup. destruct (decide (ev = event)) as [->|Hne];
      [|apply Hinv].
    destruct (Hinv event) as [Hnd _].
    destruct (filter_other_NoDup h _ Hnd) as (Hf & _ & _).
    destruct (List.filter _ (handlers_of event e)) as [|x l].
    + split; [constructor|done].
    + by split.
  - destruct (clear_lookup ev e event) as [-> | ->].
    + split; [constructor|done].
    + apply Hinv.
Qed.

Lemma reachable_sets e :
  reachable e →
  ∀ event, NoDup (handlers_of event e) ∧ e !! event ≠ Some [].
Proof.
  induction 1 as [|e e' _ IH Hstep].
  - intros event. unfold handlers_of, constructor.
    rewrite registry_lookup_empty. split; [constructor|done].
  - by apply (step_keeps_sets e e').
Qed.

(** X24: the registry keeps a set of handlers for each event.  In every
    registry that a program can see, no handler is registered twice for an
    event and [hasHandlers] tells whether the event has an entry; [on]
    registers the handler, and a second [on] changes nothing; [off] removes
    it and keeps the others in their order; [off] after [on] gives back the
    registry when the handler was not registered before; and [emit] after
    [off] calls the others and not the handler. *)
Theorem registry_keeps_a_set_of_handlers e event h :
  reachable e →
  NoDup (handlers_of event e)
  ∧ (hasHandlers event e = true ↔ is_Some (e !! event))
  ∧ (h ∈ handlers_of event (on event h e))
  ∧ on event h (on event h e) = on event h e
  ∧ handlers_of event (off event h e)
    = List.filter (fun h' => negb (bool_decide (h' = h)))
        (handlers_of event e)
  ∧ (h ∉ handlers_of event (off event h e))
  ∧ (h ∉ handlers_of event e → off event h (on event h e) = e)
  ∧ (∀ data w,
       handler_calls (snd (emit (off event h e) event data w))
       = handler_calls w
         ++ map (fun h' => (event, h_id h', data))
              (List.filter (fun h' => negb (bool_decide (h' = h)))
                 (handlers_of event e))).
Proof.
  intros Hr. destruct (reachable_sets e Hr event) as [Hnd Hne].
  assert (Hon : handlers_of event (on event h e)
                = if decide (h ∈ handlers_of event e)
                  then handlers_of event e else handlers_of event e ++ [h]).
  { unfold handlers_of at 1. rewrite on_lookup.
    by destruct (decide (event = event)). }
  assert (Hoff : handlers_of event (off event h e)
                 = List.filter (fun h' => negb (bool_decide (h' = h)))
                     (handlers_of event e)).
  { unfold handlers_of at 1. rewrite off_lookup.
    destruct (decide (event = event)); [|done].
    by destruct (List.filter _ (handlers_of event e)). }
  destruct (filter_other_NoDup h _ Hnd) as (_ & Hgone & Hsame).
  split; [exact Hnd|]. split.
  { unfold hasHandlers. destruct (e !! event) as [[|x hs]|]; simpl.
    - done.
    - split; [by eexists|done].
    - split; [done|]. by intros [? ?]. }
  split.
  { rewrite Hon. destruct (decide (h ∈ handlers_of event e)); [done|].
    apply elem_of_app. right. left. }
  split.
  { apply map_eq. intros ev. rewrite !on_lookup.
    destruct (decide (event = ev)); [|done]. f_equal. rewrite Hon.
    destruct (decide (h ∈ handlers_of event e)) as [Hin|Hout].
    - by rewrite decide_True.
    - rewrite decide_True; [done|]. apply elem_of_app. right. left. }
  split; [exact Hoff|].
  split; [by rewrite Hoff|].
  split.
  { intros Hout. apply map_eq. intros ev. rewrite off_lookup.
    destruct (decide (event = ev)) as [<-|Hev].
    - rewrite Hon, decide_False by done.
      rewrite List.filter_app. simpl. rewrite bool_decide_eq_true_2 by done.
      simpl. rewrite app_nil_r, (Hsame Hout). by apply handlers_lookup.
    - rewrite on_lookup. by destruct (decide (event = ev)). }
  intros data w. rewrite emit_spec. cbn [snd].
  unfold handler_calls. rewrite trace_record_all, omap_app.
  unfold emitted. fold (handlers_of event (off event h e)).
  by rewrite handler_calls_of_handlers, Hoff.
Qed.

Lemma registry_keeps_a_set_of_handlers_witness :
  let h1 := {| h_id := 1; h_throws := false |} in
  let h2 := {| h_id := 2; h_throws := true |} in
  let e := on "consent:change" h1 constructor in
  reachable e
  ∧ handlers_of "consent:change"
      (on "consent:change" h1 (on "consent:change" h1 e)) = [h1]
  ∧ off "consent:change" h2 (on "consent:change" h2 e) = e.
Proof.
  intros h1 h2 e.
  assert (Hr : reachable e).
  { eapply reachable_step; [apply reachable_new|].
    exact (step_on "consent:change" h1 constructor). }
  split; [exact Hr|].
  destruct (registry_keeps_a_set_of_handlers e "consent:change" h1 Hr)
    as (_ & _ & _ & Hon & _).
  destruct (registry_keeps_a_set_of_handlers e "consent:change" h2 Hr)
    as (_ & _ & _ & _ & _ & _ & Hback & _).
  split.
  - rewrite Hon. reflexivity.
  - apply Hback. intros Hin. apply list_elem_of_singleton in Hin.
    discriminate Hin.
Defined.

(** The test of the handler that throws: the handlers after it are still
    called. *)
Example throwing_handler_test :
  let e := on "test" {| h_id := 2; h_throws := false |}
             (on "test" {| h_id := 1; h_throws := true |} constructor) in
  let r := emit e "test" None (Scenario.page_with_stores None None) in
  fst r = Return tt
  ∧ handler_calls (snd r) = [("test", 1, None); ("test", 2, None)]
  ∧ length (console (snd r)) = 1.
Proof. repeat split; vm_compute; reflexivity. Qed.

End EmitterFacts.

(** ** The client and the stores *)

Module ClientFacts.
Import Js Types Page Eff EffFacts PageFacts Persistence PersistenceFacts
  ConsumerFacts CookiePot CookiePotFacts CookieFacts.

Section WithPlatform.
Context `{E : RegExpEngine} `{C : Json.Codec}.

(** *** Statements that leave the document in its place *)

Lemma keeps_bind {A B} (c : Method A) (f : A → Method B) :
  keeps_document c → (∀ a, keeps_document (f a)) →
  keeps_document (bind c f).
Proof.
  intros Hc Hf s. unfold bind. specialize (Hc s).
  destruct (c s) as [[a|e] s1]; cbn [fst snd] in *; [|done].
  by rewrite Hf.
Qed.

Lemma keeps_try_catch {A} (body : Method A) (handler : string → Method A) :
  keeps_document body → (∀ e, keeps_document (handler e)) →
  keeps_document (try_catch body handler).
Proof.
  intros Hb Hh s. unfold try_catch. specialize (Hb s).
  destruct (body s) as [[a|e] s1]; cbn [fst snd] in *; [done|].
  by rewrite Hh.
Qed.

Lemma keeps_on_snd {A} (c : M Page.t A) :
  (∀ w, hasDocument (snd (c w)) = hasDocument w) →
  keeps_document (on_snd (S1 := CookiePot.t) c).
Proof.
  intros Hc s. unfold on_snd. specialize (Hc (snd s)).
  by destruct (c (snd s)).
Qed.

Lemma keeps_emit event data : keeps_document (CookiePot.emit event data).
Proof.
  unfold CookiePot.emit, this. apply keeps_bind.
  - apply keeps_bind; [done|]. by intros a s.
  - intros k. apply keeps_on_snd. intros w. rewrite emit_spec. cbn [snd].
    apply record_all_frame.
Qed.

Lemma keeps_setConsent p i now outcome :
  keeps_document (setConsent p i now outcome).
Proof.
  unfold setConsent.
  apply keeps_bind; [done|]. intros _.
  apply keeps_bind; [unfold this; apply keeps_bind; [done|]; by intros a s|].
  intros k.
  apply keeps_bind.
  { apply keeps_on_snd. intros w.
    destruct (saveConsentToStorage_spec
                {| Types.visitorId := visitorId k;
                   Types.sessionId := sessionId k;
                   categories := consentState k; timestamp := Some now |}
                {| domain := cookieDomain (config k);
                   maxAge := Some (cookieMaxAge (config k));
                   sameSite := None; secure := None |} w) as [a ->].
    cbn [snd]. apply write_both_frame. }
  intros _. apply keeps_bind.
  { destruct (googleConsentMode k) as [g|]; [|done].
    apply keeps_on_snd. intros w. rewrite google_updateConsent_spec.
    cbn [snd]. apply record_all_frame. }
  intros _. apply keeps_bind.
  { destruct (scriptAutoBlocker k) as [b|]; [|done].
    intros s. unfold modify. cbn [snd].
    destruct (blocker_updateConsent_spec (consentState k) b (snd s))
      as (_ & n & evs & Hs & _).
    destruct (ScriptAutoBlocker.updateConsent (consentState k) b (snd s))
      as [b1 w1]. cbn [snd] in *. subst w1.
    destruct (record_all_frame evs (with_nodes n (snd s))) as (_ & -> & _).
    done. }
  intros _. apply keeps_bind; [apply keeps_emit|]. intros _.
  apply keeps_try_catch.
  - unfold submitConsent. apply keeps_bind; [by apply keeps_on_snd|].
    intros _. by destruct outcome.
  - intros e. by apply keeps_on_snd.
Qed.

(** *** [setConsent], then [load] *)

Lemma report_settled_stores outcome request w :
  cookies (report_settled outcome (record (ConsentSubmitted request) w))
  = cookies w
  ∧ localStorage (report_settled outcome (record (ConsentSubmitted request) w))
    = localStorage w
  ∧ trace (report_settled outcome (record (ConsentSubmitted request) w))
    = trace w ++ ConsentSubmitted request
        :: match outcome with
           | Resolved => []
           | Rejected message =>
               [Console ("[CookiePot] Failed to sync consent to backend: "
                           +:+ message)]
           end.
Proof.
  destruct outcome; simpl; repeat split; try done.
  by rewrite <- app_assoc.
Qed.

(** X25: what [setConsent] leaves in the stores is what [load] returns.
    On a document whose jar is as a browser lists it, for a client with a
    positive cookie age and identifiers of 1 to 128 characters, when the
    platform reads back the text of the record: after [setConsent],
    whether or not the report to the backend succeeds,
    [getConsentFromStorage] returns the record with the identifiers of the
    client, the time of the call and exactly the categories that the client
    holds in memory. *)
Theorem setConsent_then_load p i now outcome (k : CookiePot.t) w :
  hasDocument w = true → jar_ok (cookies w) →
  (0 < cookieMaxAge (config k))%Z →
  (1 ≤ String.length (visitorId k) ≤ 128)%nat →
  (1 ≤ String.length (sessionId k) ≤ 128)%nat →
  let c := merged p (consentState k) in
  let json := Json.stringify (Schema.state_json (record_for k c now)) in
  Json.JSON_parse json = Some (Schema.state_json (record_for k c now)) →
  Json.decodeURIComponent (Json.encodeURIComponent json) = Some json →
  let s := setConsent p i now outcome (k, w) in
  fst (getConsentFromStorage (snd (snd s)))
  = Return (Some (record_for k c now))
  ∧ categories (record_for k c now) = consentState (fst (snd s)).
Proof.
  intros Hdoc Hjar Hage Hvid Hsid c json Hparse Hdecode s. subst s.
  pose proof (keeps_setConsent p i now outcome (k, w)) as Hkeep.
  destruct (setConsent_spec p i now k w)
    as (k' & w_local & a & evs & Hrun & Hc & _ & _ & _ & _ & _ & _ & Hcookies
        & _).
  fold c json in Hcookies, Hc, Hrun.
  rewrite (Hrun outcome) in *. cbn [fst snd] in *.
  split; [|by rewrite Hc].
  set (w' := report_settled outcome _) in *.
  destruct (report_settled_stores outcome (request_for k c i) w_local)
    as (Hc' & _ & _).
  fold w' in Hc'. rewrite Hdoc in Hcookies, Hkeep.
  assert (Hvalid : valid_record (record_for k c now))
    by (unfold valid_record; simpl; tauto).
  rewrite getConsentFromStorage_spec. unfold cookie_then_local.
  rewrite cookie_text_jar; [|done|].
  - rewrite Hc', Hcookies, jar_lookup_assign.
    destruct (Z.leb_spec (cookieMaxAge (config k)) 0); [lia|].
    unfold decoded. rewrite Hdecode. unfold consult.
    pose proof (read_saved_record _ Hvalid Hparse) as Hread.
    fold json in Hread. by rewrite Hread.
  - rewrite Hc', Hcookies.
    apply jar_assign_ok; [done|apply consent_name_ok|].
    apply encoded_has_no_semicolon.
Qed.

(** X26: [acceptAll] and [rejectAll].  Both return, whether or not the
    report to the backend succeeds.  After [acceptAll] every category is
    granted; after [rejectAll] only the necessary one is.  The listeners
    of [banner:accept_all], or of [banner:reject_all], are called last,
    with the new state, after the request has been submitted and after a
    failure of the request has been reported. *)
Theorem acceptAll_and_rejectAll now outcome (k : CookiePot.t) w :
  let a := acceptAll now outcome (k, w) in
  let r := rejectAll now outcome (k, w) in
  let report :=
    match outcome with
    | Resolved => []
    | Rejected message =>
        [Console ("[CookiePot] Failed to sync consent to backend: "
                    +:+ message)]
    end in
  fst a = Return tt ∧ fst r = Return tt
  ∧ consentState (fst (snd a)) = allGranted
  ∧ consentState (fst (snd r)) = defaultConsent
  ∧ (∃ before,
       trace (snd (snd a))
       = trace w ++ before
         ++ ConsentSubmitted (request_for k allGranted accept_all) :: report
         ++ EventEmitter.emitted (eventEmitter k) "banner:accept_all"
              (Some allGranted))
  ∧ (∃ before,
       trace (snd (snd r))
       = trace w ++ before
         ++ ConsentSubmitted (request_for k defaultConsent reject_all)
            :: report
         ++ EventEmitter.emitted (eventEmitter k) "banner:reject_all"
              (Some defaultConsent)).
Proof.
  intros a r report. subst a r.
  assert (Hboth : ∀ b i event,
    let c := merged (all b) (consentState k) in
    ∃ before,
      (setConsent (all b) i now outcome ;;
       k0 <- this ;; CookiePot.emit event (Some (consentState k0)))%eff (k, w)
      = (Return tt,
         (set_consentState c (fst (snd (setConsent (all b) i now outcome
                                           (k, w)))),
          snd (snd ((setConsent (all b) i now outcome ;;
                     k0 <- this ;;
                     CookiePot.emit event (Some (consentState k0)))%eff
                      (k, w)))))
      ∧ trace (snd (snd ((setConsent (all b) i now outcome ;;
                          k0 <- this ;;
                          CookiePot.emit event (Some (consentState k0)))%eff
                           (k, w))))
        = trace w ++ before
          ++ ConsentSubmitted (request_for k c i) :: report
          ++ EventEmitter.emitted (eventEmitter k) event (Some c)).
  { intros b i event c.
    destruct (setConsent_spec (all b) i now k w)
      as (k' & w_local & a & evs & Hrun & Hc & _ & _ & Hee & _ & Ht & _).
    fold c in Hrun, Hc, Ht.
    exists (store_events a
              (Browser.NativeSetItem STORAGE_KEYS_CONSENT
                 (Json.stringify (Schema.state_json (record_for k c now))))
              "[CookiePot] Error saving consent to storage: " w
            ++ google_events k c w ++ evs
            ++ EventEmitter.emitted (eventEmitter k) "consent:change"
                 (Some c)).
    cbv [bind]. rewrite (Hrun outcome).
    cbv [this read ret bind CookiePot.emit on_snd]. cbn [fst snd].
    rewrite Hc, Hee, emit_spec. cbn [fst snd].
    split.
    - f_equal. f_equal. destruct k'; simpl in *. by subst.
    - rewrite trace_record_all.
      destruct (report_settled_stores outcome (request_for k c i) w_local)
        as (_ & _ & ->).
      rewrite Ht, <- !app_assoc. reflexivity. }
  destruct (Hboth true accept_all "banner:accept_all") as (b1 & Ha & Hta).
  destruct (Hboth false reject_all "banner:reject_all") as (b2 & Hr & Htr).
  unfold acceptAll, rejectAll. rewrite Ha, Hr. cbn [fst snd].
  split; [done|]. split; [done|]. split; [done|]. split; [done|].
  split; [by exists b1 | by exists b2].
Qed.

End WithPlatform.

Import Scenario LiteralEngine AsciiCodec.

Lemma setConsent_then_load_witness :
  let w := page_with_stores None None in
  let s := setConsent marketing_only accept_selected "2026-01-27"
             (Rejected "NETWORK_ERROR") (client, w) in
  hasDocument w = true ∧ jar_ok (cookies w)
  ∧ fst (getConsentFromStorage (snd (snd s)))
    = Return
        (Some {| Types.visitorId := "test-visitor-id";
                 Types.sessionId := "test-session-id";
                 categories := {| necessary := true; analytics := true;
                                  marketing := true; preferences := false |};
                 timestamp := Some "2026-01-27" |}).
Proof.
  intros w s.
  assert (Hjar : jar_ok (cookies w)) by apply page_with_stores_jar_ok.
  assert (Hage : (0 < cookieMaxAge (config client))%Z) by reflexivity.
  assert (Hvid : (1 ≤ String.length (visitorId client) ≤ 128)%nat)
    by (simpl; lia).
  assert (Hsid : (1 ≤ String.length (sessionId client) ≤ 128)%nat)
    by (simpl; lia).
  set (c := merged marketing_only (consentState client)).
  set (json := Json.stringify
                 (Schema.state_json (record_for client c "2026-01-27"))).
  assert (Hparse : Json.JSON_parse json
                   = Some (Schema.state_json
                             (record_for client c "2026-01-27")))
    by (vm_compute; reflexivity).
  assert (Hdecode : Json.decodeURIComponent (Json.encodeURIComponent json)
                    = Some json) by (vm_compute; reflexivity).
  destruct (setConsent_then_load marketing_only accept_selected "2026-01-27"
              (Rejected "NETWORK_ERROR") client w eq_refl Hjar Hage Hvid
              Hsid Hparse Hdecode) as [Hload _].
  split; [reflexivity|]. split; [exact Hjar|]. exact Hload.
Defined.

(** The test of [rejectAll] after [acceptAll]. *)
Example rejectAll_test :
  let a := acceptAll "2026-01-27" Resolved
             (client, page_with_stores None None) in
  let r := rejectAll "2026-01-28" Resolved (snd a) in
  consentState (fst (snd a)) = allGranted
  ∧ consentState (fst (snd r)) = defaultConsent
  ∧ fst (getConsentFromStorage (snd (snd r)))
    = Return (Some {| Types.visitorId := "test-visitor-id";
                      Types.sessionId := "test-session-id";
                      categories := defaultConsent;
                      timestamp := Some "2026-01-28" |}).
Proof. repeat split; vm_compute; reflexivity. Qed.

End ClientFacts.

(** ** The adapter of Google Consent Mode *)

Module GoogleFacts.
Import Js Types Page Eff PageFacts ConsumerFacts GoogleConsentModeManager.

Lemma initializeDefaults_spec g w :
  ∃ evs,
    initializeDefaults g w = (Return tt, record_all evs w)
    ∧ (isActive g w = false → evs = [])
    ∧ (isActive g w = true → gtag w = GtagRecords →
       ∃ defaults,
         evs = [ GtagCalled ("consent", "default", defaults);
                 Console "[CookiePot] Google Consent Mode v2 defaults set" ]
         ∧ ∀ key, (key, GStr "granted") ∈ defaults → key = "security_storage")
    ∧ (gtag w = GtagThrows → Forall is_console evs).
Proof.
  unfold initializeDefaults, isActive. cbv [bind read].
  destruct (enabled g); cbn [negb orb andb].
  - destruct (isGtagAvailable w) eqn:Hav; cbn [negb].
    + cbv [try_catch bind call_gtag read modify throw].
      destruct (gtag w) eqn:Hg.
      * by unfold isGtagAvailable in Hav; rewrite Hg, andb_false_r in Hav.
      * eexists [_]. split; [reflexivity|]. split; [done|]. split; [done|].
        intros _. by repeat constructor.
      * eexists [_; _]. split; [reflexivity|]. split; [done|].
        split; [|done]. intros _ _. eexists. split; [reflexivity|].
        intros key Hkey. rewrite !elem_of_cons in Hkey.
        destruct Hkey as [H|[H|[H|[H|[H|[H|[H|[H|H]]]]]]]];
          by inversion H.
    + exists []. split; [done|]. split; [done|]. split; [done|].
      intros _. constructor.
  - exists []. split; [done|]. split; [done|]. split; [done|].
    intros _. constructor.
Qed.

(** X27: the signals to Google follow the consent.  [initializeDefaults]
    and [updateConsent] never throw.  When the adapter is disabled or
    there is no [gtag], they do nothing.  When [gtag] records, the update
    is one call with the signals of [mapConsentToGoogle], in which a signal
    other than [security_storage] is granted only if its category is:
    marketing for the three signals of ads, analytics for
    [analytics_storage], preferences for the two others; and the defaults
    grant [security_storage] alone.  When [gtag] throws, no call is
    recorded. *)
Theorem google_signals_follow_consent g (c : ConsentCategories) w :
  let u := updateConsent g c w in
  let d := initializeDefaults g w in
  fst u = Return tt ∧ fst d = Return tt
  ∧ (isActive g w = false → snd u = w ∧ snd d = w)
  ∧ (isActive g w = true → gtag w = GtagRecords →
     dataLayer (snd u)
     = dataLayer w ++ [("consent", "update", mapConsentToGoogle c)]
     ∧ ∃ defaults,
         dataLayer (snd d) = dataLayer w ++ [("consent", "default", defaults)]
         ∧ ∀ key, (key, GStr "granted") ∈ defaults → key = "security_storage")
  ∧ (gtag w = GtagThrows →
     dataLayer (snd u) = dataLayer w ∧ dataLayer (snd d) = dataLayer w)
  ∧ (∀ key,
       (key, GStr "granted") ∈ mapConsentToGoogle c →
       key = "security_storage"
       ∨ (key ∈ ["ad_storage"; "ad_user_data"; "ad_personalization"]
          ∧ marketing c = true)
       ∨ (key = "analytics_storage" ∧ analytics c = true)
       ∨ (key ∈ ["functionality_storage"; "personalization_storage"]
          ∧ preferences c = true)).
Proof.
  intros u d. subst u d. rewrite google_updateConsent_spec.
  destruct (initializeDefaults_spec g w) as (evs & -> & Hoff & Hon & Hthrow).
  cbn [fst snd]. split; [done|]. split; [done|].
  unfold update_events. fold (isActive g w).
  assert (Hact : negb (enabled g) || negb (isGtagAvailable w)
                 = negb (isActive g w))
    by (unfold isActive; by destruct (enabled g), (isGtagAvailable w)).
  rewrite Hact.
  split; [|split; [|split]].
  - intros Hno. rewrite Hno, (Hoff Hno). done.
  - intros Hyes Hg. rewrite Hyes, Hg. cbn [negb].
    destruct (Hon Hyes Hg) as (defaults & -> & Hdef).
    unfold dataLayer. rewrite !trace_record_all, !omap_app.
    split; [done|]. by exists defaults.
  - intros Hg. rewrite Hg.
    assert (Hsilent : ∀ evs', Forall is_console evs' →
              dataLayer (record_all evs' w) = dataLayer w).
    { intros evs' Hc. unfold dataLayer at 1. rewrite trace_record_all.
      apply dataLayer_app. eapply Forall_impl; [exact Hc|]. by intros []. }
    split; [|by apply Hsilent, Hthrow].
    destruct (negb (isActive g w)); [by apply (Hsilent [])|].
    apply Hsilent. by repeat constructor.
  - intros key Hkey. unfold mapConsentToGoogle, consent_value in Hkey.
    rewrite !elem_of_cons in Hkey.
    destruct Hkey as [H|[H|[H|[H|[H|[H|[H|H]]]]]]].
    + injection H as -> Hv. right. left. split; [by left|].
      by destruct (marketing c).
    + injection H as -> Hv. right. left. split; [right; by left|].
      by destruct (marketing c).
    + injection H as -> Hv. right. left. split; [right; right; by left|].
      by destruct (marketing c).
    + injection H as -> Hv. right. right. left. split; [done|].
      by destruct (analytics c).
    + injection H as -> Hv. right. right. right. split; [by left|].
      by destruct (preferences c).
    + injection H as -> Hv. right. right. right. split; [right; by left|].
      by destruct (preferences c).
    + injection H as ->. by left.
    + by apply elem_of_nil in H.
Qed.

End GoogleFacts.

(** ** The identifier of the visitor *)

Module VisitorIdFacts.
Import Js Types Page Eff Json Persistence PersistenceFacts VisitorId.

(** *** The identifiers that are generated *)

Lemma hex_digit_is_hex n :
  (n < 16)%nat → atom_matches Hex (hex_digit false n) = true.
Proof.
  intros Hn. do 16 (destruct n as [|n]; [reflexivity|]). lia.
Qed.

Lemma variant_digit_is_variant n :
  (n < 16)%nat →
  atom_matches Variant (hex_digit false (Nat.lor (Nat.land n 3) 8)) = true.
Proof.
  intros Hn. do 16 (destruct n as [|n]; [reflexivity|]). lia.
Qed.

Lemma valid_is_truthy s : isValidUUID s = true → truthy s = true.
Proof. by destruct s. Qed.

Lemma matches_length p s : matches p s = true → String.length s = length p.
Proof.
  revert s. induction p as [|a p IH]; intros [|c s]; simpl; try done.
  intros H. apply andb_true_iff in H as [_ H]. by rewrite (IH s H).
Qed.

(** X28: an identifier that is generated is a UUID of version 4.  Without
    [crypto.randomUUID], for draws from 0 to 15, [generateVisitorId]
    returns a text of 36 characters that [isValidUUID] accepts; with
    [crypto.randomUUID] it returns what the platform gives.  And what
    [isValidUUID] accepts has 36 characters and is not empty. *)
Theorem generated_identifier_is_a_uuid (r : Random) :
  (∀ i, (draws r i < 16)%nat) →
  (randomUUID r = None →
   isValidUUID (generateVisitorId r) = true
   ∧ String.length (generateVisitorId r) = 36)
  ∧ (∀ id, randomUUID r = Some id → generateVisitorId r = id)
  ∧ (∀ s, isValidUUID s = true → String.length s = 36 ∧ truthy s = true).
Proof.
  intros Hdraws.
  assert (Hlen : ∀ s, isValidUUID s = true → String.length s = 36).
  { intros s Hs. by rewrite (matches_length _ _ Hs). }
  split; [|split].
  - intros Hnone.
    assert (Hvalid : isValidUUID (generateVisitorId r) = true).
    { unfold generateVisitorId. rewrite Hnone.
      cbv [isValidUUID uuid_pattern repeat app].
      cbn [replace_xy Ascii.eqb Bool.eqb matches].
      rewrite !hex_digit_is_hex, !variant_digit_is_variant by apply Hdraws.
      reflexivity. }
    split; [exact Hvalid | by apply Hlen].
  - intros id Hid. unfold generateVisitorId. by rewrite Hid.
  - intros s Hs. split; [by apply Hlen | by apply valid_is_truthy].
Qed.

Lemma generated_identifier_is_a_uuid_witness :
  let r := {| randomUUID := None; draws := λ i, (7 * i + 3) `mod` 16 |} in
  generateVisitorId r = "3a18f6d4-b290-47e5-83a1-8f6d4b2907e5"
  ∧ isValidUUID (generateVisitorId r) = true
  ∧ String.length (generateVisitorId r) = 36.
Proof.
  intros r. split; [reflexivity|].
  apply (generated_identifier_is_a_uuid r); [|reflexivity].
  intros i. apply Nat.mod_upper_bound. lia.
Defined.

(** *** [getOrCreateVisitorId] *)

Section WithCodec.
Context `{C : Codec}.

Lemma saveToCookie_spec id w :
  ∃ w', saveToCookie id w = (Return tt, w')
        ∧ localStorage w' = localStorage w.
Proof.
  unfold saveToCookie. cbv [bind read assign_cookie modify ret].
  destruct (hasDocument w); simpl; eexists; split; reflexivity.
Qed.

Lemma saveToLocalStorage_spec id w :
  saveToLocalStorage id w
  = match localStorage w with
    | Undefined => (Return tt, w)
    | Denied => (Throw "SecurityError", w)
    | Available m =>
        (Return tt,
         record (LocalStorageCalled
                   (Browser.NativeSetItem STORAGE_KEYS_VISITOR_ID id))
           (with_localStorage
              (Available (<[STORAGE_KEYS_VISITOR_ID := id]> m)) w))
    end.
Proof. unfold saveToLocalStorage. apply write_local_spec. Qed.

(** The local store after the identifier has been put into it. *)
Lemma create_spec r w :
  localStorage w ≠ Denied →
  ∃ w', create r w = (Return (generateVisitorId r), w')
        ∧ localStorage w'
          = match localStorage w with
            | Available m =>
                Available (<[STORAGE_KEYS_VISITOR_ID := generateVisitorId r]> m)
            | other => other
            end.
Proof.
  intros Hls. unfold create. unfold bind at 1.
  rewrite saveToLocalStorage_spec.
  destruct (localStorage w) as [| |m] eqn:Hl; [|done|].
  - unfold bind.
    destruct (saveToCookie_spec (generateVisitorId r) w) as (w' & -> & Hl').
    exists w'. split; [done|]. by rewrite Hl', Hl.
  - unfold bind.
    destruct (saveToCookie_spec (generateVisitorId r)
                (record (LocalStorageCalled
                           (Browser.NativeSetItem STORAGE_KEYS_VISITOR_ID
                              (generateVisitorId r)))
                   (with_localStorage
                      (Available
                         (<[STORAGE_KEYS_VISITOR_ID := generateVisitorId r]> m))
                      w))) as (w' & -> & Hl').
    exists w'. split; [done|]. by rewrite Hl'.
Qed.

Lemma from_cookie_spec r w :
  localStorage w ≠ Denied →
  match fst (getCookie STORAGE_KEYS_VISITOR_ID w) with
  | Throw e => from_cookie r w = (Throw e, w)
  | Return cv =>
      ∃ id w',
        from_cookie r w = (Return id, w')
        ∧ (id = generateVisitorId r ∨ isValidUUID id = true)
        ∧ localStorage w'
          = match localStorage w with
            | Available m => Available (<[STORAGE_KEYS_VISITOR_ID := id]> m)
            | other => other
            end
  end.
Proof.
  intros Hls.
  pose proof (getCookie_state STORAGE_KEYS_VISITOR_ID w) as Hstate.
  unfold from_cookie.
  destruct (getCookie STORAGE_KEYS_VISITOR_ID w) as [[cv|e] w0] eqn:Hg;
    cbn [fst snd] in *; subst w0; unfold bind at 1; rewrite Hg; [|done].
  assert (Hcreate : ∃ id w',
    create r w = (Return id, w')
    ∧ (id = generateVisitorId r ∨ isValidUUID id = true)
    ∧ localStorage w'
      = match localStorage w with
        | Available m => Available (<[STORAGE_KEYS_VISITOR_ID := id]> m)
        | other => other
        end).
  { destruct (create_spec r w Hls) as (w' & Hc & Hl).
    exists (generateVisitorId r), w'. split; [done|]. split; [by left|done]. }
  destruct cv as [v|]; [|exact Hcreate].
  destruct (truthy v && isValidUUID v) eqn:Hv; [|exact Hcreate].
  apply andb_true_iff in Hv as [_ Hv].
  unfold bind. rewrite saveToLocalStorage_spec.
  destruct (localStorage w) as [| |m] eqn:Hl; [|done|].
  - exists v, w. split; [done|]. split; [by right|done].
  - eexists v, _. split; [reflexivity|]. split; [by right|done].
Qed.

Lemma getOrCreateVisitorId_stored r r' w m s :
  localStorage w = Available m →
  m !! STORAGE_KEYS_VISITOR_ID = Some s → isValidUUID s = true →
  ∃ w', getOrCreateVisitorId r r' w = (Return s, w')
        ∧ localStorage w' = Available m.
Proof.
  intros Hl Hs Hvalid. unfold getOrCreateVisitorId, try_catch.
  cbv [bind localStorage_defined localStorage_getItem read ret throw].
  rewrite Hl. cbn [fst snd]. rewrite Hl, Hs.
  rewrite Hvalid, (valid_is_truthy s Hvalid). cbn [andb].
  destruct (saveToCookie_spec s w) as (w' & -> & Hl').
  exists w'. split; [done|]. by rewrite Hl'.
Qed.

Lemma getOrCreateVisitorId_spec r r' w :
  ∃ id w',
    getOrCreateVisitorId r r' w = (Return id, w')
    ∧ (id = generateVisitorId r ∨ id = generateVisitorId r'
       ∨ isValidUUID id = true)
    ∧ (∀ m cv,
         localStorage w = Available m →
         fst (getCookie STORAGE_KEYS_VISITOR_ID w) = Return cv →
         (id = generateVisitorId r ∨ isValidUUID id = true)
         ∧ ∃ m', localStorage w' = Available m'
                 ∧ m' !! STORAGE_KEYS_VISITOR_ID = Some id).
Proof.
  destruct (localStorage w) as [| |m] eqn:Hl.
  - (* no local store *)
    assert (Hls : localStorage w ≠ Denied) by (by rewrite Hl).
    pose proof (from_cookie_spec r w Hls) as Hfc.
    unfold getOrCreateVisitorId, try_catch.
    cbv [bind localStorage_defined read ret throw]. rewrite Hl.
    cbn [fst snd].
    destruct (fst (getCookie STORAGE_KEYS_VISITOR_ID w)) as [cv|e].
    + destruct Hfc as (id & w' & -> & Hid & _).
      exists id, w'. split; [done|]. split; [tauto|]. intros; congruence.
    + rewrite Hfc. cbv [modify]. eexists _, _. split; [reflexivity|].
      split; [tauto|]. intros; congruence.
  - (* the access is denied *)
    unfold getOrCreateVisitorId, try_catch.
    cbv [bind localStorage_defined read ret throw modify]. rewrite Hl.
    eexists _, _. split; [reflexivity|]. split; [tauto|]. intros; congruence.
  - destruct (m !! STORAGE_KEYS_VISITOR_ID) as [s|] eqn:Hs.
    + destruct (isValidUUID s) eqn:Hvalid.
      * destruct (getOrCreateVisitorId_stored r r' w m s Hl Hs Hvalid)
          as (w' & -> & Hl').
        exists s, w'. split; [done|]. split; [tauto|].
        intros m0 cv [= <-] _. split; [by right|]. by exists m.
      * assert (Hls : localStorage w ≠ Denied) by (by rewrite Hl).
        pose proof (from_cookie_spec r w Hls) as Hfc.
        unfold getOrCreateVisitorId, try_catch.
        cbv [bind localStorage_defined localStorage_getItem read ret throw].
        rewrite Hl. cbn [fst snd]. rewrite Hl, Hs, Hvalid, andb_false_r.
        destruct (fst (getCookie STORAGE_KEYS_VISITOR_ID w)) as [cv|e].
        -- destruct Hfc as (id & w' & -> & Hid & Hl').
           exists id, w'. split; [done|]. split; [tauto|].
           intros m0 cv0 [= <-] _. split; [done|]. rewrite Hl in Hl'.
           eexists. split; [exact Hl'|]. apply lookup_insert_eq.
        -- rewrite Hfc. cbv [modify]. eexists _, _. split; [reflexivity|].
           split; [tauto|]. intros; congruence.
    + assert (Hls : localStorage w ≠ Denied) by (by rewrite Hl).
      pose proof (from_cookie_spec r w Hls) as Hfc.
      unfold getOrCreateVisitorId, try_catch.
      cbv [bind localStorage_defined localStorage_getItem read ret throw].
      rewrite Hl. cbn [fst snd]. rewrite Hl, Hs.
      destruct (fst (getCookie STORAGE_KEYS_VISITOR_ID w)) as [cv|e].
      * destruct Hfc as (id & w' & -> & Hid & Hl').
        exists id, w'. split; [done|]. split; [tauto|].
        intros m0 cv0 [= <-] _. split; [done|]. rewrite Hl in Hl'.
        eexists. split; [exact Hl'|]. apply lookup_insert_eq.
      * rewrite Hfc. cbv [modify]. eexists _, _. split; [reflexivity|].
        split; [tauto|]. intros; congruence.
Qed.

(** X29: [getOrCreateVisitorId] never throws and always returns a valid
    UUID, whatever the page holds, as long as the generator gives valid
    ones; and a valid identifier in the local store is the one returned. *)
Theorem visitor_id_is_always_valid (r r' : Random) (w : Page.t) :
  isValidUUID (generateVisitorId r) = true →
  isValidUUID (generateVisitorId r') = true →
  ∃ id w',
    getOrCreateVisitorId r r' w = (Return id, w')
    ∧ isValidUUID id = true
    ∧ (∀ m s, localStorage w = Available m →
              m !! STORAGE_KEYS_VISITOR_ID = Some s →
              isValidUUID s = true → id = s).
Proof.
  intros Hr Hr'.
  destruct (getOrCreateVisitorId_spec r r' w) as (id & w' & Hrun & Hid & _).
  exists id, w'. split; [exact Hrun|]. split.
  - destruct Hid as [-> | [-> | Hid]]; done.
  - intros m s Hl Hs Hvalid.
    destruct (getOrCreateVisitorId_stored r r' w m s Hl Hs Hvalid)
      as (w'' & Hrun' & _).
    rewrite Hrun in Hrun'. congruence.
Qed.

(** X30: with a local store and a readable cookie string, the identifier
    that [getOrCreateVisitorId] returns is in the local store afterwards,
    and every later call returns the same one, whatever the generator
    would give then. *)
Theorem visitor_id_is_kept (r r' q q' : Random) (w : Page.t) m cv :
  localStorage w = Available m →
  fst (getCookie STORAGE_KEYS_VISITOR_ID w) = Return cv →
  isValidUUID (generateVisitorId r) = true →
  ∃ id w' m',
    getOrCreateVisitorId r r' w = (Return id, w')
    ∧ localStorage w' = Available m'
    ∧ m' !! STORAGE_KEYS_VISITOR_ID = Some id
    ∧ fst (getOrCreateVisitorId q q' w') = Return id.
Proof.
  intros Hl Hcookie Hr.
  destruct (getOrCreateVisitorId_spec r r' w) as (id & w' & Hrun & _ & Hkept).
  destruct (Hkept m cv Hl Hcookie) as (Hid & m' & Hl' & Hm').
  assert (Hvalid : isValidUUID id = true) by (by destruct Hid as [-> | Hid]).
  exists id, w', m'. split; [exact Hrun|]. split; [exact Hl'|].
  split; [exact Hm'|].
  destruct (getOrCreateVisitorId_stored q q' w' m' id Hl' Hm' Hvalid)
    as (w'' & -> & _).
  reflexivity.
Qed.

End WithCodec.

Import Scenario AsciiCodec.

Lemma visitor_id_is_always_valid_witness :
  let r := {| randomUUID := Some "550e8400-e29b-41d4-a716-446655440000";
              draws := λ _, 0 |} in
  let r' := {| randomUUID := None; draws := λ i, i `mod` 16 |} in
  let stored := "aaaaaaaa-aaaa-4aaa-aaaa-aaaaaaaaaaaa" in
  let w := with_localStorage
             (Available {[ STORAGE_KEYS_VISITOR_ID := stored ]})
             (page_with_stores None None) in
  fst (getOrCreateVisitorId r r' w) = Return stored
  ∧ fst (getOrCreateVisitorId r r' (page_with_stores None None))
    = Return "550e8400-e29b-41d4-a716-446655440000".
Proof.
  intros r r' stored w.
  assert (Hr : isValidUUID (generateVisitorId r) = true) by reflexivity.
  assert (Hr' : isValidUUID (generateVisitorId r') = true) by reflexivity.
  split.
  - destruct (visitor_id_is_always_valid r r' w Hr Hr')
      as (id & w' & -> & _ & Hstored).
    by rewrite (Hstored _ stored eq_refl eq_refl eq_refl).
  - vm_compute. reflexivity.
Defined.

Lemma visitor_id_is_kept_witness :
  let r := {| randomUUID := Some "550e8400-e29b-41d4-a716-446655440000";
              draws := λ _, 0 |} in
  let q := {| randomUUID := None; draws := λ i, i `mod` 16 |} in
  let w := page_with_stores None None in
  ∃ id w' m',
    getOrCreateVisitorId r q w = (Return id, w')
    ∧ localStorage w' = Available m'
    ∧ m' !! STORAGE_KEYS_VISITOR_ID = Some id
    ∧ fst (getOrCreateVisitorId q q w') = Return id.
Proof.
  intros r q w.
  assert (Hcookie : fst (getCookie STORAGE_KEYS_VISITOR_ID w) = Return None)
    by (vm_compute; reflexivity).
  exact (visitor_id_is_kept r q q q w ∅ None eq_refl Hcookie eq_refl).
Defined.

End VisitorIdFacts.
